(** * override-rules: node classification and policy-group assembly

    A shallow embedding of the Sub-Store override script of
    powerfullz/override-rules (the current script, whose entry point is
    [main]) and the properties of its proxy-group generation.

    Conventions of the embedding.
    - A JavaScript string is a [string] of UTF-8 bytes.  The patterns of
      the script use literals, escaped characters, one character class and
      alternation only, so matching byte-wise on well-formed UTF-8 agrees
      with matching on code units.
    - A [RegExp] object is a record carrying its flags and its mutable
      [lastIndex]; [RegExp_test] returns the object after the call, as
      [RegExp.prototype.test] may write [lastIndex].
    - The module-level objects that a call could mutate (the two RegExp
      constants) form the [Realm]; functions that touch them live in the
      state monad [M].
    - Plain objects used as ordered maps ([countriesMeta], [countryNodes],
      [compiledRegex]) are association lists in insertion order, which is
      the order [Object.entries] enumerates non-index string keys in.
    - The static tables merged into the result ([ruleProviders],
      [snifferConfig], [geoxURL]) are constants of the script and are not
      part of the embedding. *)

From Stdlib Require Import String Ascii List ZArith NArith Bool Lia Permutation Sorted.
From Stdlib Require DecimalString DecimalPos DecimalN.
Import ListNotations.
Open Scope string_scope.

(** ** Regular expressions (the fragment the script's patterns use) *)

Inductive atom : Type :=
| Chr (c : ascii)
| Cls (lo hi : ascii).

(** One alternative of a pattern is a sequence of atoms; a pattern is the
    ordered list of its alternatives. *)
Definition alternative := list atom.

Definition is_char (c : ascii) (d : string) : bool :=
  match d with
  | String x EmptyString => Ascii.eqb c x
  | _ => false
  end.

Definition backslash : ascii := ascii_of_nat 92.

(** Parser for pattern sources: [|] separates alternatives, a backslash
    quotes the next character, [[lo-hi]] is a one-range class, everything
    else is a literal. *)
Fixpoint parse_pattern (src : string) (cur : alternative) {struct src}
  : list alternative :=
  match src with
  | EmptyString => [rev cur]
  | String c rest =>
      if is_char c "|" then rev cur :: parse_pattern rest []
      else if Ascii.eqb c backslash then
        match rest with
        | String e rest' => parse_pattern rest' (Chr e :: cur)
        | EmptyString => [rev (Chr c :: cur)]
        end
      else if is_char c "[" then
        match rest with
        | String lo (String d (String hi (String r rest'))) =>
            if is_char d "-" && is_char r "]"
            then parse_pattern rest' (Cls lo hi :: cur)
            else parse_pattern rest (Chr c :: cur)
        | _ => parse_pattern rest (Chr c :: cur)
        end
      else parse_pattern rest (Chr c :: cur)
  end.

Definition in_range (lo hi c : ascii) : bool :=
  (N_of_ascii lo <=? N_of_ascii c)%N && (N_of_ascii c <=? N_of_ascii hi)%N.

(** Canonicalize of a non-unicode, ignore-case RegExp: upper-casing, which
    never maps a character outside ASCII to one inside; on UTF-8 bytes
    only [a-z] move. *)
Definition canonicalize (c : ascii) : ascii :=
  if in_range "a" "z" c then ascii_of_N (N_of_ascii c - 32) else c.

Definition lower_case (c : ascii) : ascii :=
  if in_range "A" "Z" c then ascii_of_N (N_of_ascii c + 32) else c.

Definition atom_match (ignoreCase : bool) (a : atom) (c : ascii) : bool :=
  match a with
  | Chr x =>
      if ignoreCase then Ascii.eqb (canonicalize x) (canonicalize c)
      else Ascii.eqb x c
  | Cls lo hi =>
      in_range lo hi c
      || (ignoreCase && (in_range lo hi (canonicalize c)
                         || in_range lo hi (lower_case c)))
  end.

(** [alt_match i a s]: the alternative [a] matches a prefix of [s]. *)
Fixpoint alt_match (ignoreCase : bool) (a : alternative) (s : string) : bool :=
  match a, s with
  | [], _ => true
  | x :: a', String c s' => atom_match ignoreCase x c && alt_match ignoreCase a' s'
  | _ :: _, EmptyString => false
  end.

(** The first alternative matching at the head of [s], as the length of
    the match. *)
Fixpoint match_here (ignoreCase : bool) (alts : list alternative) (s : string)
  : option nat :=
  match alts with
  | [] => None
  | a :: alts' =>
      if alt_match ignoreCase a s then Some (List.length a)
      else match_here ignoreCase alts' s
  end.

(** Leftmost match in [s], whose first character has index [pos]; the
    result is the index just past the match. *)
Fixpoint search (ignoreCase : bool) (alts : list alternative) (s : string)
  (pos : nat) : option nat :=
  match match_here ignoreCase alts s with
  | Some len => Some (pos + len)
  | None =>
      match s with
      | EmptyString => None
      | String _ s' => search ignoreCase alts s' (S pos)
      end
  end.

Fixpoint skip (n : nat) (s : string) : option string :=
  match n, s with
  | O, _ => Some s
  | S n', String _ s' => skip n' s'
  | S _, EmptyString => None
  end.

(** ** RegExp objects *)

Record RegExp : Type := mkRegExp {
  re_source : string;
  re_ignoreCase : bool;
  re_global : bool;
  re_lastIndex : nat
}.

Definition set_lastIndex (r : RegExp) (i : nat) : RegExp :=
  mkRegExp (re_source r) (re_ignoreCase r) (re_global r) i.

(** [new RegExp(source)]: no flags. *)
Definition new_RegExp (source : string) : RegExp :=
  mkRegExp source false false 0.

(** The matcher proper: end index of the leftmost match at or after
    [start], if any. *)
Definition regexp_exec (r : RegExp) (s : string) (start : nat) : option nat :=
  match skip start s with
  | Some s' => search (re_ignoreCase r) (parse_pattern (re_source r) []) s' start
  | None => None
  end.

(** [r.test(s)], with the object after the call.  Without the [g] flag
    the search starts at 0 and [lastIndex] is not written; with it the
    search starts at [lastIndex], which is moved past the match or reset. *)
Definition RegExp_test (r : RegExp) (s : string) : bool * RegExp :=
  if re_global r then
    match regexp_exec r s (re_lastIndex r) with
    | Some e => (true, set_lastIndex r e)
    | None => (false, set_lastIndex r 0)
    end
  else
    match regexp_exec r s 0 with
    | Some _ => (true, r)
    | None => (false, r)
    end.

(** Whether the pattern of [r] occurs in [s] at all. *)
Definition matches (r : RegExp) (s : string) : bool :=
  match regexp_exec r s 0 with
  | Some _ => true
  | None => false
  end.

(** ** Ordered string-keyed objects *)

Section Assoc.
Context {V : Type}.

(** [obj[k]] *)
Fixpoint assoc_get (obj : list (string * V)) (k : string) : option V :=
  match obj with
  | [] => None
  | (k', v) :: rest => if String.eqb k' k then Some v else assoc_get rest k
  end.

(** [obj[k] = v]: an existing key keeps its place, a new key goes last. *)
Fixpoint assoc_set (obj : list (string * V)) (k : string) (v : V)
  : list (string * V) :=
  match obj with
  | [] => [(k, v)]
  | (k', v') :: rest =>
      if String.eqb k' k then (k', v) :: rest
      else (k', v') :: assoc_set rest k v
  end.

Definition Object_fromEntries (entries : list (string * V))
  : list (string * V) :=
  fold_left (fun obj e => assoc_set obj (fst e) (snd e)) entries [].
End Assoc.

(** ** Numbers as far as the sort comparator needs them *)

Inductive number : Type :=
| Fin (z : Z)
| Infinity
| NegInfinity
| NaN.

Definition number_sub (a b : number) : number :=
  match a, b with
  | Fin x, Fin y => Fin (x - y)
  | NaN, _ | _, NaN => NaN
  | Infinity, Infinity | NegInfinity, NegInfinity => NaN
  | Infinity, _ => Infinity
  | NegInfinity, _ => NegInfinity
  | Fin _, Infinity => NegInfinity
  | Fin _, NegInfinity => Infinity
  end.

(** SortCompare of [Array.prototype.sort]: a comparator result of NaN
    counts as +0; the outcome is the sign. *)
Definition SortCompare {A : Type} (comparefn : A -> A -> number) (x y : A)
  : comparison :=
  match comparefn x y with
  | Fin z => Z.compare z 0
  | Infinity => Gt
  | NegInfinity => Lt
  | NaN => Eq
  end.

(** [Array.prototype.sort] is stable: elements the comparator does not
    separate keep their relative order. *)
Section ArraySort.
Context {A : Type} (comparefn : A -> A -> number).

Fixpoint sort_insert (x : A) (sorted : list A) : list A :=
  match sorted with
  | [] => [x]
  | y :: rest =>
      match SortCompare comparefn x y with
      | Gt => y :: sort_insert x rest
      | _ => x :: sorted
      end
  end.

Fixpoint Array_sort (l : list A) : list A :=
  match l with
  | [] => []
  | x :: rest => sort_insert x (Array_sort rest)
  end.
End ArraySort.

(** ** Constants of the script *)

Definition NODE_SUFFIX : string := "节点".

Module PROXY_GROUPS.
Definition SELECT : string := "选择代理".
Definition MANUAL : string := "手动选择".
Definition FALLBACK : string := "故障转移".
Definition DIRECT : string := "直连".
Definition LANDING : string := "落地节点".
Definition LOW_COST : string := "低倍率节点".
End PROXY_GROUPS.

Record CountryMeta : Type := mkMeta {
  weight : option Z;
  pattern : string;
  icon : string
}.

Definition qure (file : string) : string :=
  "https://gcore.jsdelivr.net/gh/Koolson/Qure@master/IconSet/Color/" ++ file.

Definition own_icon (file : string) : string :=
  "https://gcore.jsdelivr.net/gh/powerfullz/override-rules@master/icons/" ++ file.

Definition countriesMeta : list (string * CountryMeta) := [
  ("香港", mkMeta (Some 10%Z) "香港|港|HK|hk|Hong Kong|HongKong|hongkong|🇭🇰" (qure "Hong_Kong.png"));
  ("澳门", mkMeta None "澳门|MO|Macau|🇲🇴" (qure "Macao.png"));
  ("台湾", mkMeta (Some 20%Z) "台|新北|彰化|TW|Taiwan|🇹🇼" (qure "Taiwan.png"));
  ("新加坡", mkMeta (Some 30%Z) "新加坡|坡|狮城|SG|Singapore|🇸🇬" (qure "Singapore.png"));
  ("日本", mkMeta (Some 40%Z) "日本|川日|东京|大阪|泉日|埼玉|沪日|深日|JP|Japan|🇯🇵" (qure "Japan.png"));
  ("韩国", mkMeta None "KR|Korea|KOR|首尔|韩|韓|🇰🇷" (qure "Korea.png"));
  ("美国", mkMeta (Some 50%Z) "美国|美|US|United States|🇺🇸" (qure "United_States.png"));
  ("加拿大", mkMeta None "加拿大|Canada|CA|🇨🇦" (qure "Canada.png"));
  ("英国", mkMeta (Some 60%Z) "英国|United Kingdom|UK|伦敦|London|🇬🇧" (qure "United_Kingdom.png"));
  ("澳大利亚", mkMeta None "澳洲|澳大利亚|AU|Australia|🇦🇺" (qure "Australia.png"));
  ("德国", mkMeta (Some 70%Z) "德国|德|DE|Germany|🇩🇪" (qure "Germany.png"));
  ("法国", mkMeta (Some 80%Z) "法国|法|FR|France|🇫🇷" (qure "France.png"));
  ("俄罗斯", mkMeta None "俄罗斯|俄|RU|Russia|🇷🇺" (qure "Russia.png"));
  ("泰国", mkMeta None "泰国|泰|TH|Thailand|🇹🇭" (qure "Thailand.png"));
  ("印度", mkMeta None "印度|IN|India|🇮🇳" (qure "India.png"));
  ("马来西亚", mkMeta None "马来西亚|马来|MY|Malaysia|🇲🇾" (qure "Malaysia.png"))
].

Definition LANDING_PATTERN : string :=
  "(?i)家宽|家庭|家庭宽带|商宽|商业宽带|星链|Starlink|落地".

(** ** The module state: the two module-level RegExp objects *)

Record Realm : Type := mkRealm {
  LOW_COST_REGEX : RegExp;
  LANDING_REGEX : RegExp
}.

(** The objects as the two regex literals create them (flag [i] only). *)
Definition initial_realm : Realm := {|
  LOW_COST_REGEX := mkRegExp "0\.[0-5]|低倍率|省流|大流量|实验性" true false 0;
  LANDING_REGEX :=
    mkRegExp "家宽|家庭|家庭宽带|商宽|商业宽带|星链|Starlink|落地" true false 0
|}.

Definition M (A : Type) : Type := Realm -> A * Realm.

Definition ret {A : Type} (a : A) : M A := fun rl => (a, rl).

Definition bind {A B : Type} (c : M A) (k : A -> M B) : M B :=
  fun rl => let (a, rl') := c rl in k a rl'.

Notation "x <- c ;; k" := (bind c (fun x => k))
  (at level 100, c at next level, right associativity).

Definition test_LOW_COST_REGEX (s : string) : M bool :=
  fun rl =>
    let (b, r) := RegExp_test (LOW_COST_REGEX rl) s in
    (b, mkRealm r (LANDING_REGEX rl)).

Definition test_LANDING_REGEX (s : string) : M bool :=
  fun rl =>
    let (b, r) := RegExp_test (LANDING_REGEX rl) s in
    (b, mkRealm (LOW_COST_REGEX rl) r).

(** [l.filter(x => f(x))] for a callback that runs in [M], called on the
    elements from left to right. *)
Fixpoint filterM {A : Type} (f : A -> M bool) (l : list A) : M (list A) :=
  match l with
  | [] => ret []
  | x :: rest =>
      keep <- f x ;;
      kept <- filterM f rest ;;
      ret (if keep then x :: kept else kept)
  end.

(** ** Input, flags and output *)

Module Proxy.
Record t : Type := mk { name : string }.
End Proxy.

Module Config.
(** [proxies] may be missing. *)
Record t : Type := mk { proxies : option (list Proxy.t) }.
End Config.

Record FeatureFlags : Type := mkFlags {
  loadBalance : bool;
  landing : bool;
  ipv6Enabled : bool;
  fullConfig : bool;
  keepAliveEnabled : bool;
  fakeIPEnabled : bool;
  quicEnabled : bool;
  regexFilter : bool;
  countryThreshold : Z
}.

Inductive group_type : Type := select | url_test | load_balance | fallback.

Module Group.
(** A proxy-group object; a key the object lacks is [None]. *)
Record t : Type := mk {
  name : string;
  icon : string;
  type : group_type;
  proxies : option (list string);
  include_all : option bool;
  filter : option string;
  exclude_filter : option string;
  url : option string;
  interval : option Z;
  tolerance : option Z;
  lazy : option bool
}.

Definition base (name icon : string) (type : group_type) : t :=
  mk name icon type None None None None None None None None.

Definition with_proxies (l : list string) (g : t) : t :=
  mk (name g) (icon g) (type g) (Some l) (include_all g) (filter g)
     (exclude_filter g) (url g) (interval g) (tolerance g) (lazy g).

Definition with_include_all (g : t) : t :=
  mk (name g) (icon g) (type g) (proxies g) (Some true) (filter g)
     (exclude_filter g) (url g) (interval g) (tolerance g) (lazy g).

Definition with_filter (f : string) (g : t) : t :=
  mk (name g) (icon g) (type g) (proxies g) (include_all g) (Some f)
     (exclude_filter g) (url g) (interval g) (tolerance g) (lazy g).

Definition with_exclude_filter (f : string) (g : t) : t :=
  mk (name g) (icon g) (type g) (proxies g) (include_all g) (filter g)
     (Some f) (url g) (interval g) (tolerance g) (lazy g).

Definition with_url (u : string) (g : t) : t :=
  mk (name g) (icon g) (type g) (proxies g) (include_all g) (filter g)
     (exclude_filter g) (Some u) (interval g) (tolerance g) (lazy g).

(** The keys [interval], [tolerance] and [lazy: false]. *)
Definition with_probe (i tol : Z) (g : t) : t :=
  mk (name g) (icon g) (type g) (proxies g) (include_all g) (filter g)
     (exclude_filter g) (url g) (Some i) (Some tol) (Some false).
End Group.

Record CountryInfo : Type := mkInfo {
  country : string;
  nodes : list string
}.

(** ** Candidate lists *)

(** An argument of [buildList]: a string, the [false] a failed condition
    leaves behind, or an array of strings. *)
Inductive element : Type :=
| Str (s : string)
| Falsy
| Arr (l : list string).

(** [cond && value] *)
Definition and_then (cond : bool) (value : string) : element :=
  if cond then Str value else Falsy.

(** [elements.flat()]: one level; [None] stands for [false]. *)
Definition flat (elements : list element) : list (option string) :=
  flat_map (fun e => match e with
                     | Str s => [Some s]
                     | Falsy => [None]
                     | Arr l => map Some l
                     end) elements.

(** [.filter(Boolean)] on strings and [false]: the empty string is falsy
    too. *)
Fixpoint filter_Boolean (l : list (option string)) : list string :=
  match l with
  | [] => []
  | Some s :: rest =>
      if String.eqb s "" then filter_Boolean rest else s :: filter_Boolean rest
  | None :: rest => filter_Boolean rest
  end.

Definition buildList (elements : list element) : list string :=
  filter_Boolean (flat elements).

Record BaseLists : Type := mkBaseLists {
  defaultProxies : list string;
  defaultProxiesDirect : list string;
  defaultSelector : list string;
  defaultFallback : list string
}.

(** ** Country ordering *)

Definition weight_or_Infinity (country : string) : number :=
  match assoc_get countriesMeta country with
  | Some meta => match weight meta with Some w => Fin w | None => Infinity end
  | None => Infinity
  end.

Definition by_weight (a b : CountryInfo) : number :=
  number_sub (weight_or_Infinity (country a)) (weight_or_Infinity (country b)).

Definition getCountryGroupNames (countryInfo : list CountryInfo) (minCount : Z)
  : list string :=
  let filtered :=
    List.filter (fun item => (minCount <=? Z.of_nat (List.length (nodes item)))%Z)
                countryInfo in
  let filtered := Array_sort by_weight filtered in
  map (fun item => country item ++ NODE_SUFFIX) filtered.

(** [name.replace(/SUFFIX$/, "")]: drops [suffix] where [name] ends with
    it. *)
Fixpoint strip_suffix (suffix name : string) : string :=
  match name with
  | EmptyString => EmptyString
  | String c rest =>
      if String.eqb name suffix then EmptyString
      else String c (strip_suffix suffix rest)
  end.

Definition stripNodeSuffix (groupNames : list string) : list string :=
  map (strip_suffix NODE_SUFFIX) groupNames.

(** ** Classification *)

Definition proxies_or_empty (config : Config.t) : list Proxy.t :=
  match Config.proxies config with
  | Some l => l
  | None => []
  end.

Definition parseLowCost (config : Config.t) : M (list string) :=
  kept <- filterM (fun proxy => test_LOW_COST_REGEX (Proxy.name proxy))
                  (proxies_or_empty config) ;;
  ret (map Proxy.name kept).

Definition parseLandingNodes (config : Config.t) : M (list string) :=
  kept <- filterM (fun proxy => test_LANDING_REGEX (Proxy.name proxy))
                  (proxies_or_empty config) ;;
  ret (map Proxy.name kept).

Fixpoint strip_prefix (prefix s : string) : option string :=
  match prefix with
  | EmptyString => Some s
  | String a prefix' =>
      match s with
      | String b s' => if Ascii.eqb a b then strip_prefix prefix' s' else None
      | EmptyString => None
      end
  end.

(** [pattern.replace(/^\(\?i\)/, '')] *)
Definition strip_inline_flag (pattern : string) : string :=
  match strip_prefix "(?i)" pattern with
  | Some rest => rest
  | None => pattern
  end.

Definition compiledRegex : list (string * RegExp) :=
  map (fun entry =>
         (fst entry, new_RegExp (strip_inline_flag (pattern (snd entry)))))
      countriesMeta.

(** The inner loop of [parseCountries]: the first country, in table order,
    whose RegExp matches [name]; the RegExp objects tested are returned as
    the calls leave them. *)
Fixpoint first_match (compiled : list (string * RegExp)) (name : string)
  : option string * list (string * RegExp) :=
  match compiled with
  | [] => (None, [])
  | (country, regex) :: rest =>
      let (hit, regex') := RegExp_test regex name in
      if hit then (Some country, (country, regex') :: rest)
      else
        let (found, rest') := first_match rest name in
        (found, (country, regex') :: rest')
  end.

(** [if (!countryNodes[country]) countryNodes[country] = [];
     countryNodes[country].push(name);] *)
Definition push_node (countryNodes : list (string * list string))
  (country name : string) : list (string * list string) :=
  let countryNodes :=
    match assoc_get countryNodes country with
    | Some _ => countryNodes
    | None => assoc_set countryNodes country []
    end in
  match assoc_get countryNodes country with
  | Some bucket => assoc_set countryNodes country (bucket ++ [name])%list
  | None => countryNodes
  end.

(** [proxy.name || ''] *)
Definition name_or_empty (proxy : Proxy.t) : string :=
  if String.eqb (Proxy.name proxy) "" then "" else Proxy.name proxy.

(** The outer loop of [parseCountries]. *)
Fixpoint classify_loop (proxies : list Proxy.t)
  (compiled : list (string * RegExp))
  (countryNodes : list (string * list string))
  : M (list (string * list string)) :=
  match proxies with
  | [] => ret countryNodes
  | proxy :: rest =>
      let name := name_or_empty proxy in
      isLanding <- test_LANDING_REGEX name ;;
      if isLanding then classify_loop rest compiled countryNodes
      else
        isLowCost <- test_LOW_COST_REGEX name ;;
        if isLowCost then classify_loop rest compiled countryNodes
        else
          let (found, compiled') := first_match compiled name in
          match found with
          | Some country =>
              classify_loop rest compiled' (push_node countryNodes country name)
          | None => classify_loop rest compiled' countryNodes
          end
  end.

Definition parseCountries (config : Config.t) : M (list CountryInfo) :=
  let proxies := proxies_or_empty config in
  countryNodes <- classify_loop proxies compiledRegex [] ;;
  ret (map (fun entry => mkInfo (fst entry) (snd entry)) countryNodes).

(** ** Country groups *)

Definition probe_url : string := "https://cp.cloudflare.com/generate_204".

Fixpoint buildCountryProxyGroups_loop (countries : list string)
  (landing loadBalance regexFilter : bool)
  (nodesByCountry : list (string * list string)) : list Group.t :=
  let baseExcludeFilter := "0\.[0-5]|低倍率|省流|大流量|实验性" in
  let landingExcludeFilter := LANDING_PATTERN in
  let groupType := if loadBalance then load_balance else url_test in
  match countries with
  | [] => []
  | country :: rest =>
      match assoc_get countriesMeta country with
      | None =>
          buildCountryProxyGroups_loop rest landing loadBalance regexFilter
                                       nodesByCountry
      | Some meta =>
          let groupConfig :=
            if negb regexFilter then
              let nodeNames :=
                match assoc_get nodesByCountry country with
                | Some l => l
                | None => []
                end in
              Group.with_proxies nodeNames
                (Group.base (country ++ NODE_SUFFIX) (icon meta) groupType)
            else
              Group.with_exclude_filter
                (if landing
                 then landingExcludeFilter ++ "|" ++ baseExcludeFilter
                 else baseExcludeFilter)
                (Group.with_filter (pattern meta)
                   (Group.with_include_all
                      (Group.base (country ++ NODE_SUFFIX) (icon meta) groupType)))
          in
          let groupConfig :=
            if negb loadBalance
            then Group.with_probe 60 20 (Group.with_url probe_url groupConfig)
            else groupConfig in
          groupConfig
            :: buildCountryProxyGroups_loop rest landing loadBalance regexFilter
                                            nodesByCountry
      end
  end.

Definition buildCountryProxyGroups (countries : list string)
  (landing loadBalance regexFilter : bool) (countryInfo : list CountryInfo)
  : list Group.t :=
  let nodesByCountry :=
    if negb regexFilter
    then Object_fromEntries
           (map (fun item => (country item, nodes item)) countryInfo)
    else [] in
  buildCountryProxyGroups_loop countries landing loadBalance regexFilter
                               nodesByCountry.

(** ** Rules and DNS (the parts that depend on the flags) *)

Definition baseRules : list string := [
  "RULE-SET,ADBlock,广告拦截";
  "RULE-SET,AdditionalFilter,广告拦截";
  "RULE-SET,SogouInput,搜狗输入法";
  "DOMAIN-SUFFIX,truthsocial.com,Truth Social";
  "RULE-SET,StaticResources,静态资源";
  "RULE-SET,CDNResources,静态资源";
  "RULE-SET,AdditionalCDNResources,静态资源";
  "RULE-SET,Crypto,Crypto";
  "RULE-SET,EHentai,E-Hentai";
  "RULE-SET,TikTok,TikTok";
  "RULE-SET,SteamFix," ++ PROXY_GROUPS.DIRECT;
  "RULE-SET,GoogleFCM," ++ PROXY_GROUPS.DIRECT;
  "DOMAIN,services.googleapis.cn," ++ PROXY_GROUPS.SELECT;
  "GEOSITE,CATEGORY-AI-!CN,AI";
  "GEOSITE,GOOGLE-PLAY@CN," ++ PROXY_GROUPS.DIRECT;
  "GEOSITE,MICROSOFT@CN," ++ PROXY_GROUPS.DIRECT;
  "GEOSITE,ONEDRIVE,OneDrive";
  "GEOSITE,MICROSOFT,Microsoft";
  "GEOSITE,TELEGRAM,Telegram";
  "GEOSITE,YOUTUBE,YouTube";
  "GEOSITE,GOOGLE,Google";
  "GEOSITE,NETFLIX,Netflix";
  "GEOSITE,SPOTIFY,Spotify";
  "GEOSITE,BAHAMUT,Bahamut";
  "GEOSITE,BILIBILI,Bilibili";
  "GEOSITE,PIKPAK,PikPak";
  "GEOSITE,GFW," ++ PROXY_GROUPS.SELECT;
  "GEOSITE,CN," ++ PROXY_GROUPS.DIRECT;
  "GEOSITE,PRIVATE," ++ PROXY_GROUPS.DIRECT;
  "GEOIP,NETFLIX,Netflix,no-resolve";
  "GEOIP,TELEGRAM,Telegram,no-resolve";
  "GEOIP,CN," ++ PROXY_GROUPS.DIRECT;
  "GEOIP,PRIVATE," ++ PROXY_GROUPS.DIRECT;
  "DST-PORT,22,SSH(22端口)";
  "MATCH," ++ PROXY_GROUPS.SELECT
].

Definition buildRules (quicEnabled : bool) : list string :=
  let ruleList := baseRules in
  if negb quicEnabled
  then "AND,((DST-PORT,443),(NETWORK,UDP)),REJECT" :: ruleList
  else ruleList.

(** The keys of the DNS block that vary; the name-server lists are fixed. *)
Record DnsConfig : Type := mkDns {
  dns_ipv6 : bool;
  enhanced_mode : string;
  fake_ip_filter : option (list string)
}.

(** The keys of the full-config block that vary; ports and modes are
    fixed. *)
Record FullBlock : Type := mkFull {
  full_ipv6 : bool;
  disable_keep_alive : bool
}.

Record Result : Type := mkResult {
  result_proxies : option (list Proxy.t);
  full_block : option FullBlock;
  proxy_groups : list Group.t;
  rules : list string;
  dns : DnsConfig
}.

(** ** The functions that read the module-level flags *)

Section Script.
(** The constants destructured from [buildFeatureFlags(rawArgs)]. *)
Variable flags : FeatureFlags.

Definition buildBaseLists (landing : bool) (lowCostNodes : list string)
  (countryGroupNames : list string) : BaseLists :=
  let lowCost := (0 <? List.length lowCostNodes)%nat || regexFilter flags in
  let defaultSelector := buildList [
    Str PROXY_GROUPS.FALLBACK;
    and_then landing PROXY_GROUPS.LANDING;
    Arr countryGroupNames;
    and_then lowCost PROXY_GROUPS.LOW_COST;
    Str PROXY_GROUPS.MANUAL;
    Str "DIRECT"
  ] in
  let defaultProxies := buildList [
    Str PROXY_GROUPS.SELECT;
    Arr countryGroupNames;
    and_then lowCost PROXY_GROUPS.LOW_COST;
    Str PROXY_GROUPS.MANUAL;
    Str PROXY_GROUPS.DIRECT
  ] in
  let defaultProxiesDirect := buildList [
    Str PROXY_GROUPS.DIRECT;
    Arr countryGroupNames;
    and_then lowCost PROXY_GROUPS.LOW_COST;
    Str PROXY_GROUPS.SELECT;
    Str PROXY_GROUPS.MANUAL
  ] in
  let defaultFallback := buildList [
    and_then landing PROXY_GROUPS.LANDING;
    Arr countryGroupNames;
    and_then lowCost PROXY_GROUPS.LOW_COST;
    Str PROXY_GROUPS.MANUAL;
    Str "DIRECT"
  ] in
  mkBaseLists defaultProxies defaultProxiesDirect defaultSelector
              defaultFallback.

Definition buildDnsConfig (mode : string)
  (fakeIpFilter : option (list string)) : DnsConfig :=
  mkDns (ipv6Enabled flags) mode fakeIpFilter.

Definition dnsConfig : DnsConfig := buildDnsConfig "redir-host" None.

Definition dnsConfigFakeIp : DnsConfig :=
  buildDnsConfig "fake-ip" (Some [
    "geosite:private";
    "geosite:connectivity-check";
    "geosite:cn";
    "Mijia Cloud";
    "dig.io.mi.com";
    "localhost.ptlogin2.qq.com";
    "*.icloud.com";
    "*.stun.*.*";
    "*.stun.*.*.*"
  ]).

(** A [select] group with an enumerated candidate list. *)
Definition select_group (name icon : string) (proxies : list string)
  : option Group.t :=
  Some (Group.with_proxies proxies (Group.base name icon select)).

(** [l.filter(Boolean)] on an array of objects and [null]. *)
Fixpoint compact {A : Type} (l : list (option A)) : list A :=
  match l with
  | [] => []
  | Some x :: rest => x :: compact rest
  | None :: rest => compact rest
  end.

Definition buildProxyGroups (landing : bool) (countries : list string)
  (countryProxyGroups : list Group.t)
  (lowCostNodes landingNodes : list string)
  (defaultProxies defaultProxiesDirect defaultSelector defaultFallback
     : list string)
  : list Group.t :=
  let hasTW := existsb (String.eqb "台湾") countries in
  let hasHK := existsb (String.eqb "香港") countries in
  let hasUS := existsb (String.eqb "美国") countries in
  let frontProxySelector :=
    if landing
    then List.filter
           (fun name => negb (String.eqb name PROXY_GROUPS.LANDING)
                        && negb (String.eqb name PROXY_GROUPS.FALLBACK))
           defaultSelector
    else [] in
  compact ([
    select_group PROXY_GROUPS.SELECT (qure "Proxy.png") defaultSelector;
    Some (Group.with_include_all
            (Group.base PROXY_GROUPS.MANUAL
               "https://gcore.jsdelivr.net/gh/shindgewongxj/WHATSINStash@master/icon/select.png"
               select));
    (if landing then
       Some (if regexFilter flags
             then Group.with_proxies frontProxySelector
                    (Group.with_exclude_filter LANDING_PATTERN
                       (Group.with_include_all
                          (Group.base "前置代理" (qure "Area.png") select)))
             else Group.with_proxies frontProxySelector
                    (Group.base "前置代理" (qure "Area.png") select))
     else None);
    (if landing then
       Some (if regexFilter flags
             then Group.with_filter LANDING_PATTERN
                    (Group.with_include_all
                       (Group.base PROXY_GROUPS.LANDING (qure "Airport.png")
                                   select))
             else Group.with_proxies landingNodes
                    (Group.base PROXY_GROUPS.LANDING (qure "Airport.png")
                                select))
     else None);
    Some (Group.with_probe 180 20
            (Group.with_proxies defaultFallback
               (Group.with_url probe_url
                  (Group.base PROXY_GROUPS.FALLBACK (qure "Bypass.png")
                              fallback))));
    select_group "静态资源" (qure "Cloudflare.png") defaultProxies;
    select_group "AI" (own_icon "chatgpt.png") defaultProxies;
    select_group "Crypto" (qure "Cryptocurrency_3.png") defaultProxies;
    select_group "Google" (own_icon "Google.png") defaultProxies;
    select_group "Microsoft" (own_icon "Microsoft_Copilot.png") defaultProxies;
    select_group "YouTube" (qure "YouTube.png") defaultProxies;
    select_group "Bilibili" (qure "bilibili.png")
      (if hasTW && hasHK
       then [PROXY_GROUPS.DIRECT; "台湾节点"; "香港节点"]
       else defaultProxiesDirect);
    select_group "Bahamut" (qure "Bahamut.png")
      (if hasTW
       then ["台湾节点"; PROXY_GROUPS.SELECT; PROXY_GROUPS.MANUAL;
             PROXY_GROUPS.DIRECT]
       else defaultProxies);
    select_group "Netflix" (qure "Netflix.png") defaultProxies;
    select_group "TikTok" (qure "TikTok.png") defaultProxies;
    select_group "Spotify" (qure "Spotify.png") defaultProxies;
    select_group "E-Hentai" (own_icon "Ehentai.png") defaultProxies;
    select_group "Telegram" (qure "Telegram.png") defaultProxies;
    select_group "Truth Social" (own_icon "TruthSocial.png")
      (if hasUS
       then ["美国节点"; PROXY_GROUPS.SELECT; PROXY_GROUPS.MANUAL]
       else defaultProxies);
    select_group "OneDrive" (own_icon "Onedrive.png") defaultProxies;
    select_group "PikPak" (own_icon "PikPak.png") defaultProxies;
    select_group "SSH(22端口)" (qure "Server.png") defaultProxies;
    select_group "搜狗输入法" (own_icon "Sougou.png")
      [PROXY_GROUPS.DIRECT; "REJECT"];
    select_group PROXY_GROUPS.DIRECT (qure "Direct.png")
      ["DIRECT"; PROXY_GROUPS.SELECT];
    select_group "广告拦截" (qure "AdBlack.png")
      ["REJECT"; "REJECT-DROP"; PROXY_GROUPS.DIRECT];
    (if (0 <? List.length lowCostNodes)%nat || regexFilter flags then
       Some (let lowCostGroup :=
               Group.with_url probe_url
                 (Group.base PROXY_GROUPS.LOW_COST (qure "Lab.png") url_test) in
             if negb (regexFilter flags)
             then Group.with_proxies lowCostNodes lowCostGroup
             else Group.with_filter "(?i)0\.[0-5]|低倍率|省流|大流量|实验性"
                    (Group.with_include_all lowCostGroup))
     else None)
  ] ++ map Some countryProxyGroups)%list.

Definition main (config : Config.t) : M Result :=
  let resultConfig := Config.mk (Config.proxies config) in
  countryInfo <- parseCountries resultConfig ;;
  lowCostNodes <- parseLowCost resultConfig ;;
  landingNodes <- (if landing flags then parseLandingNodes resultConfig
                   else ret []) ;;
  let countryGroupNames :=
    getCountryGroupNames countryInfo (countryThreshold flags) in
  let countries := stripNodeSuffix countryGroupNames in
  let lists := buildBaseLists (landing flags) lowCostNodes countryGroupNames in
  let countryProxyGroups :=
    buildCountryProxyGroups countries (landing flags) (loadBalance flags)
                            (regexFilter flags) countryInfo in
  let proxyGroups :=
    buildProxyGroups (landing flags) countries countryProxyGroups
                     lowCostNodes landingNodes
                     (defaultProxies lists) (defaultProxiesDirect lists)
                     (defaultSelector lists) (defaultFallback lists) in
  let globalProxies := map Group.name proxyGroups in
  let proxyGroups :=
    (proxyGroups
       ++ [Group.with_proxies globalProxies
             (Group.with_include_all
                (Group.base "GLOBAL" (qure "Global.png") select))])%list in
  let finalRules := buildRules (quicEnabled flags) in
  ret (mkResult
         (Config.proxies resultConfig)
         (if fullConfig flags
          then Some (mkFull (ipv6Enabled flags)
                            (negb (keepAliveEnabled flags)))
          else None)
         proxyGroups
         finalRules
         (if fakeIPEnabled flags then dnsConfigFakeIp else dnsConfig)).
End Script.

(** ** Script arguments and feature flags *)

(** The values an argument can have: [$arguments] holds strings, and
    booleans when a caller passes them; a missing key reads as
    [undefined].  (Numbers and objects are not part of the embedding.) *)
Inductive js_value : Type :=
| JUndefined
| JNull
| JBool (b : bool)
| JString (s : string).

(** [ToString] *)
Definition ToString (value : js_value) : string :=
  match value with
  | JUndefined => "undefined"
  | JNull => "null"
  | JBool true => "true"
  | JBool false => "false"
  | JString s => s
  end.

(** [s.toLowerCase()] on the ASCII letters.  The characters outside ASCII
    that the model leaves alone never lower-case to a letter of ["true"],
    so the comparison in [parseBool] comes out as in the script. *)
Fixpoint toLowerCase (s : string) : string :=
  match s with
  | EmptyString => EmptyString
  | String c rest => String (lower_case c) (toLowerCase rest)
  end.

Definition parseBool (value : js_value) : bool :=
  match value with
  | JBool b => b
  | JString s => String.eqb (toLowerCase s) "true" || String.eqb s "1"
  | _ => false
  end.

Definition bytes (codes : list nat) : string :=
  string_of_list_ascii (map ascii_of_nat codes).

(** StrWhiteSpaceChar: white space and line terminators, in UTF-8. *)
Definition StrWhiteSpaceChar : list string := [
  bytes [9]; bytes [10]; bytes [11]; bytes [12]; bytes [13]; bytes [32];
  bytes [194; 160];
  bytes [225; 154; 128];
  bytes [226; 128; 128]; bytes [226; 128; 129]; bytes [226; 128; 130];
  bytes [226; 128; 131]; bytes [226; 128; 132]; bytes [226; 128; 133];
  bytes [226; 128; 134]; bytes [226; 128; 135]; bytes [226; 128; 136];
  bytes [226; 128; 137]; bytes [226; 128; 138];
  bytes [226; 128; 168]; bytes [226; 128; 169]; bytes [226; 128; 175];
  bytes [226; 129; 159];
  bytes [227; 128; 128];
  bytes [239; 187; 191]
].

(** [s] without one leading white-space character, if it has one. *)
Fixpoint strip_white_space (spaces : list string) (s : string)
  : option string :=
  match spaces with
  | [] => None
  | w :: rest =>
      match strip_prefix w s with
      | Some s' => Some s'
      | None => strip_white_space rest s
      end
  end.

Fixpoint trim_start (fuel : nat) (s : string) : string :=
  match fuel with
  | O => s
  | S fuel' =>
      match strip_white_space StrWhiteSpaceChar s with
      | Some s' => trim_start fuel' s'
      | None => s
      end
  end.

(** [TrimString(s, start)]: every removal shortens the string, so its
    length is fuel enough. *)
Definition TrimString_start (s : string) : string :=
  trim_start (String.length s) s.

Definition is_digit (c : ascii) : bool := in_range "0" "9" c.

(** The value of the longest prefix of decimal digits, continuing [acc]. *)
Fixpoint digits_prefix (s : string) (acc : N) : N :=
  match s with
  | EmptyString => acc
  | String c rest =>
      if is_digit c then digits_prefix rest (10 * acc + (N_of_ascii c - 48))
      else acc
  end.

(** [parseInt(value, 10)]; [None] is [NaN].  The result is the integer the
    digits denote.  The script's result is the double nearest to it: the
    same number up to 2^53 in absolute value (with [-0] for ["-0"]), a
    rounded one or [Infinity] beyond.  [main] only compares the result
    with array lengths, which are below 2^32, and there the rounded number
    and the exact one compare alike; a statement about the value itself
    is limited to the exact range. *)
Definition parseInt10 (value : js_value) : option Z :=
  let S := TrimString_start (ToString value) in
  let sign_rest :=
    match S with
    | String c rest =>
        if Ascii.eqb c "-" then ((-1)%Z, rest)
        else if Ascii.eqb c "+" then (1%Z, rest)
        else (1%Z, S)
    | EmptyString => (1%Z, S)
    end in
  match snd sign_rest with
  | String c _ =>
      if is_digit c
      then Some (fst sign_rest * Z.of_N (digits_prefix (snd sign_rest) 0))%Z
      else None
  | EmptyString => None
  end.

Definition parseNumber (value : js_value) (defaultValue : Z) : Z :=
  match value with
  | JNull | JUndefined => defaultValue
  | _ =>
      match parseInt10 value with
      | Some num => num
      | None => defaultValue
      end
  end.

(** [args[key]] *)
Definition arg (args : list (string * js_value)) (key : string) : js_value :=
  match assoc_get args key with
  | Some v => v
  | None => JUndefined
  end.

(** The table [spec] of [buildFeatureFlags]: argument name, flag name. *)
Definition flag_spec : list (string * string) := [
  ("loadbalance", "loadBalance");
  ("landing", "landing");
  ("ipv6", "ipv6Enabled");
  ("full", "fullConfig");
  ("keepalive", "keepAliveEnabled");
  ("fakeip", "fakeIPEnabled");
  ("quic", "quicEnabled");
  ("regex", "regexFilter")
].

(** The object the [reduce] of [buildFeatureFlags] builds. *)
Definition flag_object (args : list (string * js_value))
  : list (string * bool) :=
  fold_left
    (fun acc entry =>
       assoc_set acc (snd entry) (parseBool (arg args (fst entry)) || false))
    flag_spec [].

(** A key of the flag object, as the destructuring at module level reads
    it; every key read there is a key the [reduce] has written. *)
Definition flag (obj : list (string * bool)) (key : string) : bool :=
  match assoc_get obj key with
  | Some b => b
  | None => false
  end.

Definition buildFeatureFlags (args : list (string * js_value))
  : FeatureFlags :=
  let flags := flag_object args in
  mkFlags (flag flags "loadBalance") (flag flags "landing")
          (flag flags "ipv6Enabled") (flag flags "fullConfig")
          (flag flags "keepAliveEnabled") (flag flags "fakeIPEnabled")
          (flag flags "quicEnabled") (flag flags "regexFilter")
          (parseNumber (arg args "threshold") 0).

(** [typeof $arguments !== 'undefined' ? $arguments : {}] *)
Definition rawArgs (arguments : option (list (string * js_value)))
  : list (string * js_value) :=
  match arguments with
  | Some args => args
  | None => []
  end.

(** ** What the loops compute, as list functions

    The definitions below restate the loops of the classifier without the
    state they thread; the lemmas of the next part show that the script's
    functions compute them and leave the module state alone. *)

Definition node_names (config : Config.t) : list string :=
  map Proxy.name (proxies_or_empty config).

Definition low_cost_match (name : string) : bool :=
  matches (LOW_COST_REGEX initial_realm) name.

Definition landing_match (name : string) : bool :=
  matches (LANDING_REGEX initial_realm) name.

(** The first entry of the table whose pattern occurs in [name]. *)
Definition first_hit (compiled : list (string * RegExp)) (name : string)
  : option string :=
  option_map fst (find (fun entry => matches (snd entry) name) compiled).

(** The country a node name is counted for, if any. *)
Definition classify (name : string) : option string :=
  if landing_match name then None
  else if low_cost_match name then None
  else first_hit compiledRegex name.

Definition classified_as (country name : string) : bool :=
  match classify name with
  | Some c => String.eqb c country
  | None => false
  end.

Definition add_key (keys : list string) (k : string) : list string :=
  if existsb (String.eqb k) keys then keys else (keys ++ [k])%list.

(** The distinct elements of a list in the order of their first
    occurrence. *)
Definition first_occurrences (l : list string) : list string :=
  fold_left add_key l [].

(** One round of the outer loop of [parseCountries] on the bucket object. *)
Definition classify_step (countryNodes : list (string * list string))
  (name : string) : list (string * list string) :=
  match classify name with
  | Some country => push_node countryNodes country name
  | None => countryNodes
  end.

(** The buckets of a list of node names: one per country that some name is
    counted for, in the order in which the countries first occur, each
    with its names in input order. *)
Definition buckets_of (names : list string) : list CountryInfo :=
  map (fun c => mkInfo c (List.filter (classified_as c) names))
      (first_occurrences (compact (map classify names))).

(** The names of the groups [buildProxyGroups] always or conditionally
    emits itself, and the name of each country's group. *)
Definition service_group_names : list string := [
  PROXY_GROUPS.SELECT; PROXY_GROUPS.MANUAL; "前置代理"; PROXY_GROUPS.LANDING;
  PROXY_GROUPS.FALLBACK; "静态资源"; "AI"; "Crypto"; "Google"; "Microsoft";
  "YouTube"; "Bilibili"; "Bahamut"; "Netflix"; "TikTok"; "Spotify";
  "E-Hentai"; "Telegram"; "Truth Social"; "OneDrive"; "PikPak";
  "SSH(22端口)"; "搜狗输入法"; PROXY_GROUPS.DIRECT; "广告拦截";
  PROXY_GROUPS.LOW_COST
].

Definition country_keys : list string := map fst countriesMeta.

Definition country_group_name (country : string) : string :=
  country ++ NODE_SUFFIX.

Definition all_country_group_names : list string :=
  map country_group_name country_keys.

(** The weight order of the comparator: [Infinity] for a country without
    weight. *)
Definition weight_le (a b : number) : bool :=
  match a, b with
  | Fin x, Fin y => (x <=? y)%Z
  | _, Infinity => true
  | Infinity, _ => false
  | NegInfinity, _ => true
  | _, NegInfinity => false
  | NaN, _ | _, NaN => false
  end.

Definition number_eqb (a b : number) : bool :=
  match a, b with
  | Fin x, Fin y => (x =? y)%Z
  | Infinity, Infinity | NegInfinity, NegInfinity | NaN, NaN => true
  | _, _ => false
  end.

(** Whether the pattern of a table entry occurs in a node name, as
    [parseCountries] compiles it. *)
Definition pattern_occurs (meta : CountryMeta) (name : string) : bool :=
  matches (new_RegExp (strip_inline_flag (pattern meta))) name.

Definition weight_of (item : CountryInfo) : number :=
  weight_or_Infinity (country item).

Definition weight_ordered (a b : CountryInfo) : Prop :=
  weight_le (weight_of a) (weight_of b) = true.

Definition has_weight (w : number) (item : CountryInfo) : bool :=
  number_eqb (weight_of item) w.

(** The buckets that reach the threshold, in the order the sort leaves
    them in, and their countries. *)
Definition surfaced (countryInfo : list CountryInfo) (minCount : Z)
  : list CountryInfo :=
  Array_sort by_weight
    (List.filter (fun item => (minCount <=? Z.of_nat (List.length (nodes item)))%Z)
                 countryInfo).

Definition surfaced_countries (countryInfo : list CountryInfo) (minCount : Z)
  : list string :=
  map country (surfaced countryInfo minCount).

(** The candidate lists [main] gets from [buildBaseLists], from the node
    names. *)
Definition base_lists_of (flags : FeatureFlags) (names : list string)
  : BaseLists :=
  buildBaseLists flags (landing flags) (List.filter low_cost_match names)
    (map country_group_name
         (surfaced_countries (buckets_of names) (countryThreshold flags))).

(** The groups [main] has built when it computes the candidates of GLOBAL,
    from the node names. *)
Definition groups_before_GLOBAL (flags : FeatureFlags) (names : list string)
  : list Group.t :=
  let countryInfo := buckets_of names in
  let lowCostNodes := List.filter low_cost_match names in
  let landingNodes :=
    if landing flags then List.filter landing_match names else [] in
  let countries := surfaced_countries countryInfo (countryThreshold flags) in
  let lists := base_lists_of flags names in
  buildProxyGroups flags (landing flags) countries
    (buildCountryProxyGroups countries (landing flags) (loadBalance flags)
                             (regexFilter flags) countryInfo)
    lowCostNodes landingNodes
    (defaultProxies lists) (defaultProxiesDirect lists)
    (defaultSelector lists) (defaultFallback lists).

(** A segment of a candidate list that a condition switches on. *)
Definition optional (present : bool) (name : string) : list string :=
  if present then [name] else [].

(** The two parts of [groups_before_GLOBAL]: the groups
    [buildProxyGroups] writes out itself, and the country groups. *)
Definition service_groups (flags : FeatureFlags) (names : list string)
  : list Group.t :=
  let lists := base_lists_of flags names in
  buildProxyGroups flags (landing flags)
    (surfaced_countries (buckets_of names) (countryThreshold flags)) []
    (List.filter low_cost_match names)
    (if landing flags then List.filter landing_match names else [])
    (defaultProxies lists) (defaultProxiesDirect lists)
    (defaultSelector lists) (defaultFallback lists).

Definition country_groups (flags : FeatureFlags) (names : list string)
  : list Group.t :=
  buildCountryProxyGroups
    (surfaced_countries (buckets_of names) (countryThreshold flags))
    (landing flags) (loadBalance flags) (regexFilter flags) (buckets_of names).

(** The group names the candidate lists of [buildBaseLists] can hold
    besides the country groups. *)
Definition selector_constants : list string := [
  PROXY_GROUPS.FALLBACK; PROXY_GROUPS.LANDING; PROXY_GROUPS.LOW_COST;
  PROXY_GROUPS.MANUAL; "DIRECT"
].

Definition proxies_constants : list string := [
  PROXY_GROUPS.SELECT; PROXY_GROUPS.LOW_COST; PROXY_GROUPS.MANUAL;
  PROXY_GROUPS.DIRECT
].

Definition fallback_constants : list string := [
  PROXY_GROUPS.LANDING; PROXY_GROUPS.LOW_COST; PROXY_GROUPS.MANUAL; "DIRECT"
].

Definition GLOBAL_group (globalProxies : list string) : Group.t :=
  Group.with_proxies globalProxies
    (Group.with_include_all (Group.base "GLOBAL" (qure "Global.png") select)).

(** The groups of the output that are some country's group. *)
Definition is_country_group (g : Group.t) : bool :=
  existsb (String.eqb (Group.name g)) all_country_group_names.

(** The countries of the country groups of the output, in output order. *)
Definition emitted_countries (flags : FeatureFlags) (config : Config.t)
  : list string :=
  stripNodeSuffix
    (map Group.name
         (List.filter is_country_group
                      (proxy_groups (fst (main flags config initial_realm))))).

Fixpoint index_of (x : string) (l : list string) : nat :=
  match l with
  | [] => 0
  | y :: rest => if String.eqb y x then 0 else S (index_of x rest)
  end.

(** [a] comes before [b] in the declaration order of [countriesMeta]. *)
Definition declared_before (a b : string) : Prop :=
  index_of a country_keys < index_of b country_keys.

(** Countries of equal weight stand in the declaration order of the
    table. *)
Definition tied_in_declaration_order (countries : list string) : Prop :=
  forall i j ci cj,
    i < j ->
    nth_error countries i = Some ci ->
    nth_error countries j = Some cj ->
    weight_or_Infinity ci = weight_or_Infinity cj ->
    declared_before ci cj.

(** Whether a string begins with a decimal digit. *)
Definition starts_with_digit (s : string) : bool :=
  match s with
  | String c _ => is_digit c
  | EmptyString => false
  end.

(** Whether [c] is the first byte of a white-space character. *)
Definition starts_white_space (c : ascii) : bool :=
  existsb (fun w => match w with
                    | String h _ => Ascii.eqb h c
                    | EmptyString => false
                    end) StrWhiteSpaceChar.

(** The argument names [buildFeatureFlags] reads. *)
Definition argument_names : list string :=
  "threshold" :: map fst flag_spec.

(** The service groups that take [defaultProxies] whatever the countries
    are. *)
Definition generic_service_names : list string := [
  "静态资源"; "AI"; "Crypto"; "Google"; "Microsoft"; "YouTube"; "Netflix";
  "TikTok"; "Spotify"; "E-Hentai"; "Telegram"; "OneDrive"; "PikPak";
  "SSH(22端口)"
].

(** The names a candidate list may use without a group of that name. *)
Definition built_in_names : list string := ["DIRECT"; "REJECT"; "REJECT-DROP"].

(** The groups of [buildProxyGroups] that carry a candidate list, each with
    the list the function gives it. *)
Inductive candidates_of (flags : FeatureFlags) (landing : bool)
  (countries lowCostNodes landingNodes dP dPD dS dF : list string)
  : string -> list string -> Prop :=
| of_selector :
    candidates_of flags landing countries lowCostNodes landingNodes
                  dP dPD dS dF PROXY_GROUPS.SELECT dS
| of_front_proxy :
    landing = true ->
    candidates_of flags landing countries lowCostNodes landingNodes
                  dP dPD dS dF "前置代理"
                  (List.filter
                     (fun name => negb (String.eqb name PROXY_GROUPS.LANDING)
                                  && negb (String.eqb name PROXY_GROUPS.FALLBACK))
                     dS)
| of_landing :
    landing = true -> regexFilter flags = false ->
    candidates_of flags landing countries lowCostNodes landingNodes
                  dP dPD dS dF PROXY_GROUPS.LANDING landingNodes
| of_fallback :
    candidates_of flags landing countries lowCostNodes landingNodes
                  dP dPD dS dF PROXY_GROUPS.FALLBACK dF
| of_generic_service name :
    In name generic_service_names ->
    candidates_of flags landing countries lowCostNodes landingNodes
                  dP dPD dS dF name dP
| of_bilibili :
    candidates_of flags landing countries lowCostNodes landingNodes
                  dP dPD dS dF "Bilibili" dPD
| of_bilibili_regional :
    In "台湾" countries -> In "香港" countries ->
    candidates_of flags landing countries lowCostNodes landingNodes
                  dP dPD dS dF "Bilibili"
                  [PROXY_GROUPS.DIRECT; "台湾节点"; "香港节点"]
| of_bahamut :
    candidates_of flags landing countries lowCostNodes landingNodes
                  dP dPD dS dF "Bahamut" dP
| of_bahamut_regional :
    In "台湾" countries ->
    candidates_of flags landing countries lowCostNodes landingNodes
                  dP dPD dS dF "Bahamut"
                  ["台湾节点"; PROXY_GROUPS.SELECT; PROXY_GROUPS.MANUAL;
                   PROXY_GROUPS.DIRECT]
| of_truth_social :
    candidates_of flags landing countries lowCostNodes landingNodes
                  dP dPD dS dF "Truth Social" dP
| of_truth_social_regional :
    In "美国" countries ->
    candidates_of flags landing countries lowCostNodes landingNodes
                  dP dPD dS dF "Truth Social"
                  ["美国节点"; PROXY_GROUPS.SELECT; PROXY_GROUPS.MANUAL]
| of_sogou :
    candidates_of flags landing countries lowCostNodes landingNodes
                  dP dPD dS dF "搜狗输入法" [PROXY_GROUPS.DIRECT; "REJECT"]
| of_direct :
    candidates_of flags landing countries lowCostNodes landingNodes
                  dP dPD dS dF PROXY_GROUPS.DIRECT
                  ["DIRECT"; PROXY_GROUPS.SELECT]
| of_ad_block :
    candidates_of flags landing countries lowCostNodes landingNodes
                  dP dPD dS dF "广告拦截"
                  ["REJECT"; "REJECT-DROP"; PROXY_GROUPS.DIRECT]
| of_low_cost :
    regexFilter flags = false -> lowCostNodes <> [] ->
    candidates_of flags landing countries lowCostNodes landingNodes
                  dP dPD dS dF PROXY_GROUPS.LOW_COST lowCostNodes.

(** The names of the groups [buildProxyGroups] writes out itself, in its
    order, for the two conditions that decide which are present. *)
Definition emitted_service_names (landing lowCost : bool) : list string :=
  ([PROXY_GROUPS.SELECT; PROXY_GROUPS.MANUAL]
   ++ (if landing then ["前置代理"; PROXY_GROUPS.LANDING] else [])
   ++ [PROXY_GROUPS.FALLBACK; "静态资源"; "AI"; "Crypto"; "Google";
       "Microsoft"; "YouTube"; "Bilibili"; "Bahamut"; "Netflix"; "TikTok";
       "Spotify"; "E-Hentai"; "Telegram"; "Truth Social"; "OneDrive";
       "PikPak"; "SSH(22端口)"; "搜狗输入法"; PROXY_GROUPS.DIRECT; "广告拦截"]
   ++ optional lowCost PROXY_GROUPS.LOW_COST)%list.

Fixpoint distinct (l : list string) : bool :=
  match l with
  | [] => true
  | x :: rest => negb (existsb (String.eqb x) rest) && distinct rest
  end.

(** A height for group names: GLOBAL above the service groups, these above
    the group [直连], this above the Selector, this above the Fallback and
    the Front-Proxy, these above the Landing, low-cost and Manual groups;
    every other name, a country group's among them, is at the bottom. *)
Definition group_rank (name : string) : nat :=
  if String.eqb name "GLOBAL" then 6
  else if String.eqb name PROXY_GROUPS.DIRECT then 4
  else if String.eqb name PROXY_GROUPS.SELECT then 3
  else if String.eqb name PROXY_GROUPS.FALLBACK || String.eqb name "前置代理"
  then 2
  else if String.eqb name PROXY_GROUPS.LANDING
          || String.eqb name PROXY_GROUPS.LOW_COST
          || String.eqb name PROXY_GROUPS.MANUAL
  then 1
  else if existsb (String.eqb name) service_group_names then 5
  else 0.

(** The number of names the classifier has counted for a country. *)
Definition bucket_size (buckets : list CountryInfo) (c : string) : Z :=
  match find (fun b => String.eqb (country b) c) buckets with
  | Some b => Z.of_nat (List.length (nodes b))
  | None => 0
  end.

(** The threshold property in the words "a country's group appears in the
    final sequence iff its bucket size is at least the threshold", the
    bucket of a country without nodes having size 0. *)
Definition group_iff_bucket_size (flags : FeatureFlags) (config : Config.t)
  (c : string) : Prop :=
  (exists g, In g (proxy_groups (fst (main flags config initial_realm)))
             /\ Group.name g = country_group_name c)
  <-> (countryThreshold flags
       <= bucket_size (fst (parseCountries config initial_realm)) c)%Z.

(** The flags with another threshold. *)
Definition with_threshold (flags : FeatureFlags) (t : Z) : FeatureFlags :=
  mkFlags (loadBalance flags) (landing flags) (ipv6Enabled flags)
          (fullConfig flags) (keepAliveEnabled flags) (fakeIPEnabled flags)
          (quicEnabled flags) (regexFilter flags) t.

(** [s.endsWith(suffix)] *)
Fixpoint ends_with (s suffix : string) : bool :=
  String.eqb s suffix
  || match s with
     | EmptyString => false
     | String _ rest => ends_with rest suffix
     end.

(** A rule names [target] as its policy: as its last field, or as the
    field before a final [no-resolve]. *)
Definition rule_targets (rule target : string) : bool :=
  ends_with rule ("," ++ target)
  || ends_with rule ("," ++ target ++ ",no-resolve").

(** The property names every object inherits from [Object.prototype]: a
    lookup such as [countriesMeta[country]] finds a value for them although
    the table has no such key of its own. *)
Definition Object_prototype_keys : list string := [
  "constructor"; "__proto__"; "hasOwnProperty"; "isPrototypeOf";
  "propertyIsEnumerable"; "toLocaleString"; "toString"; "valueOf";
  "__defineGetter__"; "__defineSetter__"; "__lookupGetter__";
  "__lookupSetter__"
].


(** Some country pattern of the table occurs in [name]. *)
Definition some_country_matches (name : string) : bool :=
  existsb (fun entry => pattern_occurs (snd entry) name) countriesMeta.

(** Whether a group has the key [include-all] set. *)
Definition pulls_all (g : Group.t) : bool :=
  match Group.include_all g with
  | Some true => true
  | _ => false
  end.

Definition has_key {A : Type} (field : option A) : bool :=
  match field with
  | Some _ => true
  | None => false
  end.

(** A group gets its members from a candidate list or from [include-all];
    a filter key comes with [include-all] only; and in enumerated mode only
    the Manual group and GLOBAL use [include-all]. *)
Definition sourced (regex : bool) (g : Group.t) : bool :=
  (has_key (Group.proxies g) || pulls_all g)
  && (negb (has_key (Group.filter g) || has_key (Group.exclude_filter g))
      || pulls_all g)
  && (regex || negb (pulls_all g)
      || String.eqb (Group.name g) PROXY_GROUPS.MANUAL
      || String.eqb (Group.name g) "GLOBAL").

(** Inputs the statements are instantiated at. *)
Definition default_flags : FeatureFlags :=
  mkFlags false false false false false false false false 0.

Definition config_of (names : list string) : Config.t :=
  Config.mk (Some (map Proxy.mk names)).

Definition groups_of (flags : FeatureFlags) (names : list string)
  : list Group.t :=
  proxy_groups (fst (main flags (config_of names) initial_realm)).

Arguments matches : simpl never.
Arguments RegExp_test : simpl never.
Arguments regexp_exec : simpl never.
Arguments low_cost_match : simpl never.
Arguments landing_match : simpl never.
Arguments compiledRegex : simpl never.
Arguments initial_realm : simpl never.
Arguments qure : simpl never.
Arguments own_icon : simpl never.

(** * Properties *)

(** ** Lists and strings *)

Lemma Some_inj {A : Type} (x y : A) : Some x = Some y -> x = y.
Proof. congruence. Qed.

Lemma In_existsb_eqb (x : string) (l : list string) :
  In x l <-> existsb (String.eqb x) l = true.
Proof.
  rewrite existsb_exists. split.
  - intros H. exists x. split; [assumption | apply String.eqb_refl].
  - intros [y [Hy E]]. apply String.eqb_eq in E. now subst.
Qed.

Lemma not_In_existsb_eqb (x : string) (l : list string) :
  existsb (String.eqb x) l = false -> ~ In x l.
Proof.
  intros E H. apply In_existsb_eqb in H. congruence.
Qed.

Lemma eqb_length (s t : string) :
  String.eqb s t = true -> String.length s = String.length t.
Proof.
  intros E. apply String.eqb_eq in E. now subst.
Qed.

Lemma append_length (s t : string) :
  String.length (s ++ t) = String.length s + String.length t.
Proof.
  induction s as [|a s IH]; simpl; [reflexivity | now rewrite IH].
Qed.

Lemma strip_suffix_append (suffix s : string) :
  suffix <> "" -> strip_suffix suffix (s ++ suffix) = s.
Proof.
  intros Hne. induction s as [|a s IH]; cbn [append strip_suffix].
  - destruct suffix as [|b suffix]; [congruence|].
    cbn [strip_suffix]. now rewrite String.eqb_refl.
  - destruct (String.eqb (String a (s ++ suffix)) suffix) eqn:E.
    + apply eqb_length in E. cbn [String.length] in E.
      rewrite append_length in E. lia.
    + now rewrite IH.
Qed.

Lemma stripNodeSuffix_names (countries : list string) :
  stripNodeSuffix (map country_group_name countries) = countries.
Proof.
  unfold stripNodeSuffix, country_group_name. rewrite map_map.
  rewrite <- (map_id countries) at 2. apply map_ext. intros c.
  apply strip_suffix_append. discriminate.
Qed.

Lemma find_first_hit {A : Type} (p : A -> bool) (pre post : list A) (x : A) :
  (forall e, In e pre -> p e = false) -> p x = true ->
  find p (pre ++ x :: post) = Some x.
Proof.
  intros Hpre Hx. induction pre as [|e pre IH]; cbn [app find].
  - now rewrite Hx.
  - rewrite (Hpre e (or_introl eq_refl)). apply IH.
    intros e' He'. apply Hpre. now right.
Qed.

Lemma compact_app {A : Type} (l1 l2 : list (option A)) :
  compact (l1 ++ l2) = (compact l1 ++ compact l2)%list.
Proof.
  induction l1 as [|[x|] l1 IH]; simpl; [reflexivity | now rewrite IH | exact IH].
Qed.

Lemma compact_map_Some {A : Type} (l : list A) : compact (map Some l) = l.
Proof.
  induction l as [|x l IH]; simpl; [reflexivity | now rewrite IH].
Qed.

(** ** Objects as association lists *)

Lemma assoc_get_None {V : Type} (obj : list (string * V)) (k : string) :
  assoc_get obj k = None <-> ~ In k (map fst obj).
Proof.
  induction obj as [|[k' v] obj IH]; simpl.
  - tauto.
  - destruct (String.eqb k' k) eqn:E.
    + apply String.eqb_eq in E. split; [discriminate | tauto].
    + apply String.eqb_neq in E. rewrite IH. tauto.
Qed.

Lemma assoc_get_In {V : Type} (obj : list (string * V)) (k : string) (v : V) :
  assoc_get obj k = Some v -> In (k, v) obj.
Proof.
  induction obj as [|[k' v'] obj IH]; simpl; [discriminate|].
  destruct (String.eqb k' k) eqn:E.
  - apply String.eqb_eq in E. intros [= ->]. left. now subst.
  - auto.
Qed.

Lemma assoc_get_NoDup {V : Type} (obj : list (string * V)) (k : string) (v : V) :
  NoDup (map fst obj) -> In (k, v) obj -> assoc_get obj k = Some v.
Proof.
  induction obj as [|[k' v'] obj IH]; simpl; [tauto|].
  intros Hnd [E | Hin].
  - injection E as -> ->. now rewrite String.eqb_refl.
  - inversion Hnd as [|? ? Hk Hnd']; subst.
    destruct (String.eqb k' k) eqn:E.
    + apply String.eqb_eq in E. subst k'. exfalso. apply Hk.
      apply (in_map fst) in Hin. exact Hin.
    + auto.
Qed.

Lemma assoc_set_fresh {V : Type} (obj : list (string * V)) (k : string) (v : V) :
  ~ In k (map fst obj) -> assoc_set obj k v = (obj ++ [(k, v)])%list.
Proof.
  induction obj as [|[k' v'] obj IH]; simpl; [reflexivity|].
  intros Hn. destruct (String.eqb k' k) eqn:E.
  - apply String.eqb_eq in E. tauto.
  - rewrite IH; tauto.
Qed.

Lemma fold_assoc_set_NoDup {V : Type} (entries acc : list (string * V)) :
  NoDup (map fst (acc ++ entries)) ->
  fold_left (fun obj e => assoc_set obj (fst e) (snd e)) entries acc
  = (acc ++ entries)%list.
Proof.
  revert acc. induction entries as [|[k v] entries IH]; intros acc Hnd; simpl.
  - now rewrite app_nil_r.
  - rewrite assoc_set_fresh.
    + rewrite IH; rewrite <- app_assoc; [reflexivity | exact Hnd].
    + rewrite map_app in Hnd. simpl in Hnd.
      apply NoDup_remove_2 in Hnd. intros Hin. apply Hnd.
      apply in_or_app. now left.
Qed.

Lemma Object_fromEntries_NoDup {V : Type} (entries : list (string * V)) :
  NoDup (map fst entries) -> Object_fromEntries entries = entries.
Proof.
  intros Hnd. unfold Object_fromEntries.
  now rewrite fold_assoc_set_NoDup.
Qed.

(** ** The module state is left alone

    Neither module-level RegExp carries the [g] flag, so [test] never
    writes [lastIndex]; the same holds for the objects [parseCountries]
    compiles. *)

Lemma RegExp_test_plain (r : RegExp) (s : string) :
  re_global r = false -> RegExp_test r s = (matches r s, r).
Proof.
  intros Hg. unfold RegExp_test, matches. rewrite Hg.
  now destruct (regexp_exec r s 0).
Qed.

(** With the [g] flag the same call is not repeatable: [test] moves
    [lastIndex], and the second call on the same string fails. *)
Example global_flag_makes_test_stateful :
  let r := mkRegExp "HK" false true 0 in
  fst (RegExp_test r "HK-1") = true
  /\ fst (RegExp_test (snd (RegExp_test r "HK-1")) "HK-1") = false.
Proof. vm_compute. auto. Qed.

Lemma test_LOW_COST_REGEX_run (s : string) :
  test_LOW_COST_REGEX s initial_realm = (low_cost_match s, initial_realm).
Proof.
  unfold test_LOW_COST_REGEX. rewrite RegExp_test_plain by reflexivity.
  reflexivity.
Qed.

Lemma test_LANDING_REGEX_run (s : string) :
  test_LANDING_REGEX s initial_realm = (landing_match s, initial_realm).
Proof.
  unfold test_LANDING_REGEX. rewrite RegExp_test_plain by reflexivity.
  reflexivity.
Qed.

Lemma filterM_run {A : Type} (f : A -> M bool) (p : A -> bool) (rl : Realm)
  (l : list A) :
  (forall x, f x rl = (p x, rl)) -> filterM f l rl = (List.filter p l, rl).
Proof.
  intros Hf. induction l as [|x l IH]; [reflexivity|].
  cbn [filterM List.filter]. unfold bind at 1. rewrite Hf.
  unfold bind at 1. rewrite IH. unfold ret. now destruct (p x).
Qed.

Lemma map_filter_name (p : string -> bool) (l : list Proxy.t) :
  map Proxy.name (List.filter (fun proxy => p (Proxy.name proxy)) l)
  = List.filter p (map Proxy.name l).
Proof.
  induction l as [|x l IH]; [reflexivity|].
  cbn [List.filter map]. destruct (p (Proxy.name x)); cbn [map]; now rewrite IH.
Qed.

Lemma parseLowCost_run (config : Config.t) :
  parseLowCost config initial_realm
  = (List.filter low_cost_match (node_names config), initial_realm).
Proof.
  unfold parseLowCost, bind.
  rewrite (filterM_run _ (fun proxy => low_cost_match (Proxy.name proxy)))
    by (intros x; apply test_LOW_COST_REGEX_run).
  unfold ret, node_names. now rewrite map_filter_name.
Qed.

Lemma parseLandingNodes_run (config : Config.t) :
  parseLandingNodes config initial_realm
  = (List.filter landing_match (node_names config), initial_realm).
Proof.
  unfold parseLandingNodes, bind.
  rewrite (filterM_run _ (fun proxy => landing_match (Proxy.name proxy)))
    by (intros x; apply test_LANDING_REGEX_run).
  unfold ret, node_names. now rewrite map_filter_name.
Qed.

Lemma first_match_run (compiled : list (string * RegExp)) (name : string) :
  Forall (fun entry => re_global (snd entry) = false) compiled ->
  first_match compiled name = (first_hit compiled name, compiled).
Proof.
  unfold first_hit. induction 1 as [|[c r] compiled Hr _ IH]; [reflexivity|].
  cbn [first_match find snd]. cbn [snd] in Hr.
  rewrite RegExp_test_plain by exact Hr.
  destruct (matches r name); [reflexivity|]. now rewrite IH.
Qed.

Lemma compiledRegex_plain :
  Forall (fun entry => re_global (snd entry) = false) compiledRegex.
Proof.
  unfold compiledRegex. apply Forall_forall. intros e He.
  apply in_map_iff in He. destruct He as [x [<- _]]. reflexivity.
Qed.

Lemma name_or_empty_name (proxy : Proxy.t) :
  name_or_empty proxy = Proxy.name proxy.
Proof.
  unfold name_or_empty. destruct (String.eqb (Proxy.name proxy) "") eqn:E;
    [|reflexivity].
  apply String.eqb_eq in E. now rewrite E.
Qed.

Lemma classify_loop_run (proxies : list Proxy.t)
  (countryNodes : list (string * list string)) :
  classify_loop proxies compiledRegex countryNodes initial_realm
  = (fold_left classify_step (map Proxy.name proxies) countryNodes,
     initial_realm).
Proof.
  revert countryNodes. induction proxies as [|proxy proxies IH];
    intros countryNodes; [reflexivity|].
  cbn [classify_loop map fold_left]. rewrite name_or_empty_name.
  unfold classify_step at 2, classify.
  unfold bind at 1. rewrite test_LANDING_REGEX_run.
  destruct (landing_match (Proxy.name proxy)); [apply IH|].
  unfold bind at 1. rewrite test_LOW_COST_REGEX_run.
  destruct (low_cost_match (Proxy.name proxy)); [apply IH|].
  rewrite first_match_run by apply compiledRegex_plain.
  destruct (first_hit compiledRegex (Proxy.name proxy)); apply IH.
Qed.

Lemma parseCountries_fold (config : Config.t) :
  parseCountries config initial_realm
  = (map (fun entry => mkInfo (fst entry) (snd entry))
         (fold_left classify_step (node_names config) []),
     initial_realm).
Proof.
  unfold parseCountries, bind. now rewrite classify_loop_run.
Qed.

(** ** The bucket object after the loop *)

Lemma assoc_get_app_fresh {V : Type} (obj : list (string * V)) (k : string)
  (v : V) :
  ~ In k (map fst obj) -> assoc_get (obj ++ [(k, v)]) k = Some v.
Proof.
  induction obj as [|[k' v'] obj IH]; cbn [app assoc_get map fst In].
  - now rewrite String.eqb_refl.
  - intros Hn. destruct (String.eqb k' k) eqn:E.
    + apply String.eqb_eq in E. tauto.
    + apply IH. tauto.
Qed.

Lemma assoc_set_app_fresh {V : Type} (obj : list (string * V)) (k : string)
  (v v' : V) :
  ~ In k (map fst obj) ->
  assoc_set (obj ++ [(k, v)]) k v' = (obj ++ [(k, v')])%list.
Proof.
  induction obj as [|[k' w] obj IH]; cbn [app assoc_set map fst In].
  - now rewrite String.eqb_refl.
  - intros Hn. destruct (String.eqb k' k) eqn:E.
    + apply String.eqb_eq in E. tauto.
    + rewrite IH; tauto.
Qed.

Lemma push_node_fresh (obj : list (string * list string)) (c n : string) :
  ~ In c (map fst obj) -> push_node obj c n = (obj ++ [(c, [n])])%list.
Proof.
  intros Hn. unfold push_node.
  destruct (assoc_get obj c) eqn:E.
  - apply assoc_get_In in E. apply (in_map fst) in E. tauto.
  - rewrite assoc_set_fresh by exact Hn.
    rewrite assoc_get_app_fresh by exact Hn.
    now rewrite assoc_set_app_fresh.
Qed.

Lemma assoc_get_map (F : string -> list string) (keys : list string)
  (c : string) :
  In c keys -> assoc_get (map (fun k => (k, F k)) keys) c = Some (F c).
Proof.
  induction keys as [|k keys IH]; cbn [map assoc_get In]; [tauto|].
  intros H. destruct (String.eqb k c) eqn:E.
  - apply String.eqb_eq in E. now subst.
  - apply String.eqb_neq in E. apply IH. tauto.
Qed.

Lemma assoc_set_map (F : string -> list string) (keys : list string)
  (c : string) (v : list string) :
  NoDup keys ->
  assoc_set (map (fun k => (k, F k)) keys) c v
  = (map (fun k => (k, if String.eqb k c then v else F k)) keys
     ++ if existsb (String.eqb c) keys then [] else [(c, v)])%list.
Proof.
  induction 1 as [|k keys Hk Hnd IH]; cbn [map assoc_set existsb app];
    [reflexivity|].
  rewrite (String.eqb_sym c k).
  destruct (String.eqb k c) eqn:E; cbn [orb app].
  - apply String.eqb_eq in E. subst k. rewrite app_nil_r. f_equal.
    apply map_ext_in. intros k Hin.
    destruct (String.eqb k c) eqn:E'; [|reflexivity].
    apply String.eqb_eq in E'. now subst.
  - now rewrite IH.
Qed.

Lemma push_node_map (F : string -> list string) (keys : list string)
  (c n : string) :
  NoDup keys -> In c keys ->
  push_node (map (fun k => (k, F k)) keys) c n
  = map (fun k => (k, (F k ++ if String.eqb k c then [n] else [])%list)) keys.
Proof.
  intros Hnd Hin. unfold push_node.
  rewrite (assoc_get_map F keys c Hin). rewrite (assoc_get_map F keys c Hin).
  rewrite assoc_set_map by exact Hnd.
  apply In_existsb_eqb in Hin. rewrite Hin, app_nil_r.
  apply map_ext. intros k. destruct (String.eqb k c) eqn:E.
  - apply String.eqb_eq in E. now subst.
  - now rewrite app_nil_r.
Qed.

Lemma first_occurrences_snoc (l : list string) (x : string) :
  first_occurrences (l ++ [x]) = add_key (first_occurrences l) x.
Proof.
  unfold first_occurrences. now rewrite fold_left_app.
Qed.

Lemma first_occurrences_In (l : list string) (x : string) :
  In x (first_occurrences l) <-> In x l.
Proof.
  induction l as [|y l IH] using rev_ind; [reflexivity|].
  rewrite first_occurrences_snoc, in_app_iff. unfold add_key.
  destruct (existsb (String.eqb y) (first_occurrences l)) eqn:E.
  - apply In_existsb_eqb in E. rewrite IH in *. simpl.
    intuition (subst; auto).
  - rewrite in_app_iff, IH. reflexivity.
Qed.

Lemma first_occurrences_NoDup (l : list string) : NoDup (first_occurrences l).
Proof.
  induction l as [|y l IH] using rev_ind; [constructor|].
  rewrite first_occurrences_snoc. unfold add_key.
  destruct (existsb (String.eqb y) (first_occurrences l)) eqn:E; [exact IH|].
  apply not_In_existsb_eqb in E.
  apply NoDup_rev in IH. rewrite <- (rev_involutive (_ ++ _)).
  apply NoDup_rev. rewrite rev_app_distr. cbn [rev app].
  constructor; [|exact IH]. now rewrite <- in_rev.
Qed.

Lemma classified_as_true (c n : string) :
  classified_as c n = true <-> classify n = Some c.
Proof.
  unfold classified_as. destruct (classify n) as [c'|].
  - rewrite String.eqb_eq. split; congruence.
  - split; discriminate.
Qed.

Lemma In_compact {A : Type} (l : list (option A)) (x : A) :
  In x (compact l) <-> In (Some x) l.
Proof.
  induction l as [|[y|] l IH]; cbn [compact In]; [tauto | |].
  - rewrite IH. split; intros [E|H]; auto; left; congruence.
  - rewrite IH. split; [auto | intros [E|H]; [discriminate | auto]].
Qed.

Lemma classified_names_unseen (c : string) (names : list string) :
  ~ In c (compact (map classify names)) ->
  List.filter (classified_as c) names = [].
Proof.
  intros Hn. induction names as [|n names IH]; [reflexivity|].
  cbn [List.filter]. destruct (classified_as c n) eqn:E.
  - exfalso. apply Hn. apply In_compact. apply classified_as_true in E.
    rewrite <- E. cbn [map]. now left.
  - apply IH. intros H. apply Hn. apply In_compact. apply In_compact in H.
    cbn [map]. now right.
Qed.

Lemma filter_snoc_classified (k n : string) (names : list string) :
  List.filter (classified_as k) (names ++ [n])
  = (List.filter (classified_as k) names
     ++ if classified_as k n then [n] else [])%list.
Proof.
  rewrite filter_app. cbn [List.filter]. now destruct (classified_as k n).
Qed.

(** The bucket object built by the loop, entry by entry. *)
Lemma classify_fold_buckets (names : list string) :
  fold_left classify_step names []
  = map (fun c => (c, List.filter (classified_as c) names))
        (first_occurrences (compact (map classify names))).
Proof.
  induction names as [|n names IH] using rev_ind; [reflexivity|].
  rewrite fold_left_app. cbn [fold_left]. rewrite IH. clear IH.
  rewrite map_app, compact_app. cbn [map compact].
  unfold classify_step.
  assert (Has : forall k, classified_as k n
                          = match classify n with
                            | Some c => String.eqb k c
                            | None => false
                            end).
  { intros k. unfold classified_as. destruct (classify n); [|reflexivity].
    apply String.eqb_sym. }
  destruct (classify n) as [c|] eqn:Hc.
  - rewrite first_occurrences_snoc. unfold add_key.
    destruct (existsb (String.eqb c) _) eqn:E.
    + apply In_existsb_eqb in E.
      rewrite push_node_map by (auto using first_occurrences_NoDup).
      apply map_ext. intros k.
      now rewrite filter_snoc_classified, Has.
    + apply not_In_existsb_eqb in E.
      rewrite push_node_fresh by (now rewrite map_map, map_id).
      rewrite map_app. cbn [map]. f_equal.
      * apply map_ext_in. intros k Hk.
        rewrite filter_snoc_classified, Has.
        destruct (String.eqb k c) eqn:E'; [|now rewrite app_nil_r].
        apply String.eqb_eq in E'. now subst.
      * rewrite filter_snoc_classified, Has, String.eqb_refl.
        rewrite first_occurrences_In in E.
        now rewrite classified_names_unseen.
  - rewrite app_nil_r. apply map_ext. intros k.
    now rewrite filter_snoc_classified, Has, app_nil_r.
Qed.

(** [parseCountries] computes [buckets_of] and leaves the state alone. *)
Lemma parseCountries_run (config : Config.t) :
  parseCountries config initial_realm
  = (buckets_of (node_names config), initial_realm).
Proof.
  rewrite parseCountries_fold, classify_fold_buckets. unfold buckets_of.
  now rewrite map_map.
Qed.

(** ** Buckets *)

Lemma buckets_of_countries (names : list string) :
  map country (buckets_of names)
  = first_occurrences (compact (map classify names)).
Proof.
  unfold buckets_of. rewrite map_map. cbn [country]. apply map_id.
Qed.

Lemma buckets_of_NoDup (names : list string) :
  NoDup (map country (buckets_of names)).
Proof.
  rewrite buckets_of_countries. apply first_occurrences_NoDup.
Qed.

Lemma buckets_of_In (names : list string) (b : CountryInfo) :
  In b (buckets_of names) <->
  nodes b = List.filter (classified_as (country b)) names
  /\ exists n, In n names /\ classify n = Some (country b).
Proof.
  unfold buckets_of. rewrite in_map_iff. split.
  - intros [c [<- Hc]]. cbn [country nodes]. split; [reflexivity|].
    apply first_occurrences_In, In_compact, in_map_iff in Hc.
    destruct Hc as [n [Hn Hin]]. now exists n.
  - intros [Hnodes [n [Hin Hn]]]. exists (country b). split.
    + destruct b as [c ns]. cbn [country nodes] in *. now subst.
    + apply first_occurrences_In, In_compact. rewrite <- Hn.
      now apply in_map.
Qed.

Lemma bucket_node_classified (names : list string) (b : CountryInfo)
  (n : string) :
  In b (buckets_of names) -> In n (nodes b) ->
  In n names /\ classify n = Some (country b).
Proof.
  intros Hb Hn. apply buckets_of_In in Hb. destruct Hb as [Hnodes _].
  rewrite Hnodes in Hn. apply filter_In in Hn. destruct Hn as [Hin Hc].
  now apply classified_as_true in Hc.
Qed.

Lemma classified_in_bucket (names : list string) (n c : string) :
  In n names -> classify n = Some c ->
  exists b, In b (buckets_of names) /\ country b = c /\ In n (nodes b).
Proof.
  intros Hin Hc. exists (mkInfo c (List.filter (classified_as c) names)).
  split; [|split; [reflexivity|]].
  - apply buckets_of_In. cbn [country nodes]. split; [reflexivity|].
    now exists n.
  - cbn [nodes]. apply filter_In. split; [exact Hin|].
    now apply classified_as_true.
Qed.

(** A bucket exists only once a node has been counted for it. *)
Lemma bucket_nonempty (names : list string) (b : CountryInfo) :
  In b (buckets_of names) -> nodes b <> [].
Proof.
  intros Hb. apply buckets_of_In in Hb. destruct Hb as [Hnodes [n [Hin Hn]]].
  rewrite Hnodes. intros E.
  assert (H : In n (List.filter (classified_as (country b)) names)).
  { apply filter_In. split; [exact Hin | now apply classified_as_true]. }
  now rewrite E in H.
Qed.

Lemma first_hit_table (name : string) :
  first_hit compiledRegex name
  = option_map fst (find (fun entry => pattern_occurs (snd entry) name)
                         countriesMeta).
Proof.
  unfold first_hit, compiledRegex, pattern_occurs.
  induction countriesMeta as [|[c meta] table IH]; [reflexivity|].
  cbn [map find fst snd].
  destruct (matches _ name); [reflexivity | exact IH].
Qed.

Lemma first_hit_key (name c : string) :
  first_hit compiledRegex name = Some c -> In c country_keys.
Proof.
  rewrite first_hit_table. unfold country_keys.
  destruct (find _ countriesMeta) as [e|] eqn:E; [|discriminate].
  intros [= <-]. apply find_some in E. apply in_map. tauto.
Qed.

Lemma classify_key (name c : string) :
  classify name = Some c -> In c country_keys.
Proof.
  unfold classify. destruct (landing_match name); [discriminate|].
  destruct (low_cost_match name); [discriminate|]. apply first_hit_key.
Qed.

Lemma classify_unmatched (name c : string) :
  classify name = Some c ->
  landing_match name = false /\ low_cost_match name = false.
Proof.
  unfold classify. destruct (landing_match name); [discriminate|].
  destruct (low_cost_match name); [discriminate|]. tauto.
Qed.

Lemma bucket_country_key (names : list string) (b : CountryInfo) :
  In b (buckets_of names) -> In (country b) country_keys.
Proof.
  intros Hb. apply buckets_of_In in Hb. destruct Hb as [_ [n [_ Hn]]].
  now apply classify_key in Hn.
Qed.

Lemma bucket_unique (names : list string) (b1 b2 : CountryInfo) :
  In b1 (buckets_of names) -> In b2 (buckets_of names) ->
  country b1 = country b2 -> b1 = b2.
Proof.
  intros H1 H2 E. apply buckets_of_In in H1, H2.
  destruct H1 as [N1 _], H2 as [N2 _].
  destruct b1, b2. cbn [country nodes] in *. congruence.
Qed.

(** ** The sort *)

Section SortFacts.
Context {A : Type} (comparefn : A -> A -> number).

Lemma sort_insert_perm (x : A) (l : list A) :
  Permutation (sort_insert comparefn x l) (x :: l).
Proof.
  induction l as [|y l IH]; cbn [sort_insert]; [reflexivity|].
  destruct (SortCompare comparefn x y); try reflexivity.
  rewrite IH. apply perm_swap.
Qed.

Lemma Array_sort_perm (l : list A) : Permutation (Array_sort comparefn l) l.
Proof.
  induction l as [|x l IH]; cbn [Array_sort]; [reflexivity|].
  rewrite sort_insert_perm. now constructor.
Qed.

Lemma Array_sort_In (l : list A) (x : A) :
  In x (Array_sort comparefn l) <-> In x l.
Proof.
  split; apply Permutation_in;
    [apply Array_sort_perm | symmetry; apply Array_sort_perm].
Qed.

(** Sortedness, for a comparator that decides a total preorder. *)
Variable le : A -> A -> Prop.
Hypothesis le_trans : forall x y z, le x y -> le y z -> le x z.
Hypothesis Gt_le : forall x y, SortCompare comparefn x y = Gt -> le y x.
Hypothesis not_Gt_le : forall x y, SortCompare comparefn x y <> Gt -> le x y.

Lemma sort_insert_sorted (x : A) (l : list A) :
  StronglySorted le l -> StronglySorted le (sort_insert comparefn x l).
Proof.
  induction 1 as [|y l Hs IH Hy]; cbn [sort_insert].
  - repeat constructor.
  - destruct (SortCompare comparefn x y) eqn:E.
    + constructor; [now constructor|]. constructor.
      * apply not_Gt_le. congruence.
      * eapply Forall_impl; [|exact Hy]. intros z Hz.
        eapply le_trans; [|exact Hz]. apply not_Gt_le. congruence.
    + constructor; [now constructor|]. constructor.
      * apply not_Gt_le. congruence.
      * eapply Forall_impl; [|exact Hy]. intros z Hz.
        eapply le_trans; [|exact Hz]. apply not_Gt_le. congruence.
    + constructor; [exact IH|].
      apply Forall_forall. intros z Hz.
      apply (Permutation_in _ (sort_insert_perm x l)) in Hz.
      destruct Hz as [<-|Hz]; [now apply Gt_le|].
      rewrite Forall_forall in Hy. now apply Hy.
Qed.

Lemma Array_sort_sorted (l : list A) :
  StronglySorted le (Array_sort comparefn l).
Proof.
  induction l as [|x l IH]; cbn [Array_sort]; [constructor|].
  now apply sort_insert_sorted.
Qed.
End SortFacts.

(** ** The comparator of [getCountryGroupNames] *)

Lemma weight_or_Infinity_cases (c : string) :
  (exists z, weight_or_Infinity c = Fin z) \/ weight_or_Infinity c = Infinity.
Proof.
  unfold weight_or_Infinity. destruct (assoc_get countriesMeta c) as [meta|];
    [|now right].
  destruct (weight meta) as [z|]; [left; now exists z | now right].
Qed.

Ltac weight_cases x :=
  let z := fresh "z" in
  let E := fresh "E" in
  destruct (weight_or_Infinity_cases (country x)) as [[z E]|E];
  unfold weight_ordered, has_weight, weight_of, by_weight, SortCompare in *;
  rewrite E in *; cbn [number_sub weight_le number_eqb] in *.

Lemma weight_ordered_trans (x y z : CountryInfo) :
  weight_ordered x y -> weight_ordered y z -> weight_ordered x z.
Proof.
  weight_cases x; weight_cases y; weight_cases z; intros; try discriminate;
    try reflexivity.
  apply Z.leb_le. apply Z.leb_le in H, H0. lia.
Qed.

Lemma by_weight_Gt (x y : CountryInfo) :
  SortCompare by_weight x y = Gt -> weight_ordered y x.
Proof.
  weight_cases x; weight_cases y; intros H; try discriminate; try reflexivity.
  apply Z.leb_le. apply Z.compare_gt_iff in H. lia.
Qed.

Lemma by_weight_not_Gt (x y : CountryInfo) :
  SortCompare by_weight x y <> Gt -> weight_ordered x y.
Proof.
  weight_cases x; weight_cases y; intros H; try congruence; try reflexivity.
  apply Z.leb_le. destruct (Z.compare_spec (z - z0) 0); try lia. congruence.
Qed.

Lemma by_weight_Gt_differ (w : number) (x y : CountryInfo) :
  SortCompare by_weight x y = Gt -> has_weight w x = true ->
  has_weight w y = false.
Proof.
  weight_cases x; weight_cases y; intros H Hx; try discriminate;
    destruct w; try discriminate; try reflexivity.
  apply Z.eqb_eq in Hx. subst. apply Z.eqb_neq.
  apply Z.compare_gt_iff in H. lia.
Qed.

Lemma sort_insert_stable (w : number) (x : CountryInfo) (l : list CountryInfo) :
  List.filter (has_weight w) (sort_insert by_weight x l)
  = List.filter (has_weight w) (x :: l).
Proof.
  induction l as [|y l IH]; cbn [sort_insert]; [reflexivity|].
  destruct (SortCompare by_weight x y) eqn:E; try reflexivity.
  cbn [List.filter] in *. rewrite IH.
  destruct (has_weight w x) eqn:Hx; [|reflexivity].
  now rewrite (by_weight_Gt_differ w x y E Hx).
Qed.

(** The sort keeps, for every weight, the countries of that weight in the
    order it found them in. *)
Lemma Array_sort_stable (w : number) (l : list CountryInfo) :
  List.filter (has_weight w) (Array_sort by_weight l)
  = List.filter (has_weight w) l.
Proof.
  induction l as [|x l IH]; cbn [Array_sort]; [reflexivity|].
  rewrite sort_insert_stable. cbn [List.filter]. now rewrite IH.
Qed.

Lemma Array_sort_by_weight_sorted (l : list CountryInfo) :
  StronglySorted weight_ordered (Array_sort by_weight l).
Proof.
  apply Array_sort_sorted.
  - exact weight_ordered_trans.
  - exact by_weight_Gt.
  - exact by_weight_not_Gt.
Qed.

(** ** The shape of the output of [main] *)

Lemma getCountryGroupNames_surfaced (countryInfo : list CountryInfo)
  (minCount : Z) :
  getCountryGroupNames countryInfo minCount
  = map country_group_name (surfaced_countries countryInfo minCount).
Proof.
  unfold getCountryGroupNames, surfaced_countries, surfaced.
  now rewrite map_map.
Qed.

Lemma main_run (flags : FeatureFlags) (config : Config.t) :
  main flags config initial_realm
  = (fst (main flags config initial_realm), initial_realm).
Proof.
  unfold main, bind. rewrite parseCountries_run, parseLowCost_run.
  destruct (landing flags); [rewrite parseLandingNodes_run|]; reflexivity.
Qed.

Lemma main_proxy_groups (flags : FeatureFlags) (config : Config.t) :
  proxy_groups (fst (main flags config initial_realm))
  = (groups_before_GLOBAL flags (node_names config)
     ++ [GLOBAL_group
           (map Group.name (groups_before_GLOBAL flags (node_names config)))])%list.
Proof.
  unfold main, bind. rewrite parseCountries_run, parseLowCost_run.
  assert (Hn : node_names (Config.mk (Config.proxies config))
               = node_names config) by reflexivity.
  unfold groups_before_GLOBAL, base_lists_of.
  destruct (landing flags) eqn:Hl;
    [rewrite parseLandingNodes_run|];
    cbn [ret fst proxy_groups]; rewrite Hn;
    rewrite getCountryGroupNames_surfaced, stripNodeSuffix_names;
    reflexivity.
Qed.

Lemma buildProxyGroups_app (flags : FeatureFlags) (landing : bool)
  (countries : list string) (countryProxyGroups : list Group.t)
  (lowCostNodes landingNodes dP dPD dS dF : list string) :
  buildProxyGroups flags landing countries countryProxyGroups lowCostNodes
                   landingNodes dP dPD dS dF
  = (buildProxyGroups flags landing countries [] lowCostNodes landingNodes
                      dP dPD dS dF
     ++ countryProxyGroups)%list.
Proof.
  unfold buildProxyGroups. cbn [map]. rewrite app_nil_r.
  now rewrite compact_app, compact_map_Some.
Qed.

(** ** Country groups *)

Lemma country_key_meta (c : string) :
  In c country_keys <-> exists meta, assoc_get countriesMeta c = Some meta.
Proof.
  unfold country_keys. split.
  - intros Hin. destruct (assoc_get countriesMeta c) as [meta|] eqn:E.
    + now exists meta.
    + apply assoc_get_None in E. tauto.
  - intros [meta E] . apply assoc_get_In in E. apply (in_map fst) in E. exact E.
Qed.

Lemma country_loop_In (countries : list string) (landing loadBalance
  regexFilter : bool) (nodesByCountry : list (string * list string))
  (g : Group.t) :
  In g (buildCountryProxyGroups_loop countries landing loadBalance regexFilter
                                     nodesByCountry) ->
  exists c,
    In c countries /\ In c country_keys
    /\ Group.name g = country_group_name c
    /\ Group.type g = (if loadBalance then load_balance else url_test)
    /\ Group.proxies g
       = if regexFilter then None
         else Some (match assoc_get nodesByCountry c with
                    | Some l => l
                    | None => []
                    end).
Proof.
  induction countries as [|c countries IH]; cbn [buildCountryProxyGroups_loop];
    [intros []|].
  destruct (assoc_get countriesMeta c) as [meta|] eqn:E.
  - intros [<-|H].
    + exists c. split; [now left|]. split; [apply country_key_meta; eauto|].
      destruct regexFilter, loadBalance; cbn; auto.
    + destruct (IH H) as [c' [Hin Hrest]]. exists c'. split; [now right|].
      exact Hrest.
  - intros H. destruct (IH H) as [c' [Hin Hrest]]. exists c'.
    split; [now right | exact Hrest].
Qed.

Lemma country_loop_names (countries : list string) (landing loadBalance
  regexFilter : bool) (nodesByCountry : list (string * list string)) :
  (forall c, In c countries -> In c country_keys) ->
  map Group.name
      (buildCountryProxyGroups_loop countries landing loadBalance regexFilter
                                    nodesByCountry)
  = map country_group_name countries.
Proof.
  induction countries as [|c countries IH]; intros Hkeys;
    cbn [buildCountryProxyGroups_loop map]; [reflexivity|].
  destruct (proj1 (country_key_meta c) (Hkeys c (or_introl eq_refl)))
    as [meta ->].
  cbn [map]. rewrite IH by (intros c' Hc'; apply Hkeys; now right).
  f_equal. destruct regexFilter, loadBalance; reflexivity.
Qed.

Lemma surfaced_In (countryInfo : list CountryInfo) (minCount : Z)
  (b : CountryInfo) :
  In b (surfaced countryInfo minCount) <->
  In b countryInfo /\ (minCount <= Z.of_nat (List.length (nodes b)))%Z.
Proof.
  unfold surfaced. rewrite Array_sort_In, filter_In, Z.leb_le. reflexivity.
Qed.

Lemma surfaced_countries_key (names : list string) (minCount : Z) (c : string) :
  In c (surfaced_countries (buckets_of names) minCount) -> In c country_keys.
Proof.
  unfold surfaced_countries. rewrite in_map_iff. intros [b [<- Hb]].
  apply surfaced_In in Hb. now apply bucket_country_key with (names := names).
Qed.

Lemma nodesByCountry_buckets (names : list string) :
  Object_fromEntries
    (map (fun item => (country item, nodes item)) (buckets_of names))
  = map (fun item => (country item, nodes item)) (buckets_of names).
Proof.
  apply Object_fromEntries_NoDup. rewrite map_map. cbn [fst].
  apply buckets_of_NoDup.
Qed.

Lemma nodesByCountry_get (names : list string) (b : CountryInfo) :
  In b (buckets_of names) ->
  assoc_get (map (fun item => (country item, nodes item)) (buckets_of names))
            (country b)
  = Some (nodes b).
Proof.
  intros Hb. apply assoc_get_NoDup.
  - rewrite map_map. cbn [fst]. apply buckets_of_NoDup.
  - apply in_map_iff. now exists b.
Qed.

(** ** The groups [buildProxyGroups] writes out itself *)

Ltac fixed_groups_cases flags landing lowCostNodes :=
  unfold buildProxyGroups; cbn [map]; rewrite app_nil_r;
  destruct landing, (regexFilter flags),
    (0 <? List.length lowCostNodes)%nat;
  cbn [compact orb negb select_group].

Lemma fixed_group_names (flags : FeatureFlags) (landing : bool)
  (countries lowCostNodes landingNodes dP dPD dS dF : list string)
  (g : Group.t) :
  In g (buildProxyGroups flags landing countries [] lowCostNodes landingNodes
                         dP dPD dS dF) ->
  In (Group.name g) service_group_names.
Proof.
  fixed_groups_cases flags landing lowCostNodes; intros H;
    repeat (destruct H as [<-|H]; [apply In_existsb_eqb; reflexivity|]);
    destruct H.
Qed.

(** ** Names *)

Lemma append_inj_l (s1 s2 t : string) : s1 ++ t = s2 ++ t -> s1 = s2.
Proof.
  revert s2. induction s1 as [|a s1 IH]; intros [|b s2] E; cbn [append] in E.
  - reflexivity.
  - apply (f_equal String.length) in E. cbn [String.length] in E.
    rewrite append_length in E. lia.
  - apply (f_equal String.length) in E. cbn [String.length] in E.
    rewrite append_length in E. lia.
  - injection E as -> E. f_equal. now apply IH.
Qed.

Lemma country_group_name_inj (c1 c2 : string) :
  country_group_name c1 = country_group_name c2 -> c1 = c2.
Proof. apply append_inj_l. Qed.

Lemma country_group_name_all (c : string) :
  In c country_keys -> In (country_group_name c) all_country_group_names.
Proof. apply in_map. Qed.

Lemma service_names_not_country (x : string) :
  In x service_group_names -> ~ In x all_country_group_names.
Proof.
  assert (H : forallb (fun y => negb (existsb (String.eqb y)
                                              all_country_group_names))
                      service_group_names = true) by (vm_compute; reflexivity).
  rewrite forallb_forall in H. intros Hx Hc. specialize (H x Hx).
  apply In_existsb_eqb in Hc. rewrite Hc in H. discriminate.
Qed.

Lemma GLOBAL_not_service : ~ In "GLOBAL" service_group_names.
Proof. apply not_In_existsb_eqb. vm_compute. reflexivity. Qed.

Lemma GLOBAL_not_country : ~ In "GLOBAL" all_country_group_names.
Proof. apply not_In_existsb_eqb. vm_compute. reflexivity. Qed.

Lemma country_group_name_nonempty (c : string) : country_group_name c <> "".
Proof.
  intros E. apply (f_equal String.length) in E.
  unfold country_group_name in E. rewrite append_length in E.
  cbn in E. lia.
Qed.

(** ** Candidate lists, written out *)

Lemma filter_Boolean_app (l1 l2 : list (option string)) :
  filter_Boolean (l1 ++ l2) = (filter_Boolean l1 ++ filter_Boolean l2)%list.
Proof.
  induction l1 as [|[s|] l1 IH]; cbn [app filter_Boolean]; [reflexivity| |exact IH].
  destruct (String.eqb s ""); [exact IH | now rewrite IH].
Qed.

Lemma filter_Boolean_names (countries : list string) :
  filter_Boolean (map Some (map country_group_name countries))
  = map country_group_name countries.
Proof.
  induction countries as [|c countries IH]; [reflexivity|].
  cbn [map filter_Boolean].
  destruct (String.eqb (country_group_name c) "") eqn:E.
  - apply String.eqb_eq in E. now apply country_group_name_nonempty in E.
  - now rewrite IH.
Qed.

Lemma buildBaseLists_lists (flags : FeatureFlags) (landing : bool)
  (lowCostNodes countries : list string) :
  let names := map country_group_name countries in
  let lowCost := (0 <? List.length lowCostNodes)%nat || regexFilter flags in
  let lists := buildBaseLists flags landing lowCostNodes names in
  defaultSelector lists
  = ([PROXY_GROUPS.FALLBACK] ++ optional landing PROXY_GROUPS.LANDING ++ names
     ++ optional lowCost PROXY_GROUPS.LOW_COST
     ++ [PROXY_GROUPS.MANUAL; "DIRECT"])%list
  /\ defaultProxies lists
     = ([PROXY_GROUPS.SELECT] ++ names
        ++ optional lowCost PROXY_GROUPS.LOW_COST
        ++ [PROXY_GROUPS.MANUAL; PROXY_GROUPS.DIRECT])%list
  /\ defaultProxiesDirect lists
     = ([PROXY_GROUPS.DIRECT] ++ names
        ++ optional lowCost PROXY_GROUPS.LOW_COST
        ++ [PROXY_GROUPS.SELECT; PROXY_GROUPS.MANUAL])%list
  /\ defaultFallback lists
     = (optional landing PROXY_GROUPS.LANDING ++ names
        ++ optional lowCost PROXY_GROUPS.LOW_COST
        ++ [PROXY_GROUPS.MANUAL; "DIRECT"])%list.
Proof.
  cbv zeta. unfold buildBaseLists, buildList, flat.
  cbn [defaultSelector defaultProxies defaultProxiesDirect defaultFallback
       flat_map].
  repeat rewrite filter_Boolean_app. rewrite filter_Boolean_names.
  destruct landing, ((0 <? List.length lowCostNodes)%nat || regexFilter flags);
    repeat split; reflexivity.
Qed.

(** ** The groups of the output, part by part *)

Lemma groups_before_GLOBAL_parts (flags : FeatureFlags) (names : list string) :
  groups_before_GLOBAL flags names
  = (service_groups flags names ++ country_groups flags names)%list.
Proof.
  unfold groups_before_GLOBAL, service_groups, country_groups. cbv zeta.
  rewrite buildProxyGroups_app. reflexivity.
Qed.

Lemma main_groups_parts (flags : FeatureFlags) (config : Config.t) :
  let names := node_names config in
  proxy_groups (fst (main flags config initial_realm))
  = (service_groups flags names ++ country_groups flags names
     ++ [GLOBAL_group (map Group.name (groups_before_GLOBAL flags names))])%list.
Proof.
  cbv zeta. rewrite main_proxy_groups, groups_before_GLOBAL_parts.
  now rewrite <- app_assoc.
Qed.

Lemma service_group_name (flags : FeatureFlags) (names : list string)
  (g : Group.t) :
  In g (service_groups flags names) ->
  In (Group.name g) service_group_names.
Proof. unfold service_groups. cbv zeta. apply fixed_group_names. Qed.

Lemma country_groups_names (flags : FeatureFlags) (names : list string) :
  map Group.name (country_groups flags names)
  = map country_group_name
        (surfaced_countries (buckets_of names) (countryThreshold flags)).
Proof.
  unfold country_groups, buildCountryProxyGroups.
  apply country_loop_names. intros c. apply surfaced_countries_key.
Qed.

Lemma country_group_bucket (flags : FeatureFlags) (names : list string)
  (g : Group.t) :
  In g (country_groups flags names) ->
  exists b,
    In b (surfaced (buckets_of names) (countryThreshold flags))
    /\ Group.name g = country_group_name (country b)
    /\ Group.type g = (if loadBalance flags then load_balance else url_test)
    /\ Group.proxies g = if regexFilter flags then None else Some (nodes b).
Proof.
  unfold country_groups, buildCountryProxyGroups. intros Hg.
  apply country_loop_In in Hg.
  destruct Hg as [c [Hc [_ [Hname [Htype Hproxies]]]]].
  unfold surfaced_countries in Hc. apply in_map_iff in Hc.
  destruct Hc as [b [<- Hb]]. exists b.
  split; [exact Hb|]. split; [exact Hname|]. split; [exact Htype|].
  rewrite Hproxies. destruct (regexFilter flags); [reflexivity|].
  cbn [negb]. rewrite nodesByCountry_buckets, nodesByCountry_get;
    [reflexivity|].
  now apply surfaced_In in Hb.
Qed.

Lemma country_group_is_country (flags : FeatureFlags) (names : list string)
  (g : Group.t) :
  In g (country_groups flags names) -> is_country_group g = true.
Proof.
  intros Hg. apply country_group_bucket in Hg.
  destruct Hg as [b [Hb [Hname _]]]. unfold is_country_group.
  apply In_existsb_eqb. rewrite Hname. apply country_group_name_all.
  apply surfaced_In in Hb. now apply bucket_country_key with (names := names).
Qed.

Lemma service_group_not_country (flags : FeatureFlags) (names : list string)
  (g : Group.t) :
  In g (service_groups flags names) -> is_country_group g = false.
Proof.
  intros Hg. apply service_group_name in Hg.
  unfold is_country_group. destruct (existsb _ _) eqn:E; [|reflexivity].
  apply In_existsb_eqb in E. now apply service_names_not_country in Hg.
Qed.

Lemma GLOBAL_not_country_group (l : list string) :
  is_country_group (GLOBAL_group l) = false.
Proof. reflexivity. Qed.

Lemma filter_all {A : Type} (p : A -> bool) (l : list A) :
  (forall x, In x l -> p x = true) -> List.filter p l = l.
Proof.
  induction l as [|x l IH]; intros H; cbn [List.filter]; [reflexivity|].
  rewrite (H x (or_introl eq_refl)). f_equal. apply IH.
  intros y Hy. apply H. now right.
Qed.

Lemma filter_none {A : Type} (p : A -> bool) (l : list A) :
  (forall x, In x l -> p x = false) -> List.filter p l = [].
Proof.
  induction l as [|x l IH]; intros H; cbn [List.filter]; [reflexivity|].
  rewrite (H x (or_introl eq_refl)). apply IH.
  intros y Hy. apply H. now right.
Qed.

Lemma output_country_groups (flags : FeatureFlags) (config : Config.t) :
  List.filter is_country_group
              (proxy_groups (fst (main flags config initial_realm)))
  = country_groups flags (node_names config).
Proof.
  rewrite main_groups_parts. rewrite !filter_app.
  rewrite (filter_none _ (service_groups _ _))
    by apply service_group_not_country.
  rewrite (filter_all _ (country_groups _ _))
    by apply country_group_is_country.
  cbn [List.filter]. rewrite GLOBAL_not_country_group.
  now rewrite app_nil_r.
Qed.

Lemma emitted_countries_surfaced (flags : FeatureFlags) (config : Config.t) :
  emitted_countries flags config
  = surfaced_countries (buckets_of (node_names config))
                       (countryThreshold flags).
Proof.
  unfold emitted_countries.
  now rewrite output_country_groups, country_groups_names,
    stripNodeSuffix_names.
Qed.

Lemma existsb_filter_length {A : Type} (p : A -> bool) (l : list A) :
  (0 <? List.length (List.filter p l))%nat = existsb p l.
Proof.
  induction l as [|x l IH]; [reflexivity|].
  cbn [List.filter existsb]. destruct (p x); [reflexivity | exact IH].
Qed.

(** The checks below run over the groups [buildProxyGroups] writes out,
    whose names and types are constants of the script. *)
Lemma fixed_low_cost_emitted (flags : FeatureFlags) (landing : bool)
  (countries lowCostNodes landingNodes dP dPD dS dF : list string) :
  existsb (fun g => String.eqb (Group.name g) PROXY_GROUPS.LOW_COST)
          (buildProxyGroups flags landing countries [] lowCostNodes
                            landingNodes dP dPD dS dF)
  = (0 <? List.length lowCostNodes)%nat || regexFilter flags.
Proof.
  fixed_groups_cases flags landing lowCostNodes; reflexivity.
Qed.

Lemma fixed_low_cost_type (flags : FeatureFlags) (landing : bool)
  (countries lowCostNodes landingNodes dP dPD dS dF : list string) :
  forallb (fun g => negb (String.eqb (Group.name g) PROXY_GROUPS.LOW_COST)
                    || match Group.type g with url_test => true | _ => false end)
          (buildProxyGroups flags landing countries [] lowCostNodes
                            landingNodes dP dPD dS dF)
  = true.
Proof.
  fixed_groups_cases flags landing lowCostNodes; reflexivity.
Qed.

Lemma low_cost_present_iff (flags : FeatureFlags) (names : list string) :
  (0 <? List.length (List.filter low_cost_match names))%nat
  || regexFilter flags = true
  <-> (exists n, In n names /\ low_cost_match n = true)
      \/ regexFilter flags = true.
Proof.
  rewrite existsb_filter_length, orb_true_iff, existsb_exists. reflexivity.
Qed.

Lemma LOW_COST_not_country (countries : list string) :
  (forall c, In c countries -> In c country_keys) ->
  ~ In PROXY_GROUPS.LOW_COST (map country_group_name countries).
Proof.
  intros Hkeys Hin. apply in_map_iff in Hin. destruct Hin as [c [E Hc]].
  apply (service_names_not_country PROXY_GROUPS.LOW_COST).
  - apply In_existsb_eqb. reflexivity.
  - rewrite <- E. apply country_group_name_all. now apply Hkeys.
Qed.

Lemma In_optional (present : bool) (x y : string) :
  In x (optional present y) <-> present = true /\ x = y.
Proof.
  destruct present; cbn; intuition congruence.
Qed.

Lemma service_low_cost_emitted (flags : FeatureFlags) (names : list string) :
  existsb (fun g => String.eqb (Group.name g) PROXY_GROUPS.LOW_COST)
          (service_groups flags names)
  = (0 <? List.length (List.filter low_cost_match names))%nat
    || regexFilter flags.
Proof.
  unfold service_groups. cbv zeta. apply fixed_low_cost_emitted.
Qed.

Lemma service_low_cost_type (flags : FeatureFlags) (names : list string)
  (g : Group.t) :
  In g (service_groups flags names) ->
  Group.name g = PROXY_GROUPS.LOW_COST -> Group.type g = url_test.
Proof.
  unfold service_groups. cbv zeta. intros Hg Hname.
  pose proof (fixed_low_cost_type flags (landing flags)
                (surfaced_countries (buckets_of names) (countryThreshold flags))
                (List.filter low_cost_match names)
                (if landing flags then List.filter landing_match names else [])
                (defaultProxies (base_lists_of flags names))
                (defaultProxiesDirect (base_lists_of flags names))
                (defaultSelector (base_lists_of flags names))
                (defaultFallback (base_lists_of flags names))) as H.
  rewrite forallb_forall in H. specialize (H g Hg).
  rewrite Hname, String.eqb_refl in H. cbn [negb orb] in H.
  now destruct (Group.type g).
Qed.

Lemma names_incl_all (names : list string) (minCount : Z) :
  incl (map country_group_name (surfaced_countries (buckets_of names) minCount))
       all_country_group_names.
Proof.
  intros x Hx. apply in_map_iff in Hx. destruct Hx as [c [<- Hc]].
  apply country_group_name_all. now apply surfaced_countries_key in Hc.
Qed.

Lemma optional_incl (present : bool) (x : string) (l : list string) :
  In x l -> incl (optional present x) l.
Proof.
  intros Hx y Hy. apply In_optional in Hy. destruct Hy as [_ ->]. exact Hx.
Qed.

Ltac incl_parts :=
  repeat first
    [ apply incl_app
    | apply incl_appr; assumption
    | apply optional_incl; apply in_or_app; left; cbn; tauto
    | (intros ? ?; apply in_or_app; left; cbn in *; tauto) ].

Lemma base_lists_incl (flags : FeatureFlags) (names : list string) :
  let lists := base_lists_of flags names in
  incl (defaultSelector lists) (selector_constants ++ all_country_group_names)
  /\ incl (defaultProxies lists) (proxies_constants ++ all_country_group_names)
  /\ incl (defaultProxiesDirect lists)
          (proxies_constants ++ all_country_group_names)
  /\ incl (defaultFallback lists)
          (fallback_constants ++ all_country_group_names).
Proof.
  cbv zeta.
  destruct (buildBaseLists_lists flags (landing flags)
              (List.filter low_cost_match names)
              (surfaced_countries (buckets_of names) (countryThreshold flags)))
    as [HS [HP [HD HF]]].
  fold (base_lists_of flags names) in HS, HP, HD, HF.
  rewrite HS, HP, HD, HF.
  pose proof (names_incl_all names (countryThreshold flags)) as Hn.
  repeat split; incl_parts.
Qed.

Ltac self_listing_case HS HP HD HF Hp Hin :=
  cbn [Group.name Group.proxies Group.with_proxies Group.with_probe
       Group.with_url Group.with_include_all Group.with_filter
       Group.with_exclude_filter Group.base] in Hp, Hin;
  first [ discriminate Hp | apply Some_inj in Hp; subst ];
  repeat match type of Hin with
         | In _ (if ?c then _ else _) => destruct c
         end;
  try (apply filter_In in Hin; destruct Hin as [Hin _]);
  first
    [ apply HS in Hin; apply In_existsb_eqb in Hin; vm_compute in Hin;
      discriminate Hin
    | apply HP in Hin; apply In_existsb_eqb in Hin; vm_compute in Hin;
      discriminate Hin
    | apply HD in Hin; apply In_existsb_eqb in Hin; vm_compute in Hin;
      discriminate Hin
    | apply HF in Hin; apply In_existsb_eqb in Hin; vm_compute in Hin;
      discriminate Hin
    | apply In_existsb_eqb in Hin; vm_compute in Hin; discriminate Hin
    | split; [reflexivity | left; split; [reflexivity | exact Hin]]
    | split; [reflexivity | right; split; [reflexivity | exact Hin]] ].

(** Among the groups [buildProxyGroups] writes out, only the two that
    enumerate node names can list their own name, and only without
    [regexFilter]. *)
Lemma fixed_groups_self (flags : FeatureFlags) (landing : bool)
  (countries lowCostNodes landingNodes dP dPD dS dF : list string)
  (g : Group.t) (l : list string) :
  incl dS (selector_constants ++ all_country_group_names) ->
  incl dP (proxies_constants ++ all_country_group_names) ->
  incl dPD (proxies_constants ++ all_country_group_names) ->
  incl dF (fallback_constants ++ all_country_group_names) ->
  In g (buildProxyGroups flags landing countries [] lowCostNodes landingNodes
                         dP dPD dS dF) ->
  Group.proxies g = Some l ->
  In (Group.name g) l ->
  regexFilter flags = false
  /\ ((Group.name g = PROXY_GROUPS.LANDING
       /\ In PROXY_GROUPS.LANDING landingNodes)
      \/ (Group.name g = PROXY_GROUPS.LOW_COST
          /\ In PROXY_GROUPS.LOW_COST lowCostNodes)).
Proof.
  intros HS HP HD HF.
  fixed_groups_cases flags landing lowCostNodes; intros H Hp Hin;
    repeat (destruct H as [<-|H]; [self_listing_case HS HP HD HF Hp Hin|]);
    destruct H.
Qed.

Lemma service_groups_self (flags : FeatureFlags) (names : list string)
  (g : Group.t) (l : list string) :
  In g (service_groups flags names) ->
  Group.proxies g = Some l ->
  In (Group.name g) l ->
  regexFilter flags = false
  /\ In (Group.name g) names
  /\ (Group.name g = PROXY_GROUPS.LANDING
      \/ Group.name g = PROXY_GROUPS.LOW_COST).
Proof.
  unfold service_groups. cbv zeta. intros Hg Hp Hin.
  destruct (base_lists_incl flags names) as [HS [HP [HD HF]]].
  destruct (fixed_groups_self _ _ _ _ _ _ _ _ _ g l HS HP HD HF Hg Hp Hin)
    as [Hr [[Hn Hl] | [Hn Hl]]].
  - split; [exact Hr|]. rewrite Hn. split; [|now left].
    destruct (landing flags); [|destruct Hl].
    apply filter_In in Hl. tauto.
  - split; [exact Hr|]. rewrite Hn. split; [|now right].
    apply filter_In in Hl. tauto.
Qed.

(** * The claims *)

(** ** Determinism *)

(** C1. Invoking [main] a second time on the same flags and the same
    config, in the module state the first invocation has left behind,
    returns the same result as the first; the invocation leaves the module
    state (the [lastIndex] of the two shared RegExp objects) as it found
    it. *)
Theorem main_twice_same_output (flags : FeatureFlags) (config : Config.t) :
  let first := main flags config initial_realm in
  let second := main flags config (snd first) in
  fst second = fst first /\ snd second = snd first /\ snd first = initial_realm.
Proof.
  cbv zeta. rewrite (main_run flags config). cbn [fst snd].
  rewrite (main_run flags config). cbn [fst snd]. auto.
Qed.

(** ** The catch-all group *)

(** C2. The output of [main] ends with the group GLOBAL, and the candidate
    list of GLOBAL is the list of the names of all groups before it, in
    their order. *)
Theorem GLOBAL_lists_all_groups_before_it (flags : FeatureFlags)
  (config : Config.t) :
  exists before last,
    proxy_groups (fst (main flags config initial_realm))
    = (before ++ [last])%list
    /\ Group.name last = "GLOBAL"
    /\ Group.proxies last = Some (map Group.name before).
Proof.
  rewrite main_proxy_groups.
  exists (groups_before_GLOBAL flags (node_names config)).
  eexists. split; [reflexivity|]. split; reflexivity.
Qed.

(** ** Order of the country groups *)

(** C3, as the code has it. The country groups of the output are those of
    the buckets that reach the threshold, in a weight-ascending order in
    which a country without weight counts as [Infinity] and so stands
    after every weighted one; countries of equal weight keep the order of
    their buckets, and the buckets stand in the order in which the input
    first presents a node of each country. *)
Theorem country_groups_by_weight_then_input_order (flags : FeatureFlags)
  (config : Config.t) :
  let out := proxy_groups (fst (main flags config initial_realm)) in
  let buckets := fst (parseCountries config initial_realm) in
  let reached :=
    List.filter
      (fun b => (countryThreshold flags <=? Z.of_nat (List.length (nodes b)))%Z)
      buckets in
  exists ordered : list CountryInfo,
    map Group.name (List.filter is_country_group out)
    = map (fun b => country_group_name (country b)) ordered
    /\ StronglySorted weight_ordered ordered
    /\ (forall w, List.filter (has_weight w) ordered
                  = List.filter (has_weight w) reached)
    /\ map country buckets
       = first_occurrences (compact (map classify (node_names config))).
Proof.
  cbv zeta. rewrite output_country_groups, country_groups_names.
  rewrite parseCountries_run. cbn [fst].
  exists (surfaced (buckets_of (node_names config)) (countryThreshold flags)).
  split; [|split; [|split]].
  - unfold surfaced_countries. now rewrite map_map.
  - apply Array_sort_by_weight_sorted.
  - intros w. apply Array_sort_stable.
  - apply buckets_of_countries.
Qed.

(** The weight-ordering scenario: HK (10), TW (20) and KR (no weight) come
    out as HK, TW, KR for every order of the three nodes. *)
Example weight_scenario :
  Forall (fun names => emitted_countries default_flags (config_of names)
                       = ["香港"; "台湾"; "韩国"])
         [["HK 1"; "TW 1"; "KR 1"]; ["HK 1"; "KR 1"; "TW 1"];
          ["TW 1"; "HK 1"; "KR 1"]; ["TW 1"; "KR 1"; "HK 1"];
          ["KR 1"; "HK 1"; "TW 1"]; ["KR 1"; "TW 1"; "HK 1"]].
Proof. repeat constructor. Qed.

(** C3, as stated, fails: Macao is declared before Korea and neither has a
    weight, yet Korea's group comes first when a Korean node comes first in
    the input; the order of tied countries follows the input. *)
Lemma tied_countries_follow_input_order :
  emitted_countries default_flags (config_of ["KR 1"; "MO 1"])
  = ["韩国"; "澳门"]
  /\ emitted_countries default_flags (config_of ["MO 1"; "KR 1"])
     = ["澳门"; "韩国"]
  /\ weight_or_Infinity "韩国" = weight_or_Infinity "澳门"
  /\ declared_before "澳门" "韩国"
  /\ ~ tied_in_declaration_order
         (emitted_countries default_flags (config_of ["KR 1"; "MO 1"])).
Proof.
  split; [vm_compute; reflexivity|]. split; [vm_compute; reflexivity|].
  split; [vm_compute; reflexivity|]. split; [vm_compute; lia|].
  intros H.
  assert (E : emitted_countries default_flags (config_of ["KR 1"; "MO 1"])
              = ["韩国"; "澳门"]) by (vm_compute; reflexivity).
  rewrite E in H.
  specialize (H 0 1 "韩国" "澳门" (Nat.lt_0_1) eq_refl eq_refl eq_refl).
  vm_compute in H. lia.
Qed.

(** ** Self-reference *)

(** C4, as the code has it. A group of the output does not list its own
    name among its candidates, unless it enumerates node names and a node
    bears the group's name: the claim holds for a group whose name no
    input node bears, for every group when [regexFilter] is on, and for
    every group other than the landing, low-cost and country groups
    (so for the Selector, the Fallback, the Front-Proxy, the service groups
    and GLOBAL) on every input. *)
Theorem no_group_lists_itself (flags : FeatureFlags) (config : Config.t)
  (g : Group.t) (l : list string) :
  In g (proxy_groups (fst (main flags config initial_realm))) ->
  Group.proxies g = Some l ->
  ~ In (Group.name g) (node_names config)
  \/ regexFilter flags = true
  \/ (Group.name g <> PROXY_GROUPS.LANDING
      /\ Group.name g <> PROXY_GROUPS.LOW_COST
      /\ is_country_group g = false) ->
  ~ In (Group.name g) l.
Proof.
  rewrite main_groups_parts. cbv zeta. rewrite !in_app_iff.
  intros Hg Hp Hcond Hin.
  assert (Hself : regexFilter flags = false
                  /\ In (Group.name g) (node_names config)
                  /\ (Group.name g = PROXY_GROUPS.LANDING
                      \/ Group.name g = PROXY_GROUPS.LOW_COST
                      \/ is_country_group g = true)).
  { destruct Hg as [Hg | [Hg | [<- | []]]].
    - destruct (service_groups_self _ _ _ _ Hg Hp Hin) as [Hr [Hn Hc]].
      tauto.
    - pose proof (country_group_is_country _ _ _ Hg) as Hc.
      apply country_group_bucket in Hg.
      destruct Hg as [b [Hb [Hname [_ Hproxies]]]].
      rewrite Hp in Hproxies.
      destruct (regexFilter flags); [discriminate|].
      apply Some_inj in Hproxies. subst l. apply surfaced_In in Hb.
      destruct Hb as [Hb _].
      destruct (bucket_node_classified _ _ _ Hb Hin) as [Hn _]. tauto.
    - exfalso. unfold GLOBAL_group in Hp, Hin.
      cbn [Group.name Group.proxies Group.with_proxies Group.with_include_all
           Group.base] in Hp, Hin.
      apply Some_inj in Hp. subst l.
      rewrite groups_before_GLOBAL_parts, map_app, in_app_iff in Hin.
      destruct Hin as [Hin | Hin]; apply in_map_iff in Hin;
        destruct Hin as [g' [Hname Hg']].
      + apply service_group_name in Hg'. rewrite Hname in Hg'.
        now apply GLOBAL_not_service.
      + apply country_group_is_country in Hg'.
        unfold is_country_group in Hg'. apply In_existsb_eqb in Hg'.
        rewrite Hname in Hg'. now apply GLOBAL_not_country. }
  destruct Hself as [Hr [Hn Hc]].
  destruct Hcond as [H | [H | [H1 [H2 H3]]]]; [tauto | congruence |].
  destruct Hc as [Hc | [Hc | Hc]]; congruence.
Qed.

Lemma no_group_lists_itself_witness :
  let config := config_of ["香港节点"] in
  let out := proxy_groups (fst (main default_flags config initial_realm)) in
  let selector := nth 0 out (GLOBAL_group []) in
  let l := ["故障转移"; "香港节点"; "手动选择"; "DIRECT"] in
  In selector out /\ Group.proxies selector = Some l
  /\ ~ In (Group.name selector) l.
Proof.
  cbv zeta.
  match goal with
  | |- In ?g ?out /\ _ =>
      assert (Hin : In g out) by (apply nth_In; vm_compute; lia)
  end.
  split; [exact Hin|]. split; [vm_compute; reflexivity|].
  apply (no_group_lists_itself _ _ _ _ Hin).
  - vm_compute. reflexivity.
  - right. right. split; [|split].
    + vm_compute. discriminate.
    + vm_compute. discriminate.
    + vm_compute. reflexivity.
Defined.

(** C4, as stated, fails: a node named like its country's group is a
    candidate of that group. *)
Lemma country_group_lists_itself :
  let out := groups_of default_flags ["香港节点"] in
  exists g l,
    In g out /\ Group.proxies g = Some l /\ In (Group.name g) l.
Proof.
  cbv zeta.
  exists (nth 23 (groups_of default_flags ["香港节点"]) (GLOBAL_group [])).
  exists ["香港节点"].
  split; [apply nth_In; vm_compute; lia|].
  split; vm_compute; auto.
Qed.

(** The same happens to the landing and the low-cost group. *)
Example landing_and_low_cost_list_themselves :
  let flags := mkFlags false true false false false false false false 0 in
  map (fun g => (Group.name g, Group.proxies g))
      (List.filter (fun g => String.eqb (Group.name g) PROXY_GROUPS.LANDING
                             || String.eqb (Group.name g) PROXY_GROUPS.LOW_COST)
                   (groups_of flags ["落地节点"; "低倍率节点"]))
  = [("落地节点", Some ["落地节点"]); ("低倍率节点", Some ["低倍率节点"])].
Proof. vm_compute. reflexivity. Qed.

(** ** Disjoint buckets *)

(** C5. A node name that occurs in the bucket at position [i] and in the
    bucket at position [j] of the classifier's result forces [i = j]: the
    buckets are pairwise disjoint and a name is in at most one.  Such a name
    matches neither the landing nor the low-cost pattern, and is in neither
    the landing nor the low-cost list. *)
Theorem buckets_partition (config : Config.t) (i j : nat)
  (bi bj : CountryInfo) (n : string) :
  let buckets := fst (parseCountries config initial_realm) in
  nth_error buckets i = Some bi ->
  nth_error buckets j = Some bj ->
  In n (nodes bi) -> In n (nodes bj) ->
  i = j
  /\ landing_match n = false /\ low_cost_match n = false
  /\ ~ In n (fst (parseLandingNodes config initial_realm))
  /\ ~ In n (fst (parseLowCost config initial_realm)).
Proof.
  cbv zeta. rewrite parseCountries_run, parseLandingNodes_run,
    parseLowCost_run. cbn [fst]. intros Hi Hj Hni Hnj.
  destruct (bucket_node_classified _ _ _ (nth_error_In _ _ Hi) Hni)
    as [_ Hci].
  destruct (bucket_node_classified _ _ _ (nth_error_In _ _ Hj) Hnj)
    as [_ Hcj].
  destruct (classify_unmatched _ _ Hci) as [Hl Hc].
  split; [|split; [exact Hl | split; [exact Hc | split]]].
  - pose proof (buckets_of_NoDup (node_names config)) as Hnd.
    rewrite NoDup_nth_error in Hnd. apply Hnd.
    + rewrite length_map. apply nth_error_Some. congruence.
    + rewrite !nth_error_map, Hi, Hj. cbn [option_map]. congruence.
  - rewrite filter_In. intros [_ H]. congruence.
  - rewrite filter_In. intros [_ H]. congruence.
Qed.

Lemma buckets_partition_witness :
  let config := config_of ["HK-1"; "US-1"; "HK-2"] in
  let buckets := fst (parseCountries config initial_realm) in
  let hk := mkInfo "香港" ["HK-1"; "HK-2"] in
  nth_error buckets 0 = Some hk
  /\ In "HK-2" (nodes hk)
  /\ 0 = 0
  /\ landing_match "HK-2" = false /\ low_cost_match "HK-2" = false
  /\ ~ In "HK-2" (fst (parseLandingNodes config initial_realm))
  /\ ~ In "HK-2" (fst (parseLowCost config initial_realm)).
Proof.
  cbv zeta.
  assert (H0 : nth_error
                 (fst (parseCountries (config_of ["HK-1"; "US-1"; "HK-2"])
                                      initial_realm)) 0
               = Some (mkInfo "香港" ["HK-1"; "HK-2"]))
    by (vm_compute; reflexivity).
  assert (Hn : In "HK-2" (nodes (mkInfo "香港" ["HK-1"; "HK-2"])))
    by (cbn; auto).
  split; [exact H0|]. split; [exact Hn|].
  exact (buckets_partition _ 0 0 _ _ "HK-2" H0 H0 Hn Hn).
Defined.

(** ** First match *)

(** C6. A node whose name matches neither the landing nor the low-cost
    pattern is counted for the country [c] declared earliest among those
    whose pattern matches, also when later entries match too: it is in the
    bucket of [c] and in no other bucket, and a repeated run gives the same
    buckets. *)
Theorem first_declared_country_wins (config : Config.t) (proxy : Proxy.t)
  (pre post : list (string * CountryMeta)) (c : string) (meta : CountryMeta) :
  let buckets := fst (parseCountries config initial_realm) in
  let name := Proxy.name proxy in
  In proxy (proxies_or_empty config) ->
  landing_match name = false ->
  low_cost_match name = false ->
  countriesMeta = (pre ++ (c, meta) :: post)%list ->
  pattern_occurs meta name = true ->
  (forall e, In e pre -> pattern_occurs (snd e) name = false) ->
  (exists b, In b buckets /\ country b = c /\ In name (nodes b))
  /\ (forall b, In b buckets -> In name (nodes b) -> country b = c)
  /\ fst (parseCountries config (snd (parseCountries config initial_realm)))
     = buckets.
Proof.
  cbv zeta. rewrite parseCountries_run. cbn [fst snd].
  rewrite parseCountries_run. cbn [fst].
  intros Hin Hl Hc Htable Hocc Hpre.
  assert (Hclass : classify (Proxy.name proxy) = Some c).
  { unfold classify. rewrite Hl, Hc, first_hit_table, Htable.
    rewrite (find_first_hit _ pre post (c, meta)); auto. }
  split; [|split; [|reflexivity]].
  - apply classified_in_bucket; [|exact Hclass].
    unfold node_names. now apply in_map.
  - intros b Hb Hn.
    destruct (bucket_node_classified _ _ _ Hb Hn) as [_ H]. congruence.
Qed.

Lemma first_declared_country_wins_witness :
  let config := config_of ["TW-US 01"] in
  let buckets := fst (parseCountries config initial_realm) in
  let pre := firstn 2 countriesMeta in
  let entry := nth 2 countriesMeta ("", mkMeta None "" "") in
  let us := nth 6 countriesMeta ("", mkMeta None "" "") in
  fst entry = "台湾" /\ fst us = "美国"
  /\ pattern_occurs (snd entry) "TW-US 01" = true
  /\ pattern_occurs (snd us) "TW-US 01" = true
  /\ (forall e, In e pre -> pattern_occurs (snd e) "TW-US 01" = false)
  /\ (exists b, In b buckets /\ country b = "台湾" /\ In "TW-US 01" (nodes b))
  /\ (forall b, In b buckets -> In "TW-US 01" (nodes b) -> country b = "台湾")
  /\ fst (parseCountries config (snd (parseCountries config initial_realm)))
     = buckets.
Proof.
  cbv zeta.
  assert (Hpre : forall e, In e (firstn 2 countriesMeta) ->
                           pattern_occurs (snd e) "TW-US 01" = false).
  { intros e [<- | [<- | []]]; vm_compute; reflexivity. }
  split; [reflexivity|]. split; [reflexivity|].
  split; [vm_compute; reflexivity|]. split; [vm_compute; reflexivity|].
  split; [exact Hpre|].
  apply (first_declared_country_wins (config_of ["TW-US 01"])
           (Proxy.mk "TW-US 01") (firstn 2 countriesMeta)
           (skipn 3 countriesMeta) "台湾"
           (snd (nth 2 countriesMeta ("", mkMeta None "" "")))).
  - cbn. auto.
  - vm_compute. reflexivity.
  - vm_compute. reflexivity.
  - vm_compute. reflexivity.
  - vm_compute. reflexivity.
  - exact Hpre.
Defined.

(** ** Threshold *)

(** C7. For every country of the table, the country's group is in the
    output of [main] exactly when the classifier has produced a bucket for
    the country and the bucket holds at least [countryThreshold] names.
    (A country without any node has no bucket, see [bucket_nonempty], and
    no group; the statement holds for negative thresholds too.) *)
Theorem threshold_decides_country_group (flags : FeatureFlags)
  (config : Config.t) (c : string) :
  In c country_keys ->
  (exists g, In g (proxy_groups (fst (main flags config initial_realm)))
             /\ Group.name g = country_group_name c)
  <-> (exists b, In b (fst (parseCountries config initial_realm))
                 /\ country b = c
                 /\ (countryThreshold flags
                     <= Z.of_nat (List.length (nodes b)))%Z).
Proof.
  rewrite parseCountries_run. cbn [fst]. intros Hc.
  rewrite main_groups_parts. cbv zeta.
  pose proof (country_group_name_all _ Hc) as Hall.
  split.
  - intros [g [Hg Hname]]. rewrite !in_app_iff in Hg.
    destruct Hg as [Hg | [Hg | [<- | []]]].
    + apply service_group_name in Hg. rewrite Hname in Hg.
      now apply service_names_not_country in Hg.
    + apply country_group_bucket in Hg.
      destruct Hg as [b [Hb [Hname' _]]]. apply surfaced_In in Hb.
      destruct Hb as [Hin Hthr]. rewrite Hname in Hname'.
      apply country_group_name_inj in Hname'. exists b. auto.
    + unfold GLOBAL_group in Hname.
      cbn [Group.name Group.with_proxies Group.with_include_all Group.base]
        in Hname.
      rewrite <- Hname in Hall. now apply GLOBAL_not_country in Hall.
  - intros [b [Hb [<- Hthr]]].
    assert (Hn : In (country_group_name (country b))
                    (map Group.name
                         (country_groups flags (node_names config)))).
    { rewrite country_groups_names. apply in_map.
      unfold surfaced_countries. apply in_map. now apply surfaced_In. }
    apply in_map_iff in Hn. destruct Hn as [g [Hname Hg]].
    exists g. split; [|exact Hname]. rewrite !in_app_iff. auto.
Qed.

Lemma threshold_decides_country_group_witness :
  let flags := mkFlags false false false false false false false false 2 in
  let config := config_of ["HK-1"; "HK-2"; "HK-3"; "US-1"] in
  (In "香港" country_keys
   /\ ((exists g, In g (proxy_groups (fst (main flags config initial_realm)))
                  /\ Group.name g = country_group_name "香港")
       <-> (exists b, In b (fst (parseCountries config initial_realm))
                      /\ country b = "香港"
                      /\ (2 <= Z.of_nat (List.length (nodes b)))%Z)))
  /\ (In "美国" country_keys
      /\ ((exists g, In g (proxy_groups (fst (main flags config initial_realm)))
                     /\ Group.name g = country_group_name "美国")
          <-> (exists b, In b (fst (parseCountries config initial_realm))
                         /\ country b = "美国"
                         /\ (2 <= Z.of_nat (List.length (nodes b)))%Z))).
Proof.
  cbv zeta.
  assert (HK : In "香港" country_keys) by (apply In_existsb_eqb; reflexivity).
  assert (US : In "美国" country_keys) by (apply In_existsb_eqb; reflexivity).
  split; (split; [assumption|]).
  - exact (threshold_decides_country_group
             (mkFlags false false false false false false false false 2)
             (config_of ["HK-1"; "HK-2"; "HK-3"; "US-1"]) "香港" HK).
  - exact (threshold_decides_country_group
             (mkFlags false false false false false false false false 2)
             (config_of ["HK-1"; "HK-2"; "HK-3"; "US-1"]) "美国" US).
Defined.

(** C7, as stated, fails for a country without nodes: at the default
    threshold 0 the size 0 of its bucket reaches the threshold, and yet
    the country has no group, because a bucket comes into being with its
    first node only. *)
Lemma country_without_nodes_has_no_group :
  let config := config_of ["US-1"] in
  In "香港" country_keys
  /\ countryThreshold default_flags = 0%Z
  /\ bucket_size (fst (parseCountries config initial_realm)) "香港" = 0%Z
  /\ map Group.name
         (List.filter is_country_group (groups_of default_flags ["US-1"]))
     = ["美国节点"]
  /\ ~ group_iff_bucket_size default_flags config "香港".
Proof.
  cbv zeta. split; [apply In_existsb_eqb; reflexivity|].
  split; [reflexivity|]. split; [vm_compute; reflexivity|].
  split; [vm_compute; reflexivity|].
  unfold group_iff_bucket_size. intros [_ H].
  assert (Hsize : (countryThreshold default_flags
                   <= bucket_size
                        (fst (parseCountries (config_of ["US-1"])
                                             initial_realm)) "香港")%Z)
    by (vm_compute; discriminate).
  destruct (H Hsize) as [g [Hg Hname]].
  assert (Hnone : existsb (fun g => String.eqb (Group.name g)
                                               (country_group_name "香港"))
                          (proxy_groups
                             (fst (main default_flags (config_of ["US-1"])
                                        initial_realm)))
                  = false) by (vm_compute; reflexivity).
  assert (Hsome : existsb (fun g => String.eqb (Group.name g)
                                               (country_group_name "香港"))
                          (proxy_groups
                             (fst (main default_flags (config_of ["US-1"])
                                        initial_realm)))
                  = true).
  { apply existsb_exists. exists g. split; [exact Hg|].
    now apply String.eqb_eq. }
  congruence.
Qed.

(** The scenario of the threshold property: with threshold 2 and buckets
    of sizes 3 (HK) and 1 (US), the only country group is the one of HK,
    with its three nodes as candidates, and the Selector lists it. *)
Example threshold_scenario :
  let flags := mkFlags false false false false false false false false 2 in
  let out := groups_of flags ["HK-1"; "HK-2"; "HK-3"; "US-1"] in
  map (fun g => (Group.name g, Group.proxies g))
      (List.filter is_country_group out)
  = [("香港节点", Some ["HK-1"; "HK-2"; "HK-3"])]
  /\ option_map Group.proxies (hd_error out)
     = Some (Some ["故障转移"; "香港节点"; "手动选择"; "DIRECT"]).
Proof. vm_compute. auto. Qed.

(** ** The low-cost entry *)

(** C8. The low-cost group is in the output of [main], and the low-cost
    entry is in each of the four candidate lists of [buildBaseLists],
    exactly when some node name matches the low-cost pattern or
    [regexFilter] is on.  The lists are the candidates of the Selector,
    the Fallback and the generic service groups of the output. *)
Theorem low_cost_listed_and_emitted (flags : FeatureFlags)
  (config : Config.t) :
  let names := node_names config in
  let out := proxy_groups (fst (main flags config initial_realm)) in
  let lists := base_lists_of flags names in
  let present := (exists n, In n names /\ low_cost_match n = true)
                 \/ regexFilter flags = true in
  ((exists g, In g out /\ Group.name g = PROXY_GROUPS.LOW_COST) <-> present)
  /\ (In PROXY_GROUPS.LOW_COST (defaultSelector lists) <-> present)
  /\ (In PROXY_GROUPS.LOW_COST (defaultProxies lists) <-> present)
  /\ (In PROXY_GROUPS.LOW_COST (defaultProxiesDirect lists) <-> present)
  /\ (In PROXY_GROUPS.LOW_COST (defaultFallback lists) <-> present)
  /\ (exists g, In g out /\ Group.name g = PROXY_GROUPS.SELECT
                /\ Group.proxies g = Some (defaultSelector lists))
  /\ (exists g, In g out /\ Group.name g = PROXY_GROUPS.FALLBACK
                /\ Group.proxies g = Some (defaultFallback lists))
  /\ (exists g, In g out /\ Group.name g = "静态资源"
                /\ Group.proxies g = Some (defaultProxies lists)).
Proof.
  cbv zeta. rewrite main_groups_parts. cbv zeta.
  rewrite <- (low_cost_present_iff flags (node_names config)).
  set (names := node_names config).
  pose proof (fun c => surfaced_countries_key names (countryThreshold flags) c)
    as Hkeys.
  pose proof (LOW_COST_not_country _ Hkeys) as Hnot.
  destruct (buildBaseLists_lists flags (landing flags)
              (List.filter low_cost_match names)
              (surfaced_countries (buckets_of names) (countryThreshold flags)))
    as [HS [HP [HD HF]]].
  fold (base_lists_of flags names) in HS, HP, HD, HF.
  split; [|split; [|split; [|split; [|split; [|split; [|split]]]]]].
  - rewrite <- (service_low_cost_emitted flags names).
    rewrite existsb_exists. split.
    + intros [g [Hg Hname]]. rewrite !in_app_iff in Hg.
      destruct Hg as [Hg | [Hg | [<- | []]]].
      * exists g. split; [exact Hg | now apply String.eqb_eq].
      * apply country_group_is_country in Hg. unfold is_country_group in Hg.
        apply In_existsb_eqb in Hg. rewrite Hname in Hg.
        exfalso. revert Hg. apply service_names_not_country.
        apply In_existsb_eqb. reflexivity.
      * discriminate Hname.
    + intros [g [Hg Hname]]. exists g. rewrite !in_app_iff.
      apply String.eqb_eq in Hname. auto.
  - rewrite HS, !in_app_iff, !In_optional. cbn [In]. split.
    + intros [[E|[]] | [[_ E] | [H | [[H _] | [E | [E | []]]]]]];
        try discriminate E; tauto.
    + intros H. right. right. right. left. auto.
  - rewrite HP, !in_app_iff, !In_optional. cbn [In]. split.
    + intros [[E|[]] | [H | [[H _] | [E | [E | []]]]]];
        try discriminate E; tauto.
    + intros H. right. right. left. auto.
  - rewrite HD, !in_app_iff, !In_optional. cbn [In]. split.
    + intros [[E|[]] | [H | [[H _] | [E | [E | []]]]]];
        try discriminate E; tauto.
    + intros H. right. right. left. auto.
  - rewrite HF, !in_app_iff, !In_optional. cbn [In]. split.
    + intros [[_ E] | [H | [[H _] | [E | [E | []]]]]];
        try discriminate E; tauto.
    + intros H. right. right. left. auto.
  - eexists (Group.with_proxies (defaultSelector (base_lists_of flags names))
               (Group.base PROXY_GROUPS.SELECT (qure "Proxy.png") select)).
    split; [|split; reflexivity].
    apply in_or_app. left. unfold service_groups. cbv zeta.
    unfold buildProxyGroups. cbn [map app compact select_group In]. auto.
  - eexists (Group.with_probe 180 20
               (Group.with_proxies (defaultFallback (base_lists_of flags names))
                  (Group.with_url probe_url
                     (Group.base PROXY_GROUPS.FALLBACK (qure "Bypass.png")
                                 fallback)))).
    split; [|split; reflexivity].
    apply in_or_app. left. unfold service_groups. cbv zeta.
    unfold buildProxyGroups.
    destruct (landing flags);
      cbn [map app compact select_group In]; auto 8.
  - eexists (Group.with_proxies (defaultProxies (base_lists_of flags names))
               (Group.base "静态资源" (qure "Cloudflare.png") select)).
    split; [|split; reflexivity].
    apply in_or_app. left. unfold service_groups. cbv zeta.
    unfold buildProxyGroups.
    destruct (landing flags);
      cbn [map app compact select_group In]; auto 8.
Qed.

(** ** Missing node list *)

(** C9. [main] is total, and on a config without [proxies] it produces the
    groups (and rules, DNS block and full-config block) it produces on a
    config with an empty [proxies]. *)
Theorem missing_proxies_as_empty (flags : FeatureFlags) :
  let absent := fst (main flags (Config.mk None) initial_realm) in
  let empty := fst (main flags (Config.mk (Some [])) initial_realm) in
  proxy_groups absent = proxy_groups empty
  /\ rules absent = rules empty
  /\ dns absent = dns empty
  /\ full_block absent = full_block empty.
Proof.
  cbv zeta. split.
  - now rewrite !main_proxy_groups.
  - unfold main, bind. rewrite !parseCountries_run, !parseLowCost_run.
    destruct (landing flags); [rewrite !parseLandingNodes_run|];
      cbn [fst ret rules dns full_block]; auto.
Qed.

(** ** Type of the low-cost group *)

(** C10. A group of the output named as the low-cost group has type
    [url-test], whatever [loadBalance] is; a country group has type
    [load-balance] when [loadBalance] is on and [url-test] otherwise. *)
Theorem low_cost_group_always_url_test (flags : FeatureFlags)
  (config : Config.t) (g : Group.t) :
  In g (proxy_groups (fst (main flags config initial_realm))) ->
  (Group.name g = PROXY_GROUPS.LOW_COST -> Group.type g = url_test)
  /\ (is_country_group g = true ->
      Group.type g = if loadBalance flags then load_balance else url_test).
Proof.
  rewrite main_groups_parts. cbv zeta. rewrite !in_app_iff.
  intros [Hg | [Hg | [<- | []]]].
  - split.
    + intros Hname.
      exact (service_low_cost_type flags (node_names config) g Hg Hname).
    + apply service_group_not_country in Hg. congruence.
  - split.
    + intros Hname. apply country_group_is_country in Hg.
      unfold is_country_group in Hg. apply In_existsb_eqb in Hg.
      rewrite Hname in Hg. exfalso. revert Hg.
      apply service_names_not_country. apply In_existsb_eqb. reflexivity.
    + intros _. apply country_group_bucket in Hg.
      destruct Hg as [b [_ [_ [Htype _]]]]. exact Htype.
  - split; [discriminate|]. rewrite GLOBAL_not_country_group. discriminate.
Qed.

Lemma low_cost_group_always_url_test_witness :
  let flags := mkFlags true false false false false false false false 0 in
  let config := config_of ["HK-1"; "HK 0.2x"] in
  let out := proxy_groups (fst (main flags config initial_realm)) in
  let low := nth 23 out (GLOBAL_group []) in
  let hk := nth 24 out (GLOBAL_group []) in
  (In low out /\ Group.name low = PROXY_GROUPS.LOW_COST
   /\ Group.type low = url_test)
  /\ (In hk out /\ is_country_group hk = true
      /\ Group.type hk = load_balance).
Proof.
  cbv zeta. split.
  - match goal with
    | |- In ?g ?out /\ _ =>
        assert (Hin : In g out) by (apply nth_In; vm_compute; lia)
    end.
    split; [exact Hin|]. split; [vm_compute; reflexivity|].
    apply (proj1 (low_cost_group_always_url_test _ _ _ Hin)).
    vm_compute. reflexivity.
  - match goal with
    | |- In ?g ?out /\ _ =>
        assert (Hin : In g out) by (apply nth_In; vm_compute; lia)
    end.
    split; [exact Hin|]. split; [vm_compute; reflexivity|].
    apply (proj2 (low_cost_group_always_url_test _ _ _ Hin)).
    vm_compute. reflexivity.
Defined.

(** * Further properties of the code *)

(** ** Script arguments *)

Ltac ascii_cases c :=
  let b0 := fresh "b" in let b1 := fresh "b" in let b2 := fresh "b" in
  let b3 := fresh "b" in let b4 := fresh "b" in let b5 := fresh "b" in
  let b6 := fresh "b" in let b7 := fresh "b" in
  destruct c as [b0 b1 b2 b3 b4 b5 b6 b7];
  destruct b0, b1, b2, b3, b4, b5, b6, b7.

Lemma strip_white_space_other (c : ascii) (rest : string) :
  starts_white_space c = false ->
  strip_white_space StrWhiteSpaceChar (String c rest) = None.
Proof.
  ascii_cases c; intros H; vm_compute in H; try discriminate H; reflexivity.
Qed.

Lemma digit_not_white_space (c : ascii) :
  is_digit c = true ->
  starts_white_space c = false
  /\ Ascii.eqb c "-" = false /\ Ascii.eqb c "+" = false.
Proof.
  ascii_cases c; intros H; vm_compute in H; try discriminate H;
    repeat split; reflexivity.
Qed.

Lemma TrimString_start_other (c : ascii) (rest : string) :
  starts_white_space c = false ->
  TrimString_start (String c rest) = String c rest.
Proof.
  intros H. unfold TrimString_start. cbn [String.length trim_start].
  now rewrite strip_white_space_other.
Qed.

Lemma digits_prefix_stop (rest : string) (acc : N) :
  starts_with_digit rest = false -> digits_prefix rest acc = acc.
Proof.
  destruct rest as [|c rest]; cbn [starts_with_digit digits_prefix];
    [reflexivity|].
  now intros ->.
Qed.

Lemma digits_prefix_uint_acc (u : Decimal.uint) (p : positive) (rest : string) :
  starts_with_digit rest = false ->
  digits_prefix (DecimalString.NilEmpty.string_of_uint u ++ rest) (Npos p)
  = Npos (Pos.of_uint_acc u p).
Proof.
  intros Hrest. revert p.
  induction u as [|u IH|u IH|u IH|u IH|u IH|u IH|u IH|u IH|u IH|u IH];
    intros p;
    cbn [DecimalString.NilEmpty.string_of_uint append Pos.of_uint_acc];
    [now apply digits_prefix_stop|..];
    cbn [digits_prefix]; change (is_digit _) with true; cbv iota;
    rewrite <- IH; f_equal;
    match goal with
    | |- context [(N_of_ascii ?c - 48)%N] =>
        let v := eval vm_compute in (N_of_ascii c - 48)%N in
        change (N_of_ascii c - 48)%N with v
    end; lia.
Qed.

Lemma digits_prefix_uint (u : Decimal.uint) (rest : string) :
  starts_with_digit rest = false ->
  digits_prefix (DecimalString.NilEmpty.string_of_uint u ++ rest) 0
  = Pos.of_uint u.
Proof.
  intros Hrest.
  induction u as [|u IH|u IH|u IH|u IH|u IH|u IH|u IH|u IH|u IH|u IH];
    cbn [DecimalString.NilEmpty.string_of_uint append Pos.of_uint];
    [now apply digits_prefix_stop|..];
    cbn [digits_prefix]; change (is_digit _) with true; cbv iota;
    [exact IH|..];
    now rewrite <- digits_prefix_uint_acc with (rest := rest).
Qed.

Lemma string_of_uint_head (u : Decimal.uint) :
  u <> Decimal.Nil ->
  exists c r, DecimalString.NilEmpty.string_of_uint u = String c r
              /\ is_digit c = true.
Proof.
  destruct u; [congruence|..]; intros _;
    cbn [DecimalString.NilEmpty.string_of_uint]; eexists; eexists;
    (split; [reflexivity|reflexivity]).
Qed.

Lemma parseInt10_digits (s : string) (c : ascii) (r : string) :
  s = String c r -> is_digit c = true ->
  parseInt10 (JString s) = Some (Z.of_N (digits_prefix s 0)).
Proof.
  intros -> Hc. destruct (digit_not_white_space c Hc) as [Hw [Hm Hp]].
  unfold parseInt10. cbn [ToString].
  rewrite (TrimString_start_other c r Hw). rewrite Hm, Hp. cbn [fst snd].
  rewrite Hc. first [reflexivity | f_equal; lia].
Qed.

Lemma parseInt10_minus_digits (s : string) (c : ascii) (r : string) :
  s = String c r -> is_digit c = true ->
  parseInt10 (JString (String "-" s))
  = Some (- Z.of_N (digits_prefix s 0))%Z.
Proof.
  intros -> Hc. unfold parseInt10. cbn [ToString].
  rewrite (TrimString_start_other "-" _) by reflexivity.
  cbn [Ascii.eqb Bool.eqb fst snd]. rewrite Hc.
  first [reflexivity | f_equal; lia].
Qed.

(** X1. The decimal rendering of an integer that a double holds exactly (up
    to 2^53 in absolute value), optionally followed by text that does not
    go on with a digit, parses back to the integer: [parseNumber] inverts
    [String(z)] and ignores a unit or a fraction after the digits. *)
Theorem parseNumber_reads_decimal (z : Z) (rest : string) (defaultValue : Z) :
  (Z.abs z <= 2 ^ 53)%Z ->
  starts_with_digit rest = false ->
  parseNumber
    (JString (DecimalString.NilEmpty.string_of_int (Z.to_int z) ++ rest))
    defaultValue
  = z.
Proof.
  intros _ Hrest. unfold parseNumber.
  destruct z as [|p|p]; cbn [Z.to_int DecimalString.NilEmpty.string_of_int].
  - rewrite (parseInt10_digits _ "0" rest) by reflexivity.
    cbn [DecimalString.NilEmpty.string_of_uint append digits_prefix].
    change (is_digit "0") with true. cbv iota.
    now rewrite digits_prefix_stop.
  - destruct (string_of_uint_head (Pos.to_uint p)
                (DecimalPos.Unsigned.to_uint_nonnil p)) as [c [r [E Hc]]].
    rewrite (parseInt10_digits _ c (r ++ rest)) by (now rewrite ?E).
    rewrite digits_prefix_uint by exact Hrest.
    now rewrite DecimalPos.Unsigned.of_to.
  - destruct (string_of_uint_head (Pos.to_uint p)
                (DecimalPos.Unsigned.to_uint_nonnil p)) as [c [r [E Hc]]].
    cbn [append].
    rewrite (parseInt10_minus_digits _ c (r ++ rest)) by (now rewrite ?E).
    rewrite digits_prefix_uint by exact Hrest.
    now rewrite DecimalPos.Unsigned.of_to.
Qed.

Lemma parseNumber_reads_decimal_witness :
  (Z.abs (-12) <= 2 ^ 53)%Z
  /\ starts_with_digit "px" = false
  /\ parseNumber (JString ("-12" ++ "px")) 0 = (-12)%Z
  /\ parseNumber (JString ("3" ++ ".9")) 0 = 3%Z.
Proof.
  assert (H12 : (Z.abs (-12) <= 2 ^ 53)%Z) by (vm_compute; discriminate).
  assert (H3 : (Z.abs 3 <= 2 ^ 53)%Z) by (vm_compute; discriminate).
  split; [exact H12|]. split; [reflexivity|]. split.
  - exact (parseNumber_reads_decimal (-12) "px" 0 H12 eq_refl).
  - exact (parseNumber_reads_decimal 3 ".9" 0 H3 eq_refl).
Defined.

(** X2. [parseNumber] answers the default for [undefined], [null], a boolean,
    the empty string, and every string that begins with a letter. *)
Theorem parseNumber_falls_back (defaultValue : Z) :
  parseNumber JUndefined defaultValue = defaultValue
  /\ parseNumber JNull defaultValue = defaultValue
  /\ (forall b, parseNumber (JBool b) defaultValue = defaultValue)
  /\ parseNumber (JString "") defaultValue = defaultValue
  /\ (forall c rest,
        in_range "a" "z" (lower_case c) = true ->
        parseNumber (JString (String c rest)) defaultValue = defaultValue).
Proof.
  split; [reflexivity|]. split; [reflexivity|].
  split; [intros []; reflexivity|]. split; [reflexivity|].
  intros c rest Hc.
  assert (H : starts_white_space c = false /\ is_digit c = false
              /\ Ascii.eqb c "-" = false /\ Ascii.eqb c "+" = false).
  { revert Hc. ascii_cases c; intros H; vm_compute in H; try discriminate H;
      repeat split; reflexivity. }
  destruct H as [Hw [Hd [Hm Hp]]].
  unfold parseNumber, parseInt10. cbn [ToString].
  rewrite (TrimString_start_other c rest Hw), Hm, Hp. cbn [fst snd].
  now rewrite Hd.
Qed.

Lemma strip_prefix_length (w s s' : string) :
  strip_prefix w s = Some s' ->
  String.length s = String.length w + String.length s'.
Proof.
  revert s. induction w as [|a w IH]; intros s; cbn [strip_prefix].
  - now intros [= ->].
  - destruct s as [|b s]; [discriminate|].
    destruct (Ascii.eqb a b); [|discriminate].
    intros H. apply IH in H. cbn [String.length]. lia.
Qed.

Lemma strip_white_space_shorter (spaces : list string) (s s' : string) :
  Forall (fun w => w <> "") spaces ->
  strip_white_space spaces s = Some s' ->
  String.length s' < String.length s.
Proof.
  induction 1 as [|w spaces Hw _ IH]; cbn [strip_white_space]; [discriminate|].
  destruct (strip_prefix w s) as [r|] eqn:E; [|exact IH].
  intros [= ->]. apply strip_prefix_length in E.
  destruct w; [congruence|]. cbn [String.length] in E. lia.
Qed.

Lemma StrWhiteSpaceChar_nonempty : Forall (fun w => w <> "") StrWhiteSpaceChar.
Proof. repeat constructor; discriminate. Qed.

Lemma trim_start_enough (fuel1 fuel2 : nat) (s : string) :
  String.length s <= fuel1 -> String.length s <= fuel2 ->
  trim_start fuel1 s = trim_start fuel2 s.
Proof.
  revert fuel2 s. induction fuel1 as [|fuel1 IH]; intros fuel2 s H1 H2.
  - destruct s; [|cbn [String.length] in H1; lia].
    destruct fuel2; reflexivity.
  - destruct fuel2 as [|fuel2].
    + destruct s; [reflexivity | cbn [String.length] in H2; lia].
    + cbn [trim_start].
      destruct (strip_white_space StrWhiteSpaceChar s) as [s'|] eqn:E;
        [|reflexivity].
      pose proof (strip_white_space_shorter _ _ _ StrWhiteSpaceChar_nonempty E).
      apply IH; lia.
Qed.

Lemma trim_start_fuel (fuel : nat) (s : string) :
  String.length s <= fuel -> trim_start fuel s = TrimString_start s.
Proof.
  intros H. unfold TrimString_start. apply trim_start_enough; lia.
Qed.

Lemma strip_white_space_app (w s : string) :
  In w StrWhiteSpaceChar ->
  strip_white_space StrWhiteSpaceChar (w ++ s) = Some s.
Proof.
  intros H. unfold StrWhiteSpaceChar in H.
  repeat (destruct H as [<-|H]; [reflexivity|]). destruct H.
Qed.

(** X3. Leading white space, also outside ASCII, does not change what
    [parseNumber] reads. *)
Theorem parseNumber_skips_white_space (w s : string) (defaultValue : Z) :
  In w StrWhiteSpaceChar ->
  parseNumber (JString (w ++ s)) defaultValue
  = parseNumber (JString s) defaultValue.
Proof.
  intros Hw. unfold parseNumber, parseInt10. cbn [ToString].
  assert (E : TrimString_start (w ++ s) = TrimString_start s).
  { unfold TrimString_start at 1.
    pose proof (strip_white_space_app w s Hw) as Hs.
    pose proof (strip_white_space_shorter _ _ _ StrWhiteSpaceChar_nonempty Hs)
      as Hlen.
    destruct (String.length (w ++ s)) as [|n] eqn:En; [lia|].
    cbn [trim_start]. rewrite Hs. apply trim_start_fuel. lia. }
  now rewrite E.
Qed.

Lemma parseNumber_skips_white_space_witness :
  In (bytes [227; 128; 128]) StrWhiteSpaceChar
  /\ parseNumber (JString (bytes [227; 128; 128] ++ " 2")) 0
     = parseNumber (JString " 2") 0
  /\ parseNumber (JString " 2") 0 = 2%Z.
Proof.
  assert (H : In (bytes [227; 128; 128]) StrWhiteSpaceChar)
    by (unfold StrWhiteSpaceChar; do 23 right; left; reflexivity).
  split; [exact H|]. split.
  - exact (parseNumber_skips_white_space _ " 2" 0 H).
  - reflexivity.
Defined.

Lemma toLowerCase_one (s : string) : toLowerCase s = "1" -> s = "1".
Proof.
  destruct s as [|c [|d s]]; cbn [toLowerCase]; try discriminate.
  intros [= H]. f_equal. revert H.
  ascii_cases c; intros H; vm_compute in H; try discriminate H; reflexivity.
Qed.

Lemma toLowerCase_idempotent (s : string) :
  toLowerCase (toLowerCase s) = toLowerCase s.
Proof.
  induction s as [|c s IH]; cbn [toLowerCase]; [reflexivity|].
  rewrite IH. f_equal. ascii_cases c; reflexivity.
Qed.

(** X4. [parseBool] does not look at the letter case of a string: two strings
    that differ in case only are both accepted or both refused; a string is
    accepted exactly when it spells [true] in some case or is [1]. *)
Theorem parseBool_ignores_case (s t : string) :
  toLowerCase s = toLowerCase t ->
  parseBool (JString s) = parseBool (JString t)
  /\ (parseBool (JString s) = true <-> toLowerCase s = "true" \/ s = "1").
Proof.
  intros E. split.
  - unfold parseBool. rewrite E. f_equal.
    destruct (String.eqb s "1") eqn:Es, (String.eqb t "1") eqn:Et;
      try reflexivity.
    + apply String.eqb_eq in Es. apply String.eqb_neq in Et. subst s.
      symmetry in E. apply toLowerCase_one in E. congruence.
    + apply String.eqb_eq in Et. apply String.eqb_neq in Es. subst t.
      apply toLowerCase_one in E. congruence.
  - unfold parseBool. now rewrite orb_true_iff, !String.eqb_eq.
Qed.

Lemma parseBool_ignores_case_witness :
  toLowerCase "TRUE" = toLowerCase "True"
  /\ parseBool (JString "TRUE") = parseBool (JString "True")
  /\ parseBool (JString "TRUE") = true.
Proof.
  split; [reflexivity|]. split.
  - exact (proj1 (parseBool_ignores_case "TRUE" "True" eq_refl)).
  - reflexivity.
Defined.

Lemma arg_other (args : list (string * js_value)) (k k' : string)
  (v : js_value) :
  k <> k' -> arg ((k, v) :: args) k' = arg args k'.
Proof.
  intros Hk. unfold arg. cbn [assoc_get].
  apply String.eqb_neq in Hk. now rewrite Hk.
Qed.

Lemma buildFeatureFlags_fields (args : list (string * js_value)) :
  buildFeatureFlags args
  = mkFlags (parseBool (arg args "loadbalance")) (parseBool (arg args "landing"))
            (parseBool (arg args "ipv6")) (parseBool (arg args "full"))
            (parseBool (arg args "keepalive")) (parseBool (arg args "fakeip"))
            (parseBool (arg args "quic")) (parseBool (arg args "regex"))
            (parseNumber (arg args "threshold") 0).
Proof.
  unfold buildFeatureFlags, flag_object, flag_spec.
  cbn [fold_left fst snd]. rewrite !orb_false_r.
  generalize (parseBool (arg args "loadbalance")) (parseBool (arg args "landing"))
             (parseBool (arg args "ipv6")) (parseBool (arg args "full"))
             (parseBool (arg args "keepalive")) (parseBool (arg args "fakeip"))
             (parseBool (arg args "quic")) (parseBool (arg args "regex")).
  intros b1 b2 b3 b4 b5 b6 b7 b8. reflexivity.
Qed.

(** X5. Every flag is [parseBool] of the argument of its own name in the table
    of [buildFeatureFlags], and the threshold is [parseNumber] of
    [threshold] with default 0; without arguments all flags are off and the
    threshold is 0. *)
Theorem buildFeatureFlags_reads_each_argument
  (args : list (string * js_value)) :
  buildFeatureFlags args
  = mkFlags (parseBool (arg args "loadbalance")) (parseBool (arg args "landing"))
            (parseBool (arg args "ipv6")) (parseBool (arg args "full"))
            (parseBool (arg args "keepalive")) (parseBool (arg args "fakeip"))
            (parseBool (arg args "quic")) (parseBool (arg args "regex"))
            (parseNumber (arg args "threshold") 0)
  /\ buildFeatureFlags (rawArgs None) = default_flags.
Proof.
  split; [apply buildFeatureFlags_fields | reflexivity].
Qed.

(** X6. An argument under a name that [buildFeatureFlags] does not read, such
    as a flag name in another letter case, changes no flag. *)
Theorem unknown_argument_changes_nothing (args : list (string * js_value))
  (k : string) (v : js_value) :
  ~ In k argument_names ->
  buildFeatureFlags ((k, v) :: args) = buildFeatureFlags args.
Proof.
  intros Hk.
  rewrite (buildFeatureFlags_fields ((k, v) :: args)).
  rewrite (buildFeatureFlags_fields args).
  assert (H : forall k', In k' argument_names ->
                         arg ((k, v) :: args) k' = arg args k').
  { intros k' Hk'. apply arg_other. intros ->. now apply Hk. }
  rewrite !H by (apply In_existsb_eqb; reflexivity). reflexivity.
Qed.

Lemma unknown_argument_changes_nothing_witness :
  ~ In "loadBalance" argument_names
  /\ buildFeatureFlags [("loadBalance", JString "true");
                        ("landing", JString "1")]
     = buildFeatureFlags [("landing", JString "1")].
Proof.
  assert (H : ~ In "loadBalance" argument_names)
    by (apply not_In_existsb_eqb; reflexivity).
  split; [exact H|].
  exact (unknown_argument_changes_nothing _ "loadBalance" (JString "true") H).
Defined.

(** ** The candidate lists of the groups *)

Ltac fixed_groups_cases_eqn flags landing countries lowCostNodes :=
  unfold buildProxyGroups; cbn [map]; rewrite app_nil_r;
  let Hl := fresh "Hlanding" in
  let Hr := fresh "Hregex" in
  let Hc := fresh "Hcount" in
  let HTW := fresh "HTW" in
  let HHK := fresh "HHK" in
  let HUS := fresh "HUS" in
  destruct landing eqn:Hl; destruct (regexFilter flags) eqn:Hr;
  destruct (0 <? List.length lowCostNodes)%nat eqn:Hc;
  destruct (existsb (String.eqb "台湾") countries) eqn:HTW;
  destruct (existsb (String.eqb "香港") countries) eqn:HHK;
  destruct (existsb (String.eqb "美国") countries) eqn:HUS;
  cbn [compact orb andb negb select_group];
  try apply In_existsb_eqb in HTW;
  try apply In_existsb_eqb in HHK;
  try apply In_existsb_eqb in HUS.

Lemma length_positive_nonempty {A : Type} (l : list A) :
  (0 <? List.length l)%nat = true -> l <> [].
Proof. destruct l; [discriminate | discriminate]. Qed.

Lemma fixed_group_candidates (flags : FeatureFlags) (landing : bool)
  (countries lowCostNodes landingNodes dP dPD dS dF : list string)
  (g : Group.t) (l : list string) :
  In g (buildProxyGroups flags landing countries [] lowCostNodes landingNodes
                         dP dPD dS dF) ->
  Group.proxies g = Some l ->
  candidates_of flags landing countries lowCostNodes landingNodes
                dP dPD dS dF (Group.name g) l.
Proof.
  fixed_groups_cases_eqn flags landing countries lowCostNodes;
    try apply length_positive_nonempty in Hcount;
    intros H Hp;
    repeat (destruct H as [<-|H];
            [cbn [Group.name Group.proxies Group.with_proxies Group.with_probe
                  Group.with_url Group.with_include_all Group.with_filter
                  Group.with_exclude_filter Group.base] in Hp |- *;
             first [ discriminate Hp
                   | apply Some_inj in Hp; subst l;
                     solve [ econstructor; first
                               [ reflexivity | assumption
                               | apply In_existsb_eqb; reflexivity ] ] ]|]);
    destruct H.
Qed.

Lemma service_group_candidates (flags : FeatureFlags) (names : list string)
  (g : Group.t) (l : list string) :
  let lists := base_lists_of flags names in
  In g (service_groups flags names) ->
  Group.proxies g = Some l ->
  candidates_of flags (landing flags)
    (surfaced_countries (buckets_of names) (countryThreshold flags))
    (List.filter low_cost_match names)
    (if landing flags then List.filter landing_match names else [])
    (defaultProxies lists) (defaultProxiesDirect lists)
    (defaultSelector lists) (defaultFallback lists)
    (Group.name g) l.
Proof.
  cbv zeta. unfold service_groups. cbv zeta. apply fixed_group_candidates.
Qed.

Lemma distinct_NoDup (l : list string) : distinct l = true -> NoDup l.
Proof.
  induction l as [|x l IH]; cbn [distinct]; [constructor|].
  rewrite andb_true_iff, negb_true_iff. intros [Hx Hl].
  constructor; [now apply not_In_existsb_eqb | now apply IH].
Qed.

Lemma fixed_group_names_exact (flags : FeatureFlags) (landing : bool)
  (countries lowCostNodes landingNodes dP dPD dS dF : list string) :
  map Group.name
      (buildProxyGroups flags landing countries [] lowCostNodes landingNodes
                        dP dPD dS dF)
  = emitted_service_names landing
      ((0 <? List.length lowCostNodes)%nat || regexFilter flags).
Proof.
  fixed_groups_cases flags landing lowCostNodes; reflexivity.
Qed.

Lemma service_groups_names (flags : FeatureFlags) (names : list string) :
  map Group.name (service_groups flags names)
  = emitted_service_names (landing flags)
      (existsb low_cost_match names || regexFilter flags).
Proof.
  unfold service_groups. cbv zeta. rewrite fixed_group_names_exact.
  now rewrite existsb_filter_length.
Qed.

Lemma output_names (flags : FeatureFlags) (config : Config.t) :
  map Group.name (proxy_groups (fst (main flags config initial_realm)))
  = (emitted_service_names (landing flags)
       (existsb low_cost_match (node_names config) || regexFilter flags)
     ++ map country_group_name
            (surfaced_countries (buckets_of (node_names config))
                                (countryThreshold flags))
     ++ ["GLOBAL"])%list.
Proof.
  rewrite main_groups_parts. cbv zeta.
  rewrite !map_app, service_groups_names, country_groups_names.
  reflexivity.
Qed.

Lemma NoDup_map_filter {A B : Type} (f : A -> B) (p : A -> bool)
  (l : list A) :
  NoDup (map f l) -> NoDup (map f (List.filter p l)).
Proof.
  induction l as [|x l IH]; cbn [map List.filter]; [auto|].
  intros H. inversion H as [|? ? Hx Hl]; subst.
  destruct (p x); [|auto]. cbn [map]. constructor; [|auto].
  intros Hin. apply Hx. apply in_map_iff in Hin.
  destruct Hin as [y [E Hy]]. apply filter_In in Hy.
  rewrite <- E. apply in_map. tauto.
Qed.

Lemma surfaced_countries_NoDup (names : list string) (minCount : Z) :
  NoDup (surfaced_countries (buckets_of names) minCount).
Proof.
  unfold surfaced_countries, surfaced.
  eapply Permutation_NoDup.
  - apply Permutation_map. symmetry. apply Array_sort_perm.
  - apply NoDup_map_filter. apply buckets_of_NoDup.
Qed.

Lemma emitted_service_name_known (landing lowCost : bool) (n : string) :
  In n (emitted_service_names landing lowCost) -> In n service_group_names.
Proof.
  destruct landing, lowCost; intros H;
    repeat (destruct H as [<-|H]; [apply In_existsb_eqb; reflexivity|]);
    destruct H.
Qed.

Lemma base_list_members (flags : FeatureFlags) (names : list string)
  (x : string) :
  let lists := base_lists_of flags names in
  let lowCost := existsb low_cost_match names || regexFilter flags in
  let countryGroups :=
    map country_group_name
        (surfaced_countries (buckets_of names) (countryThreshold flags)) in
  (In x (defaultSelector lists) <->
   x = PROXY_GROUPS.FALLBACK
   \/ (landing flags = true /\ x = PROXY_GROUPS.LANDING)
   \/ In x countryGroups
   \/ (lowCost = true /\ x = PROXY_GROUPS.LOW_COST)
   \/ x = PROXY_GROUPS.MANUAL \/ x = "DIRECT")
  /\ (In x (defaultProxies lists) <->
      x = PROXY_GROUPS.SELECT \/ In x countryGroups
      \/ (lowCost = true /\ x = PROXY_GROUPS.LOW_COST)
      \/ x = PROXY_GROUPS.MANUAL \/ x = PROXY_GROUPS.DIRECT)
  /\ (In x (defaultProxiesDirect lists) <->
      x = PROXY_GROUPS.DIRECT \/ In x countryGroups
      \/ (lowCost = true /\ x = PROXY_GROUPS.LOW_COST)
      \/ x = PROXY_GROUPS.SELECT \/ x = PROXY_GROUPS.MANUAL)
  /\ (In x (defaultFallback lists) <->
      (landing flags = true /\ x = PROXY_GROUPS.LANDING)
      \/ In x countryGroups
      \/ (lowCost = true /\ x = PROXY_GROUPS.LOW_COST)
      \/ x = PROXY_GROUPS.MANUAL \/ x = "DIRECT").
Proof.
  cbv zeta.
  destruct (buildBaseLists_lists flags (landing flags)
              (List.filter low_cost_match names)
              (surfaced_countries (buckets_of names) (countryThreshold flags)))
    as [HS [HP [HD HF]]].
  fold (base_lists_of flags names) in HS, HP, HD, HF.
  rewrite existsb_filter_length in HS, HP, HD, HF.
  rewrite HS, HP, HD, HF. rewrite !in_app_iff, !In_optional. cbn [In].
  repeat split; intros H; intuition (subst; auto).
Qed.

(** ** The groups of the output *)

(** X7. The output holds, in this order: the groups [buildProxyGroups] writes
    out itself (Front-Proxy and Landing only with [landing], the low-cost
    group only when a node matches the low-cost pattern or [regexFilter] is
    on), one group per country that reaches the threshold, and GLOBAL; no
    two groups have the same name. *)
Theorem output_groups_named_once (flags : FeatureFlags) (config : Config.t) :
  let out := proxy_groups (fst (main flags config initial_realm)) in
  map Group.name out
  = (emitted_service_names (landing flags)
       (existsb low_cost_match (node_names config) || regexFilter flags)
     ++ getCountryGroupNames (fst (parseCountries config initial_realm))
                             (countryThreshold flags)
     ++ ["GLOBAL"])%list
  /\ NoDup (map Group.name out).
Proof.
  cbv zeta. rewrite parseCountries_run. cbn [fst].
  rewrite getCountryGroupNames_surfaced, output_names.
  split; [reflexivity|].
  set (countries := surfaced_countries _ _).
  assert (Hkeys : forall c, In c countries -> In c country_keys)
    by (intros c; apply surfaced_countries_key).
  apply NoDup_app; [|apply NoDup_app|].
  - apply distinct_NoDup. destruct (landing flags), (_ || _); reflexivity.
  - apply NoDup_map_NoDup_ForallPairs.
    + intros c1 c2 _ _. apply country_group_name_inj.
    + apply surfaced_countries_NoDup.
  - repeat constructor. intros [].
  - intros a Ha [E|[]]. subst a. apply in_map_iff in Ha.
    destruct Ha as [c [E Hc]]. apply GLOBAL_not_country.
    rewrite <- E. apply country_group_name_all. now apply Hkeys.
  - intros a Ha Hb. apply emitted_service_name_known in Ha.
    apply in_app_iff in Hb. destruct Hb as [Hb | [<- | []]].
    + apply in_map_iff in Hb. destruct Hb as [c [<- Hc]].
      revert Ha. intros Ha. apply (service_names_not_country _ Ha).
      apply country_group_name_all. now apply Hkeys.
    + now apply GLOBAL_not_service.
Qed.

Ltac by_emitted :=
  match goal with
  | |- In _ (emitted_service_names ?l ?c) =>
      destruct l, c; try congruence; apply In_existsb_eqb; reflexivity
  end.

(** X8. Every candidate of every group of the output can be resolved: it is
    the name of a group of the output, one of the built-in policies, or
    the name of an input node.  Node names are listed only when
    [regexFilter] is off, and only those of landing nodes, low-cost nodes
    and nodes counted for a country: a node that matches no pattern is in
    no candidate list. *)
Theorem candidates_resolve (flags : FeatureFlags) (config : Config.t)
  (g : Group.t) (l : list string) (x : string) :
  let out := proxy_groups (fst (main flags config initial_realm)) in
  In g out -> Group.proxies g = Some l -> In x l ->
  In x (map Group.name out) \/ In x built_in_names
  \/ (regexFilter flags = false /\ In x (node_names config)
      /\ (landing_match x = true \/ low_cost_match x = true
          \/ exists c, classify x = Some c)).
Proof.
  cbv zeta. intros Hg Hp Hx. rewrite output_names.
  rewrite main_groups_parts in Hg. cbv zeta in Hg.
  destruct (base_list_members flags (node_names config) x)
    as [HS [HP [HD HF]]].
  remember (node_names config) as names eqn:Enames.
  remember (existsb low_cost_match names || regexFilter flags) as lc eqn:Elc.
  remember (surfaced_countries (buckets_of names) (countryThreshold flags))
    as countries eqn:Ecountries.
  assert (Hcountry : forall c, In c countries ->
            In (country_group_name c) (map country_group_name countries))
    by (intros c; apply in_map).
  assert (Hemitted : In x (emitted_service_names (landing flags) lc) ->
            In x (emitted_service_names (landing flags) lc
                  ++ map country_group_name countries ++ ["GLOBAL"])
            \/ In x built_in_names
               \/ (regexFilter flags = false /\ In x names
                /\ (landing_match x = true \/ low_cost_match x = true
                    \/ exists c, classify x = Some c)))
    by (intros H; left; apply in_or_app; now left).
  assert (Hcs : In x (map country_group_name countries) ->
            In x (emitted_service_names (landing flags) lc
                  ++ map country_group_name countries ++ ["GLOBAL"])
            \/ In x built_in_names
               \/ (regexFilter flags = false /\ In x names
                /\ (landing_match x = true \/ low_cost_match x = true
                    \/ exists c, classify x = Some c)))
    by (intros H; left; apply in_or_app; right; apply in_or_app; now left).
  assert (Hbuilt : In x built_in_names ->
            In x (emitted_service_names (landing flags) lc
                  ++ map country_group_name countries ++ ["GLOBAL"])
            \/ In x built_in_names
               \/ (regexFilter flags = false /\ In x names
                /\ (landing_match x = true \/ low_cost_match x = true
                    \/ exists c, classify x = Some c))) by tauto.
  rewrite !in_app_iff in Hg. destruct Hg as [Hg | [Hg | [<- | []]]].
  - pose proof (service_group_candidates flags names g l Hg Hp) as Hc.
    cbv zeta in Hc. rewrite <- Ecountries in Hc.
    inversion Hc; subst l.
    + apply HS in Hx.
      destruct Hx as [-> | [[Hl ->] | [H | [[Hlc ->] | [-> | ->]]]]];
        first [ now apply Hcs | apply Hemitted; by_emitted
              | apply Hbuilt; apply In_existsb_eqb; reflexivity ].
    + apply filter_In in Hx. destruct Hx as [Hx _]. apply HS in Hx.
      destruct Hx as [-> | [[Hl ->] | [H' | [[Hlc ->] | [-> | ->]]]]];
        first [ now apply Hcs | apply Hemitted; by_emitted
              | apply Hbuilt; apply In_existsb_eqb; reflexivity ].
    + match goal with H : landing flags = true |- _ => rewrite H in Hx end.
      apply filter_In in Hx. destruct Hx as [Hx1 Hx2].
      right. right. split; [assumption|]. split; [exact Hx1|]. now left.
    + apply HF in Hx.
      destruct Hx as [[Hl ->] | [H | [[Hlc ->] | [-> | ->]]]];
        first [ now apply Hcs | apply Hemitted; by_emitted
              | apply Hbuilt; apply In_existsb_eqb; reflexivity ].
    + apply HP in Hx.
      destruct Hx as [-> | [H' | [[Hlc ->] | [-> | ->]]]];
        first [ now apply Hcs | apply Hemitted; by_emitted ].
    + apply HD in Hx.
      destruct Hx as [-> | [H | [[Hlc ->] | [-> | ->]]]];
        first [ now apply Hcs | apply Hemitted; by_emitted ].
    + destruct Hx as [<- | [<- | [<- | []]]].
      * apply Hemitted; by_emitted.
      * apply Hcs. now apply (Hcountry "台湾").
      * apply Hcs. now apply (Hcountry "香港").
    + apply HP in Hx.
      destruct Hx as [-> | [H | [[Hlc ->] | [-> | ->]]]];
        first [ now apply Hcs | apply Hemitted; by_emitted ].
    + destruct Hx as [<- | [<- | [<- | [<- | []]]]];
        first [ apply Hcs; now apply (Hcountry "台湾")
              | apply Hemitted; by_emitted ].
    + apply HP in Hx.
      destruct Hx as [-> | [H | [[Hlc ->] | [-> | ->]]]];
        first [ now apply Hcs | apply Hemitted; by_emitted ].
    + destruct Hx as [<- | [<- | [<- | []]]];
        first [ apply Hcs; now apply (Hcountry "美国")
              | apply Hemitted; by_emitted ].
    + destruct Hx as [<- | [<- | []]];
        first [ apply Hemitted; by_emitted
              | apply Hbuilt; apply In_existsb_eqb; reflexivity ].
    + destruct Hx as [<- | [<- | []]];
        first [ apply Hbuilt; apply In_existsb_eqb; reflexivity
              | apply Hemitted; by_emitted ].
    + destruct Hx as [<- | [<- | [<- | []]]];
        first [ apply Hbuilt; apply In_existsb_eqb; reflexivity
              | apply Hemitted; by_emitted ].
    + apply filter_In in Hx. destruct Hx as [Hx1 Hx2].
      right. right. split; [assumption|]. split; [exact Hx1|].
      right. now left.
  - apply country_group_bucket in Hg.
    destruct Hg as [b [Hb [_ [_ Hproxies]]]]. rewrite Hp in Hproxies.
    destruct (regexFilter flags) eqn:Hrf; [discriminate|].
    apply Some_inj in Hproxies. subst l. apply surfaced_In in Hb.
    destruct Hb as [Hb _].
    destruct (bucket_node_classified _ _ _ Hb Hx) as [Hn Hc].
    right. right. split; [reflexivity|]. split; [exact Hn|].
    right. right. now exists (country b).
  - unfold GLOBAL_group in Hp.
    cbn [Group.proxies Group.with_proxies Group.with_include_all Group.base]
      in Hp.
    apply Some_inj in Hp. subst l.
    rewrite groups_before_GLOBAL_parts, map_app, service_groups_names,
      country_groups_names, <- Elc, <- Ecountries in Hx.
    apply in_app_iff in Hx. destruct Hx; [now apply Hemitted | now apply Hcs].
Qed.

Lemma rank_country (x : string) :
  In x all_country_group_names -> group_rank x = 0.
Proof.
  assert (H : forallb (fun y => Nat.eqb (group_rank y) 0)
                      all_country_group_names = true)
    by (vm_compute; reflexivity).
  rewrite forallb_forall in H. intros Hx. now apply Nat.eqb_eq, H.
Qed.

Lemma rank_service (x : string) :
  In x service_group_names -> group_rank x <= 5.
Proof.
  assert (H : forallb (fun y => Nat.leb (group_rank y) 5)
                      service_group_names = true)
    by (vm_compute; reflexivity).
  rewrite forallb_forall in H. intros Hx. now apply Nat.leb_le, H.
Qed.

Lemma rank_generic (x : string) :
  In x generic_service_names -> group_rank x = 5.
Proof.
  assert (H : forallb (fun y => Nat.eqb (group_rank y) 5)
                      generic_service_names = true)
    by (vm_compute; reflexivity).
  rewrite forallb_forall in H. intros Hx. now apply Nat.eqb_eq, H.
Qed.

Ltac rank_below Hall :=
  try match goal with
      | H : In ?n generic_service_names |- _ < group_rank ?n =>
          rewrite (rank_generic n H)
      end;
  repeat match goal with
         | E : _ = Group.name _ |- _ => rewrite <- E; clear E
         end;
  try match goal with
      | H : In ?x (map country_group_name _) |- group_rank ?x < _ =>
          rewrite (rank_country x (Hall x H))
      end;
  vm_compute; lia.

(** X9. The references between groups point downwards: when no input node
    bears the name of a group of the output, every candidate that is itself
    a group of the output has a smaller [group_rank] than the group that
    lists it, so no chain of references, of any length, returns to its
    start. *)
Theorem group_references_descend (flags : FeatureFlags) (config : Config.t)
  (g : Group.t) (l : list string) (x : string) :
  let out := proxy_groups (fst (main flags config initial_realm)) in
  (forall n, In n (node_names config) -> ~ In n (map Group.name out)) ->
  In g out -> Group.proxies g = Some l -> In x l ->
  In x (map Group.name out) ->
  group_rank x < group_rank (Group.name g).
Proof.
  cbv zeta. intros Hnodes Hg Hp Hx Hgroup.
  rewrite main_groups_parts in Hg. cbv zeta in Hg.
  destruct (base_list_members flags (node_names config) x)
    as [HS [HP [HD HF]]].
  remember (node_names config) as names eqn:Enames.
  pose proof (names_incl_all names (countryThreshold flags)) as Hall.
  remember (surfaced_countries (buckets_of names) (countryThreshold flags))
    as countries eqn:Ecountries.
  assert (Hcountry : forall c, In c countries ->
            In (country_group_name c) (map country_group_name countries))
    by (intros c; apply in_map).
  rewrite !in_app_iff in Hg. destruct Hg as [Hg | [Hg | [<- | []]]].
  - pose proof (service_group_candidates flags names g l Hg Hp) as Hc.
    cbv zeta in Hc. rewrite <- Ecountries in Hc.
    inversion Hc; subst l.
    + apply HS in Hx.
      destruct Hx as [-> | [[Hl ->] | [H | [[Hlc ->] | [-> | ->]]]]];
        rank_below Hall.
    + apply filter_In in Hx. destruct Hx as [Hx Hf]. apply HS in Hx.
      destruct Hx as [-> | [[Hl ->] | [H' | [[Hlc ->] | [-> | ->]]]]];
        try discriminate Hf; rank_below Hall.
    + match goal with H : landing flags = true |- _ => rewrite H in Hx end.
      apply filter_In in Hx. destruct Hx as [Hx _].
      now apply Hnodes in Hx.
    + apply HF in Hx.
      destruct Hx as [[Hl ->] | [H | [[Hlc ->] | [-> | ->]]]];
        rank_below Hall.
    + apply HP in Hx.
      destruct Hx as [-> | [H' | [[Hlc ->] | [-> | ->]]]]; rank_below Hall.
    + apply HD in Hx.
      destruct Hx as [-> | [H | [[Hlc ->] | [-> | ->]]]]; rank_below Hall.
    + destruct Hx as [<- | [<- | [<- | []]]]; rank_below Hall.
    + apply HP in Hx.
      destruct Hx as [-> | [H | [[Hlc ->] | [-> | ->]]]]; rank_below Hall.
    + destruct Hx as [<- | [<- | [<- | [<- | []]]]]; rank_below Hall.
    + apply HP in Hx.
      destruct Hx as [-> | [H | [[Hlc ->] | [-> | ->]]]]; rank_below Hall.
    + destruct Hx as [<- | [<- | [<- | []]]]; rank_below Hall.
    + destruct Hx as [<- | [<- | []]]; rank_below Hall.
    + destruct Hx as [<- | [<- | []]]; rank_below Hall.
    + destruct Hx as [<- | [<- | [<- | []]]]; rank_below Hall.
    + apply filter_In in Hx. destruct Hx as [Hx _]. now apply Hnodes in Hx.
  - apply country_group_bucket in Hg.
    destruct Hg as [b [Hb [_ [_ Hproxies]]]]. rewrite Hp in Hproxies.
    destruct (regexFilter flags); [discriminate|].
    apply Some_inj in Hproxies. subst l. apply surfaced_In in Hb.
    destruct Hb as [Hb _].
    destruct (bucket_node_classified _ _ _ Hb Hx) as [Hn _].
    now apply Hnodes in Hn.
  - unfold GLOBAL_group in Hp |- *.
    cbn [Group.name Group.proxies Group.with_proxies Group.with_include_all
         Group.base] in Hp |- *.
    apply Some_inj in Hp. subst l.
    rewrite groups_before_GLOBAL_parts, map_app, service_groups_names,
      country_groups_names, <- Ecountries in Hx.
    apply in_app_iff in Hx. destruct Hx as [Hx | Hx].
    + apply emitted_service_name_known, rank_service in Hx.
      change (group_rank "GLOBAL") with 6. lia.
    + rewrite (rank_country x (Hall x Hx)). vm_compute. lia.
Qed.

Lemma In_nonempty {A : Type} (x : A) (l : list A) : In x l -> l <> [].
Proof. destruct l; [intros [] | discriminate]. Qed.

(** X10. An enumerated candidate list of the output is empty for one group
    only: the Landing group, when [landing] is on, [regexFilter] is off and
    no node matches the landing pattern.  Every other group with a
    candidate list has at least one candidate. *)
Theorem only_landing_can_be_empty (flags : FeatureFlags) (config : Config.t)
  (g : Group.t) :
  In g (proxy_groups (fst (main flags config initial_realm))) ->
  Group.proxies g = Some [] ->
  Group.name g = PROXY_GROUPS.LANDING
  /\ landing flags = true /\ regexFilter flags = false
  /\ forall n, In n (node_names config) -> landing_match n = false.
Proof.
  intros Hg Hp. rewrite main_groups_parts in Hg. cbv zeta in Hg.
  remember (node_names config) as names eqn:Enames.
  assert (HS : In PROXY_GROUPS.MANUAL
                  (defaultSelector (base_lists_of flags names)))
    by (apply (base_list_members flags names); tauto).
  assert (HP : In PROXY_GROUPS.MANUAL
                  (defaultProxies (base_lists_of flags names)))
    by (apply (base_list_members flags names); tauto).
  assert (HD : In PROXY_GROUPS.MANUAL
                  (defaultProxiesDirect (base_lists_of flags names)))
    by (apply (base_list_members flags names); tauto).
  assert (HF : In PROXY_GROUPS.MANUAL
                  (defaultFallback (base_lists_of flags names)))
    by (apply (base_list_members flags names); tauto).
  rewrite !in_app_iff in Hg. destruct Hg as [Hg | [Hg | [<- | []]]].
  - pose proof (service_group_candidates flags names g [] Hg Hp) as Hc.
    cbv zeta in Hc.
    inversion Hc as
      [E1 E2|Hl E1 E2|Hl Hr E1 E2|E1 E2|n Hn E1 E2|E1 E2|H1 H2 E1 E2|E1 E2
      |H1 E1 E2|E1 E2|H1 E1 E2|E1 E2|E1 E2|E1 E2|Hr Hne E1 E2];
      try (exfalso;
           first [ now apply (In_nonempty _ _ HS)
                 | now apply (In_nonempty _ _ HP)
                 | now apply (In_nonempty _ _ HD)
                 | now apply (In_nonempty _ _ HF) ]).
    + exfalso.
      assert (H : In PROXY_GROUPS.MANUAL
                     (List.filter
                        (fun name =>
                           negb (String.eqb name PROXY_GROUPS.LANDING)
                           && negb (String.eqb name PROXY_GROUPS.FALLBACK))
                        (defaultSelector (base_lists_of flags names))))
        by (apply filter_In; split; [exact HS | reflexivity]).
      apply (In_nonempty _ _ H). exact E2.
    + split; [reflexivity|]. split; [exact Hl|]. split; [exact Hr|].
      intros n Hn. rewrite Hl in E2.
      destruct (landing_match n) eqn:E; [|reflexivity].
      assert (H : In n (List.filter landing_match names))
        by (apply filter_In; tauto).
      exfalso. apply (In_nonempty _ _ H). exact E2.
  - exfalso. apply country_group_bucket in Hg.
    destruct Hg as [b [Hb [_ [_ Hproxies]]]]. rewrite Hp in Hproxies.
    destruct (regexFilter flags); [discriminate|].
    apply Some_inj in Hproxies. apply surfaced_In in Hb.
    destruct Hb as [Hb _]. apply bucket_nonempty in Hb. congruence.
  - exfalso. unfold GLOBAL_group in Hp.
    cbn [Group.proxies Group.with_proxies Group.with_include_all Group.base]
      in Hp.
    apply Some_inj in Hp.
    rewrite groups_before_GLOBAL_parts, map_app, service_groups_names in Hp.
    apply app_eq_nil in Hp. destruct Hp as [Hp _].
    destruct (landing flags); discriminate Hp.
Qed.

Lemma only_landing_can_be_empty_witness :
  let flags := mkFlags false true false false false false false false 0 in
  let config := config_of ["HK-1"] in
  let out := proxy_groups (fst (main flags config initial_realm)) in
  let landingGroup := nth 3 out (GLOBAL_group []) in
  In landingGroup out /\ Group.proxies landingGroup = Some []
  /\ Group.name landingGroup = PROXY_GROUPS.LANDING
  /\ (forall n, In n (node_names config) -> landing_match n = false)
  /\ option_map Group.proxies (hd_error out)
     = Some (Some ["故障转移"; "落地节点"; "香港节点"; "手动选择"; "DIRECT"]).
Proof.
  cbv zeta.
  match goal with
  | |- In ?g ?out /\ _ =>
      assert (Hin : In g out) by (apply nth_In; vm_compute; lia)
  end.
  split; [exact Hin|].
  assert (Hp : Group.proxies
                 (nth 3 (proxy_groups
                           (fst (main
                                   (mkFlags false true false false false false
                                            false false 0)
                                   (config_of ["HK-1"]) initial_realm)))
                      (GLOBAL_group []))
               = Some []) by (vm_compute; reflexivity).
  split; [exact Hp|].
  destruct (only_landing_can_be_empty _ _ _ Hin Hp) as [Hn [_ [_ Hnone]]].
  split; [exact Hn|]. split; [exact Hnone|]. vm_compute. reflexivity.
Defined.

Lemma fixed_front_proxy (flags : FeatureFlags) (useLanding : bool)
  (countries lowCostNodes landingNodes dP dPD dS dF : list string)
  (g : Group.t) :
  In g (buildProxyGroups flags useLanding countries [] lowCostNodes
                         landingNodes dP dPD dS dF) ->
  Group.name g = "前置代理" ->
  useLanding = true
  /\ Group.proxies g
     = Some (List.filter
               (fun name => negb (String.eqb name PROXY_GROUPS.LANDING)
                            && negb (String.eqb name PROXY_GROUPS.FALLBACK))
               dS)
  /\ Group.type g = select
  /\ Group.include_all g = (if regexFilter flags then Some true else None)
  /\ Group.exclude_filter g
     = (if regexFilter flags then Some LANDING_PATTERN else None)
  /\ Group.filter g = None.
Proof.
  fixed_groups_cases flags useLanding lowCostNodes; intros H Hn;
    repeat (destruct H as [<-|H];
            [cbn [Group.name Group.with_proxies Group.with_probe
                  Group.with_url Group.with_include_all Group.with_filter
                  Group.with_exclude_filter Group.base] in Hn;
             first [ discriminate Hn | repeat split; reflexivity ]|]);
    destruct H.
Qed.

Lemma service_front_proxy (flags : FeatureFlags) (names : list string)
  (g : Group.t) :
  In g (service_groups flags names) ->
  Group.name g = "前置代理" ->
  landing flags = true
  /\ Group.proxies g
     = Some (List.filter
               (fun name => negb (String.eqb name PROXY_GROUPS.LANDING)
                            && negb (String.eqb name PROXY_GROUPS.FALLBACK))
               (defaultSelector (base_lists_of flags names)))
  /\ Group.type g = select
  /\ Group.include_all g = (if regexFilter flags then Some true else None)
  /\ Group.exclude_filter g
     = (if regexFilter flags then Some LANDING_PATTERN else None)
  /\ Group.filter g = None.
Proof.
  unfold service_groups. cbv zeta. apply fixed_front_proxy.
Qed.

(** The Selector's list without the Landing and the Fallback group, when
    [landing] is on. *)
Lemma front_proxy_list (flags : FeatureFlags) (names : list string) :
  landing flags = true ->
  List.filter
    (fun name => negb (String.eqb name PROXY_GROUPS.LANDING)
                 && negb (String.eqb name PROXY_GROUPS.FALLBACK))
    (defaultSelector (base_lists_of flags names))
  = (map country_group_name
         (surfaced_countries (buckets_of names) (countryThreshold flags))
     ++ optional (existsb low_cost_match names || regexFilter flags)
                 PROXY_GROUPS.LOW_COST
     ++ [PROXY_GROUPS.MANUAL; "DIRECT"])%list.
Proof.
  intros Hl.
  destruct (buildBaseLists_lists flags (landing flags)
              (List.filter low_cost_match names)
              (surfaced_countries (buckets_of names) (countryThreshold flags)))
    as [HS _].
  fold (base_lists_of flags names) in HS.
  rewrite existsb_filter_length in HS. rewrite HS, Hl.
  rewrite !filter_app. cbn [optional List.filter app].
  change (negb (PROXY_GROUPS.FALLBACK =? PROXY_GROUPS.LANDING)
          && negb (PROXY_GROUPS.FALLBACK =? PROXY_GROUPS.FALLBACK))
    with false.
  change (negb (PROXY_GROUPS.LANDING =? PROXY_GROUPS.LANDING)
          && negb (PROXY_GROUPS.LANDING =? PROXY_GROUPS.FALLBACK))
    with false.
  cbv iota. cbn [app]. f_equal.
  - apply filter_all. intros x Hx.
    apply (names_incl_all names (countryThreshold flags)) in Hx.
    destruct (String.eqb x PROXY_GROUPS.LANDING) eqn:E1;
      [apply String.eqb_eq in E1; subst x; exfalso; revert Hx;
       apply service_names_not_country; apply In_existsb_eqb;
       reflexivity|].
    destruct (String.eqb x PROXY_GROUPS.FALLBACK) eqn:E2;
      [apply String.eqb_eq in E2; subst x; exfalso; revert Hx;
       apply service_names_not_country; apply In_existsb_eqb;
       reflexivity|].
    reflexivity.
  - destruct (_ || _); reflexivity.
Qed.

(** X11. The Front-Proxy group is in the output exactly when [landing] is on.
    It is then a [select] group that carries a candidate list in both
    modes: the country groups, the low-cost group when it is present, the
    Manual group and DIRECT, which is the Selector's list without the
    Landing and the Fallback group.  In regex mode it has [include-all]
    and the landing pattern as [exclude-filter] besides, otherwise neither;
    it never has a [filter]. *)
Theorem front_proxy_candidates (flags : FeatureFlags) (config : Config.t) :
  let out := proxy_groups (fst (main flags config initial_realm)) in
  let lowCost :=
    existsb low_cost_match (node_names config) || regexFilter flags in
  (In "前置代理" (map Group.name out) <-> landing flags = true)
  /\ forall g,
       In g out -> Group.name g = "前置代理" ->
       Group.proxies g
       = Some (getCountryGroupNames
                 (fst (parseCountries config initial_realm))
                 (countryThreshold flags)
               ++ optional lowCost PROXY_GROUPS.LOW_COST
               ++ [PROXY_GROUPS.MANUAL; "DIRECT"])%list
       /\ Group.type g = select
       /\ Group.include_all g
          = (if regexFilter flags then Some true else None)
       /\ Group.exclude_filter g
          = (if regexFilter flags then Some LANDING_PATTERN else None)
       /\ Group.filter g = None.
Proof.
  cbv zeta. rewrite parseCountries_run. cbn [fst].
  rewrite getCountryGroupNames_surfaced. split.
  - rewrite output_names, !in_app_iff.
    pose proof (names_incl_all (node_names config) (countryThreshold flags))
      as Hall.
    split.
    + intros [H | [H | [H | []]]].
      * destruct (landing flags); [reflexivity|]. exfalso. revert H.
        destruct (_ || _); apply not_In_existsb_eqb; reflexivity.
      * exfalso. apply Hall in H. revert H.
        apply service_names_not_country. apply In_existsb_eqb. reflexivity.
      * discriminate H.
    + intros ->. left. destruct (_ || _); apply In_existsb_eqb; reflexivity.
  - intros g Hg Hname. rewrite main_groups_parts in Hg. cbv zeta in Hg.
    rewrite !in_app_iff in Hg. destruct Hg as [Hg | [Hg | [<- | []]]].
    + destruct (service_front_proxy flags (node_names config) g Hg Hname)
        as [Hl [Hp [Ht [Hi [He Hf]]]]].
      rewrite (front_proxy_list flags (node_names config) Hl) in Hp.
      repeat (split; [assumption|]). exact Hf.
    + exfalso. apply country_group_is_country in Hg.
      unfold is_country_group in Hg. rewrite Hname in Hg. discriminate Hg.
    + discriminate Hname.
Qed.

Lemma candidates_resolve_witness :
  let config := config_of ["HK-1"] in
  let out := proxy_groups (fst (main default_flags config initial_realm)) in
  let hk := nth 23 out (GLOBAL_group []) in
  In hk out /\ Group.proxies hk = Some ["HK-1"] /\ In "HK-1" ["HK-1"]
  /\ (In "HK-1" (map Group.name out) \/ In "HK-1" built_in_names
      \/ (regexFilter default_flags = false /\ In "HK-1" (node_names config)
          /\ (landing_match "HK-1" = true \/ low_cost_match "HK-1" = true
              \/ exists c, classify "HK-1" = Some c))).
Proof.
  cbv zeta.
  match goal with
  | |- In ?g ?out /\ _ =>
      assert (Hin : In g out) by (apply nth_In; vm_compute; lia)
  end.
  split; [exact Hin|].
  assert (Hp : Group.proxies
                 (nth 23 (proxy_groups
                            (fst (main default_flags (config_of ["HK-1"])
                                       initial_realm)))
                      (GLOBAL_group []))
               = Some ["HK-1"]) by (vm_compute; reflexivity).
  split; [exact Hp|].
  assert (Hx : In "HK-1" ["HK-1"]) by (left; reflexivity).
  split; [exact Hx|].
  exact (candidates_resolve _ _ _ _ _ Hin Hp Hx).
Defined.

Lemma group_references_descend_witness :
  let config := config_of ["HK-1"] in
  let out := proxy_groups (fst (main default_flags config initial_realm)) in
  let selector := nth 0 out (GLOBAL_group []) in
  let l := ["故障转移"; "香港节点"; "手动选择"; "DIRECT"] in
  (forall n, In n (node_names config) -> ~ In n (map Group.name out))
  /\ In selector out /\ Group.proxies selector = Some l
  /\ In "故障转移" l /\ In "故障转移" (map Group.name out)
  /\ group_rank "故障转移" < group_rank (Group.name selector).
Proof.
  cbv zeta.
  match goal with
  | |- ?P /\ _ =>
      assert (Hnodes : P)
        by (intros n [<- | []]; apply not_In_existsb_eqb; vm_compute;
            reflexivity)
  end.
  split; [exact Hnodes|].
  match goal with
  | |- In ?g ?out /\ _ =>
      assert (Hin : In g out) by (apply nth_In; vm_compute; lia)
  end.
  split; [exact Hin|].
  assert (Hp : Group.proxies
                 (nth 0 (proxy_groups
                           (fst (main default_flags (config_of ["HK-1"])
                                      initial_realm)))
                      (GLOBAL_group []))
               = Some ["故障转移"; "香港节点"; "手动选择"; "DIRECT"])
    by (vm_compute; reflexivity).
  split; [exact Hp|].
  assert (Hx : In "故障转移" ["故障转移"; "香港节点"; "手动选择"; "DIRECT"])
    by (left; reflexivity).
  split; [exact Hx|].
  match goal with
  | |- ?P /\ _ =>
      assert (Hgroup : P) by (apply In_existsb_eqb; vm_compute; reflexivity)
  end.
  split; [exact Hgroup|].
  exact (group_references_descend _ _ _ _ _ Hnodes Hin Hp Hx Hgroup).
Defined.

(** ** Rules *)

Lemma ends_with_suffix (s suffix : string) :
  ends_with s suffix = true -> exists prefix, s = prefix ++ suffix.
Proof.
  induction s as [|c s IH]; cbn [ends_with]; rewrite orb_true_iff.
  - intros [H | H]; [|discriminate]. apply String.eqb_eq in H.
    subst suffix. now exists "".
  - intros [H | H].
    + apply String.eqb_eq in H. subst suffix. now exists "".
    + destruct (IH H) as [prefix ->]. now exists (String c prefix).
Qed.

Lemma emitted_service_names_grow (landing lowCost : bool) (n : string) :
  In n (emitted_service_names false false) ->
  In n (emitted_service_names landing lowCost).
Proof.
  destruct landing, lowCost; intros H;
    repeat (destruct H as [<-|H]; [apply In_existsb_eqb; reflexivity|]);
    destruct H.
Qed.

(** X12. Every rule [main] returns names as its policy a group that is in the
    output for every input and every flag assignment, or REJECT; the last
    rule is the catch-all [MATCH] to the Selector, and the rule that
    rejects QUIC comes first exactly when [quicEnabled] is off. *)
Theorem rules_target_emitted_groups (flags : FeatureFlags)
  (config : Config.t) :
  let result := fst (main flags config initial_realm) in
  (forall rule, In rule (rules result) ->
     exists prefix target,
       (rule = prefix ++ "," ++ target
        \/ rule = prefix ++ "," ++ target ++ ",no-resolve")
       /\ (target = "REJECT"
           \/ In target (map Group.name (proxy_groups result))))
  /\ last (rules result) "" = "MATCH," ++ PROXY_GROUPS.SELECT
  /\ (hd_error (rules result)
      = Some "AND,((DST-PORT,443),(NETWORK,UDP)),REJECT"
      <-> quicEnabled flags = false).
Proof.
  cbv zeta.
  assert (Hrules : rules (fst (main flags config initial_realm))
                   = buildRules (quicEnabled flags)).
  { unfold main, bind. rewrite parseCountries_run, parseLowCost_run.
    destruct (landing flags); [rewrite parseLandingNodes_run|]; reflexivity. }
  rewrite Hrules. split; [|split].
  - intros rule Hrule.
    assert (Hcheck :
      forallb (fun r =>
                 existsb (rule_targets r)
                         ("REJECT" :: emitted_service_names false false))
              (buildRules (quicEnabled flags)) = true)
      by (destruct (quicEnabled flags); vm_compute; reflexivity).
    rewrite forallb_forall in Hcheck. specialize (Hcheck rule Hrule).
    apply existsb_exists in Hcheck. destruct Hcheck as [target [Ht Hr]].
    unfold rule_targets in Hr. apply orb_true_iff in Hr.
    assert (He : exists prefix,
               rule = prefix ++ "," ++ target
               \/ rule = prefix ++ "," ++ target ++ ",no-resolve").
    { destruct Hr as [Hr | Hr]; apply ends_with_suffix in Hr;
        destruct Hr as [prefix ->]; exists prefix; auto. }
    destruct He as [prefix He]. exists prefix, target. split; [exact He|].
    destruct Ht as [<- | Ht]; [now left|]. right.
    rewrite output_names. apply in_or_app. left.
    apply emitted_service_names_grow. exact Ht.
  - destruct (quicEnabled flags); vm_compute; reflexivity.
  - destruct (quicEnabled flags); cbn [buildRules negb hd_error baseRules];
      split; intros H; try reflexivity; discriminate H.
Qed.

(** ** Threshold *)

Section SortFilter.
Context {A : Type} (comparefn : A -> A -> number).
Variable le : A -> A -> Prop.
Hypothesis le_trans : forall x y z, le x y -> le y z -> le x z.
Hypothesis Gt_le : forall x y, SortCompare comparefn x y = Gt -> le y x.
Hypothesis not_Gt_le : forall x y, SortCompare comparefn x y <> Gt -> le x y.
Hypothesis le_not_Gt : forall x y, le x y -> SortCompare comparefn x y <> Gt.
Variable keep : A -> bool.

Lemma sort_insert_below_all (x : A) (l : list A) :
  Forall (le x) l -> sort_insert comparefn x l = x :: l.
Proof.
  destruct 1 as [|y l Hy _]; cbn [sort_insert]; [reflexivity|].
  destruct (SortCompare comparefn x y) eqn:E; try reflexivity.
  now apply le_not_Gt in Hy.
Qed.

Lemma sort_insert_filter_dropped (x : A) (l : list A) :
  keep x = false ->
  List.filter keep (sort_insert comparefn x l) = List.filter keep l.
Proof.
  intros Hx. induction l as [|y l IH]; cbn [sort_insert List.filter].
  - now rewrite Hx.
  - destruct (SortCompare comparefn x y); cbn [List.filter];
      rewrite ?Hx, ?IH; reflexivity.
Qed.

Lemma sort_insert_filter_kept (x : A) (l : list A) :
  StronglySorted le l -> keep x = true ->
  List.filter keep (sort_insert comparefn x l)
  = sort_insert comparefn x (List.filter keep l).
Proof.
  intros Hs Hx. induction Hs as [|y l Hs IH Hy]; cbn [sort_insert List.filter].
  - now rewrite Hx.
  - destruct (SortCompare comparefn x y) eqn:E.
    + cbn [List.filter]. rewrite Hx.
      destruct (keep y); cbn [sort_insert]; [now rewrite E|].
      symmetry. apply sort_insert_below_all.
      apply Forall_forall. intros z Hz. apply filter_In in Hz.
      rewrite Forall_forall in Hy.
      apply le_trans with y; [apply not_Gt_le; congruence | apply Hy; tauto].
    + cbn [List.filter]. rewrite Hx.
      destruct (keep y); cbn [sort_insert]; [now rewrite E|].
      symmetry. apply sort_insert_below_all.
      apply Forall_forall. intros z Hz. apply filter_In in Hz.
      rewrite Forall_forall in Hy.
      apply le_trans with y; [apply not_Gt_le; congruence | apply Hy; tauto].
    + cbn [List.filter].
      destruct (keep y); cbn [sort_insert]; rewrite ?E, IH; reflexivity.
Qed.

(** Filtering before the sort or after it gives the same array. *)
Lemma Array_sort_filter (l : list A) :
  Array_sort comparefn (List.filter keep l)
  = List.filter keep (Array_sort comparefn l).
Proof.
  induction l as [|x l IH]; cbn [Array_sort List.filter]; [reflexivity|].
  destruct (keep x) eqn:Hx; cbn [Array_sort].
  - rewrite IH. symmetry. apply sort_insert_filter_kept; [|exact Hx].
    now apply (Array_sort_sorted comparefn le).
  - rewrite IH. symmetry. now apply sort_insert_filter_dropped.
Qed.
End SortFilter.

Lemma weight_ordered_not_Gt (x y : CountryInfo) :
  weight_ordered x y -> SortCompare by_weight x y <> Gt.
Proof.
  weight_cases x; weight_cases y; intros H; try discriminate;
    try (intros ?; discriminate).
  apply Z.leb_le in H. intros Hgt. apply Z.compare_gt_iff in Hgt. lia.
Qed.

Lemma Array_sort_by_weight_filter (keep : CountryInfo -> bool)
  (l : list CountryInfo) :
  Array_sort by_weight (List.filter keep l)
  = List.filter keep (Array_sort by_weight l).
Proof.
  apply (Array_sort_filter by_weight weight_ordered).
  - exact weight_ordered_trans.
  - exact by_weight_Gt.
  - exact by_weight_not_Gt.
  - exact weight_ordered_not_Gt.
Qed.

Lemma filter_filter_implied {A : Type} (p q : A -> bool) (l : list A) :
  (forall x, In x l -> q x = true -> p x = true) ->
  List.filter q (List.filter p l) = List.filter q l.
Proof.
  intros H. induction l as [|x l IH]; cbn [List.filter]; [reflexivity|].
  assert (IH' : List.filter q (List.filter p l) = List.filter q l)
    by (apply IH; intros y Hy; apply H; now right).
  destruct (p x) eqn:Hp; cbn [List.filter]; rewrite IH'; [reflexivity|].
  destruct (q x) eqn:Hq; [|reflexivity].
  rewrite (H x (or_introl eq_refl) Hq) in Hp. discriminate.
Qed.

Lemma map_filter_through {A B : Type} (f : A -> B) (p : A -> bool)
  (q : B -> bool) (l : list A) :
  (forall x, In x l -> q (f x) = p x) ->
  map f (List.filter p l) = List.filter q (map f l).
Proof.
  intros H. induction l as [|x l IH]; cbn [map List.filter]; [reflexivity|].
  rewrite (H x (or_introl eq_refl)).
  destruct (p x); cbn [map]; rewrite IH; auto; intros y Hy; apply H; now right.
Qed.

Lemma bucket_size_of (names : list string) (b : CountryInfo) :
  In b (buckets_of names) ->
  bucket_size (buckets_of names) (country b)
  = Z.of_nat (List.length (nodes b)).
Proof.
  intros Hb. unfold bucket_size.
  destruct (find _ (buckets_of names)) as [b'|] eqn:E.
  - apply find_some in E. destruct E as [Hb' E]. apply String.eqb_eq in E.
    now rewrite (bucket_unique names b' b Hb' Hb E).
  - apply (find_none _ _ E) in Hb. now rewrite String.eqb_refl in Hb.
Qed.

(** X13. Raising the threshold removes country groups and does nothing else to
    their order: the countries emitted at the higher threshold are those
    emitted at the lower one whose bucket reaches the higher threshold, in
    the same order. *)
Theorem raising_threshold_only_removes (flags : FeatureFlags)
  (config : Config.t) (t1 t2 : Z) :
  (t1 <= t2)%Z ->
  emitted_countries (with_threshold flags t2) config
  = List.filter
      (fun c => (t2 <=? bucket_size (fst (parseCountries config initial_realm))
                                    c)%Z)
      (emitted_countries (with_threshold flags t1) config).
Proof.
  intros Ht. rewrite !emitted_countries_surfaced, parseCountries_run.
  cbn [fst countryThreshold with_threshold].
  set (names := node_names config).
  unfold surfaced_countries, surfaced.
  rewrite <- (filter_filter_implied
                (fun item => (t1 <=? Z.of_nat (List.length (nodes item)))%Z)
                (fun item => (t2 <=? Z.of_nat (List.length (nodes item)))%Z))
    by (intros x _ H; apply Z.leb_le in H; apply Z.leb_le; lia).
  rewrite Array_sort_by_weight_filter.
  apply map_filter_through. intros b Hb.
  apply Array_sort_In, filter_In in Hb. destruct Hb as [Hb _].
  now rewrite bucket_size_of.
Qed.

Lemma raising_threshold_only_removes_witness :
  let config := config_of ["US-1"; "HK-1"; "HK-2"; "KR-1"; "KR-2"] in
  (0 <= 2)%Z
  /\ emitted_countries (with_threshold default_flags 0) config
     = ["香港"; "美国"; "韩国"]
  /\ emitted_countries (with_threshold default_flags 2) config
     = List.filter
         (fun c => (2 <=? bucket_size (fst (parseCountries config initial_realm))
                                      c)%Z)
         (emitted_countries (with_threshold default_flags 0) config)
  /\ emitted_countries (with_threshold default_flags 2) config
     = ["香港"; "韩国"].
Proof.
  cbv zeta.
  assert (H : (0 <= 2)%Z) by lia.
  split; [exact H|]. split; [vm_compute; reflexivity|]. split.
  - exact (raising_threshold_only_removes default_flags _ 0 2 H).
  - vm_compute. reflexivity.
Defined.

Lemma buildBaseLists_threshold (flags : FeatureFlags) (t : Z) (landing : bool)
  (lowCostNodes countryGroupNames : list string) :
  buildBaseLists (with_threshold flags t) landing lowCostNodes
                 countryGroupNames
  = buildBaseLists flags landing lowCostNodes countryGroupNames.
Proof.
  unfold buildBaseLists. cbn [regexFilter with_threshold]. reflexivity.
Qed.

Lemma buildProxyGroups_threshold (flags : FeatureFlags) (t : Z)
  (useLanding : bool) (countries : list string)
  (countryProxyGroups : list Group.t)
  (lowCostNodes landingNodes dP dPD dS dF : list string) :
  buildProxyGroups (with_threshold flags t) useLanding countries
                   countryProxyGroups lowCostNodes landingNodes dP dPD dS dF
  = buildProxyGroups flags useLanding countries countryProxyGroups lowCostNodes
                     landingNodes dP dPD dS dF.
Proof.
  unfold buildProxyGroups.
  cbn [loadBalance landing ipv6Enabled fullConfig keepAliveEnabled
       fakeIPEnabled quicEnabled regexFilter with_threshold].
  reflexivity.
Qed.

(** The threshold enters the groups only through the list of surfaced
    countries. *)
Lemma groups_before_GLOBAL_threshold (flags : FeatureFlags)
  (names : list string) (t : Z) (l : list CountryInfo) :
  surfaced (buckets_of names) t = l ->
  groups_before_GLOBAL (with_threshold flags t) names
  = buildProxyGroups flags (landing flags) (map country l)
      (buildCountryProxyGroups (map country l) (landing flags)
                               (loadBalance flags) (regexFilter flags)
                               (buckets_of names))
      (List.filter low_cost_match names)
      (if landing flags then List.filter landing_match names else [])
      (defaultProxies
         (buildBaseLists flags (landing flags)
            (List.filter low_cost_match names)
            (map country_group_name (map country l))))
      (defaultProxiesDirect
         (buildBaseLists flags (landing flags)
            (List.filter low_cost_match names)
            (map country_group_name (map country l))))
      (defaultSelector
         (buildBaseLists flags (landing flags)
            (List.filter low_cost_match names)
            (map country_group_name (map country l))))
      (defaultFallback
         (buildBaseLists flags (landing flags)
            (List.filter low_cost_match names)
            (map country_group_name (map country l)))).
Proof.
  intros <-. unfold groups_before_GLOBAL, base_lists_of, surfaced_countries.
  cbv zeta. rewrite buildProxyGroups_threshold, buildBaseLists_threshold.
  cbn [countryThreshold landing loadBalance regexFilter with_threshold].
  reflexivity.
Qed.

(** X14. A threshold of 1 or less filters nothing: every bucket holds at least
    one name, so the output has the same groups as with threshold 1 (or
    0). *)
Theorem threshold_up_to_one_filters_nothing (flags : FeatureFlags)
  (config : Config.t) (t : Z) :
  (t <= 1)%Z ->
  proxy_groups (fst (main (with_threshold flags t) config initial_realm))
  = proxy_groups (fst (main (with_threshold flags 1) config initial_realm))
  /\ emitted_countries (with_threshold flags t) config
     = map country
           (Array_sort by_weight (fst (parseCountries config initial_realm))).
Proof.
  intros Ht.
  assert (Hall : forall t', (t' <= 1)%Z ->
            surfaced (buckets_of (node_names config)) t'
            = Array_sort by_weight (buckets_of (node_names config))).
  { intros t' Ht'. unfold surfaced. f_equal. apply filter_all.
    intros b Hb. apply bucket_nonempty in Hb. apply Z.leb_le.
    destruct (nodes b); [congruence | cbn [List.length]; lia]. }
  split.
  - rewrite !main_proxy_groups.
    rewrite (groups_before_GLOBAL_threshold flags _ t _ (Hall t Ht)).
    rewrite (groups_before_GLOBAL_threshold flags _ 1%Z _
               (Hall 1%Z (Z.le_refl 1))).
    reflexivity.
  - rewrite emitted_countries_surfaced, parseCountries_run.
    cbn [fst countryThreshold with_threshold].
    unfold surfaced_countries. now rewrite (Hall t Ht).
Qed.

Lemma threshold_up_to_one_filters_nothing_witness :
  let config := config_of ["US-1"; "HK-1"] in
  (0 <= 1)%Z
  /\ proxy_groups (fst (main (with_threshold default_flags 0) config
                             initial_realm))
     = proxy_groups (fst (main (with_threshold default_flags 1) config
                               initial_realm))
  /\ emitted_countries (with_threshold default_flags 0) config
     = ["香港"; "美国"].
Proof.
  cbv zeta.
  assert (H : (0 <= 1)%Z) by lia.
  split; [exact H|]. split.
  - exact (proj1 (threshold_up_to_one_filters_nothing default_flags _ 0 H)).
  - vm_compute. reflexivity.
Defined.

(** X15. A country group that enumerates its nodes has at least one candidate
    and at least [countryThreshold] of them, and they are the names of the
    country's bucket. *)
Theorem country_group_has_enough_candidates (flags : FeatureFlags)
  (config : Config.t) (g : Group.t) (l : list string) :
  In g (proxy_groups (fst (main flags config initial_realm))) ->
  is_country_group g = true ->
  Group.proxies g = Some l ->
  (1 <= List.length l)%nat
  /\ (countryThreshold flags <= Z.of_nat (List.length l))%Z
  /\ exists b, In b (fst (parseCountries config initial_realm))
               /\ Group.name g = country_group_name (country b)
               /\ l = nodes b.
Proof.
  rewrite parseCountries_run, main_groups_parts. cbv zeta. cbn [fst].
  rewrite !in_app_iff. intros [Hg | [Hg | [<- | []]]] Hc Hp.
  - apply service_group_not_country in Hg. congruence.
  - apply country_group_bucket in Hg.
    destruct Hg as [b [Hb [Hname [_ Hproxies]]]]. rewrite Hp in Hproxies.
    destruct (regexFilter flags); [discriminate|].
    apply Some_inj in Hproxies. subst l. apply surfaced_In in Hb.
    destruct Hb as [Hb Ht]. split; [|split; [exact Ht|]].
    + apply bucket_nonempty in Hb.
      destruct (nodes b); [congruence | cbn [List.length]; lia].
    + exists b. auto.
  - rewrite GLOBAL_not_country_group in Hc. discriminate.
Qed.

Lemma country_group_has_enough_candidates_witness :
  let flags := with_threshold default_flags 2 in
  let config := config_of ["HK-1"; "HK-2"; "US-1"] in
  let out := proxy_groups (fst (main flags config initial_realm)) in
  let hk := nth 23 out (GLOBAL_group []) in
  In hk out /\ is_country_group hk = true
  /\ Group.proxies hk = Some ["HK-1"; "HK-2"]
  /\ (1 <= List.length ["HK-1"; "HK-2"])%nat
  /\ (2 <= Z.of_nat (List.length ["HK-1"; "HK-2"]))%Z.
Proof.
  cbv zeta.
  match goal with
  | |- In ?g ?out /\ _ =>
      assert (Hin : In g out) by (apply nth_In; vm_compute; lia)
  end.
  split; [exact Hin|].
  match goal with
  | |- ?P /\ _ => assert (Hc : P) by (vm_compute; reflexivity)
  end.
  split; [exact Hc|].
  match goal with
  | |- ?P /\ _ => assert (Hp : P) by (vm_compute; reflexivity)
  end.
  split; [exact Hp|].
  destruct (country_group_has_enough_candidates _ _ _ _ Hin Hc Hp)
    as [H1 [H2 _]].
  split; [exact H1 | exact H2].
Defined.

(** ** The country group factory on any input *)




Lemma country_loop_known (countries : list string) (landing loadBalance
  regexFilter : bool) (nodesByCountry : list (string * list string)) :
  map Group.name
      (buildCountryProxyGroups_loop countries landing loadBalance regexFilter
                                    nodesByCountry)
  = map country_group_name
        (List.filter (fun c => existsb (String.eqb c) country_keys) countries).
Proof.
  induction countries as [|c countries IH];
    cbn [buildCountryProxyGroups_loop List.filter map]; [reflexivity|].
  destruct (assoc_get countriesMeta c) as [meta|] eqn:E.
  - assert (Hk : existsb (String.eqb c) country_keys = true).
    { apply In_existsb_eqb, country_key_meta. eauto. }
    rewrite Hk. cbn [map]. rewrite IH. f_equal.
    destruct regexFilter, loadBalance; reflexivity.
  - assert (Hk : existsb (String.eqb c) country_keys = false).
    { destruct (existsb (String.eqb c) country_keys) eqn:Hin; [|reflexivity].
      apply In_existsb_eqb, country_key_meta in Hin.
      destruct Hin as [meta Hm]. congruence. }
    now rewrite Hk.
Qed.

(** X16. [buildCountryProxyGroups] writes one group per listed country that the
    table declares, in the order of the list, and passes over every other
    name without a group and without an error.  (A name that
    [Object.prototype] defines is read from the prototype by the lookup, so
    the statement excludes these.) *)
Theorem undeclared_countries_are_skipped (countries : list string)
  (landing loadBalance regexFilter : bool) (countryInfo : list CountryInfo) :
  (forall c, In c countries -> ~ In c Object_prototype_keys) ->
  map Group.name
      (buildCountryProxyGroups countries landing loadBalance regexFilter
                               countryInfo)
  = map country_group_name
        (List.filter (fun c => existsb (String.eqb c) country_keys) countries).
Proof.
  intros _. unfold buildCountryProxyGroups. apply country_loop_known.
Qed.

Lemma undeclared_countries_are_skipped_witness :
  (forall c, In c ["香港"; "火星"; "美国"] -> ~ In c Object_prototype_keys)
  /\ map Group.name
         (buildCountryProxyGroups ["香港"; "火星"; "美国"] false false false [])
     = ["香港节点"; "美国节点"].
Proof.
  assert (H : forall c, In c ["香港"; "火星"; "美国"] ->
                        ~ In c Object_prototype_keys).
  { intros c Hc Hp.
    assert (Hb : existsb (fun x => existsb (String.eqb x) Object_prototype_keys)
                         ["香港"; "火星"; "美国"] = true).
    { apply existsb_exists. exists c. split; [exact Hc|].
      now apply In_existsb_eqb. }
    vm_compute in Hb. discriminate. }
  split; [exact H|].
  rewrite (undeclared_countries_are_skipped _ false false false [] H).
  vm_compute. reflexivity.
Defined.




(** ** What the classifier keeps *)

Lemma classify_some_iff (name : string) :
  (exists c, classify name = Some c)
  <-> negb (landing_match name) && negb (low_cost_match name)
      && some_country_matches name = true.
Proof.
  unfold classify, some_country_matches. rewrite first_hit_table.
  destruct (landing_match name), (low_cost_match name); cbn [negb andb];
    try (split; [intros [c H]; discriminate | discriminate]).
  destruct (find _ countriesMeta) as [e|] eqn:E.
  - apply find_some in E. split; [intros _|intros _; now exists (fst e)].
    apply existsb_exists. now exists e.
  - split; [intros [c H]; discriminate|]. intros H.
    apply existsb_exists in H. destruct H as [e [He Hocc]].
    apply (find_none _ _ E) in He. cbv beta in He. congruence.
Qed.

Lemma filter_disjoint_app {A : Type} (p q : A -> bool) (l : list A) :
  (forall x, In x l -> p x = true -> q x = false) ->
  Permutation (List.filter p l ++ List.filter q l)
              (List.filter (fun x => p x || q x) l).
Proof.
  intros H. induction l as [|x l IH]; cbn [List.filter]; [constructor|].
  assert (IH' : Permutation (List.filter p l ++ List.filter q l)
                            (List.filter (fun x => p x || q x) l))
    by (apply IH; intros y Hy; apply H; now right).
  destruct (p x) eqn:Hp.
  - rewrite (H x (or_introl eq_refl) Hp). cbn [orb app]. now constructor.
  - destruct (q x); cbn [orb]; [|exact IH'].
    symmetry. apply Permutation_cons_app. now symmetry.
Qed.

Lemma concat_filters_perm {A : Type} (q : string -> A -> bool)
  (keys : list string) (l : list A) :
  NoDup keys ->
  (forall x c c', q c x = true -> q c' x = true -> c = c') ->
  Permutation (concat (map (fun c => List.filter (q c) l) keys))
              (List.filter (fun x => existsb (fun c => q c x) keys) l).
Proof.
  intros Hnd Hone. induction Hnd as [|k keys Hk Hnd IH];
    cbn [map concat existsb].
  - rewrite filter_none; [constructor | reflexivity].
  - rewrite <- filter_disjoint_app.
    + now apply Permutation_app_head.
    + intros x _ Hx. destruct (existsb _ keys) eqn:E; [|reflexivity].
      apply existsb_exists in E. destruct E as [c [Hc Hq]].
      rewrite (Hone x k c Hx Hq) in Hk. contradiction.
Qed.

(** X18. The classifier neither loses nor invents a name: the names in the
    buckets, with repetitions, are the input names that match neither the
    landing nor the low-cost pattern and match some country's pattern.
    Each bucket holds its names in input order, and the buckets are in the
    order in which their first names occur in the input. *)
Theorem buckets_hold_every_countable_name (config : Config.t) :
  let names := node_names config in
  let buckets := fst (parseCountries config initial_realm) in
  Permutation
    (concat (map nodes buckets))
    (List.filter (fun n => negb (landing_match n) && negb (low_cost_match n)
                           && some_country_matches n) names)
  /\ (forall b, In b buckets ->
        nodes b = List.filter (classified_as (country b)) names)
  /\ map country buckets = first_occurrences (compact (map classify names))
  /\ (List.length (concat (map nodes buckets)) <= List.length names)%nat.
Proof.
  cbv zeta. rewrite parseCountries_run. cbn [fst].
  set (names := node_names config).
  assert (Hperm : Permutation
            (concat (map nodes (buckets_of names)))
            (List.filter (fun n => negb (landing_match n)
                                   && negb (low_cost_match n)
                                   && some_country_matches n) names)).
  { unfold buckets_of. rewrite map_map. cbn [nodes].
    rewrite concat_filters_perm.
    - erewrite filter_ext_in; [reflexivity|]. intros n Hn. cbv beta.
      destruct (negb (landing_match n) && negb (low_cost_match n)
                && some_country_matches n) eqn:E.
      + apply classify_some_iff in E. destruct E as [c Hc].
        apply existsb_exists. exists c. split.
        * apply first_occurrences_In, In_compact. rewrite <- Hc.
          now apply in_map.
        * now apply classified_as_true.
      + destruct (existsb _ _) eqn:E'; [|reflexivity].
        apply existsb_exists in E'. destruct E' as [c [_ Hc]].
        apply classified_as_true in Hc.
        assert (Hex : exists c, classify n = Some c) by eauto.
        apply classify_some_iff in Hex. congruence.
    - apply first_occurrences_NoDup.
    - intros x c c' H1 H2. apply classified_as_true in H1, H2. congruence. }
  split; [exact Hperm|]. split; [|split].
  - intros b Hb. now apply buckets_of_In in Hb.
  - apply buckets_of_countries.
  - rewrite (Permutation_length Hperm). apply filter_length_le.
Qed.

(** X19. For every input the low-cost list and the landing list are the
    matching input names in input order, each name as often as it occurs.
    The two tests are independent: a name that matches both patterns is in
    both lists (and, by the classifier, in no bucket). *)
Theorem low_cost_and_landing_lists_overlap (config : Config.t) :
  let names := node_names config in
  let lowCostNodes := fst (parseLowCost config initial_realm) in
  let landingNodes := fst (parseLandingNodes config initial_realm) in
  lowCostNodes = List.filter low_cost_match names
  /\ landingNodes = List.filter landing_match names
  /\ (forall n, In n lowCostNodes <-> In n names /\ low_cost_match n = true)
  /\ (forall n, In n landingNodes <-> In n names /\ landing_match n = true)
  /\ (forall n,
        In n names -> low_cost_match n = true -> landing_match n = true ->
        In n lowCostNodes /\ In n landingNodes
        /\ forall b, In b (fst (parseCountries config initial_realm)) ->
                     ~ In n (nodes b)).
Proof.
  cbv zeta. rewrite parseLowCost_run, parseLandingNodes_run,
    parseCountries_run. cbn [fst].
  split; [reflexivity|]. split; [reflexivity|].
  split; [intros n; apply filter_In|]. split; [intros n; apply filter_In|].
  intros n Hin Hlow Hland.
  split; [apply filter_In; auto|]. split; [apply filter_In; auto|].
  intros b Hb Hn. destruct (bucket_node_classified _ _ _ Hb Hn) as [_ Hc].
  apply classify_unmatched in Hc. destruct Hc as [Hl _]. congruence.
Qed.

Lemma low_cost_and_landing_lists_overlap_witness :
  let config := config_of ["HK 家宽 0.2x"; "HK 1"] in
  In "HK 家宽 0.2x" (node_names config)
  /\ low_cost_match "HK 家宽 0.2x" = true
  /\ landing_match "HK 家宽 0.2x" = true
  /\ In "HK 家宽 0.2x" (fst (parseLowCost config initial_realm))
  /\ In "HK 家宽 0.2x" (fst (parseLandingNodes config initial_realm))
  /\ fst (parseCountries config initial_realm) = [mkInfo "香港" ["HK 1"]].
Proof.
  cbv zeta.
  assert (H1 : In "HK 家宽 0.2x"
                  (node_names (config_of ["HK 家宽 0.2x"; "HK 1"])))
    by (cbn; auto).
  assert (H2 : low_cost_match "HK 家宽 0.2x" = true)
    by (vm_compute; reflexivity).
  assert (H3 : landing_match "HK 家宽 0.2x" = true)
    by (vm_compute; reflexivity).
  destruct (low_cost_and_landing_lists_overlap
              (config_of ["HK 家宽 0.2x"; "HK 1"]))
    as [_ [_ [_ [_ Hboth]]]].
  destruct (Hboth _ H1 H2 H3) as [H4 [H5 _]].
  repeat (split; [assumption|]). vm_compute. reflexivity.
Defined.

(** ** Lists of names *)

Lemma strip_suffix_without (suffix name : string) :
  ends_with name suffix = false -> strip_suffix suffix name = name.
Proof.
  induction name as [|a name IH]; cbn [strip_suffix ends_with];
    [reflexivity|].
  intros H. apply orb_false_iff in H. destruct H as [H1 H2].
  rewrite H1. now rewrite IH.
Qed.

(** X20. [stripNodeSuffix] undoes the naming of [getCountryGroupNames]: from the
    group names it gives back the surfaced countries, one for one.  A name
    that does not end with the suffix is returned unchanged. *)
Theorem stripNodeSuffix_recovers_countries (countryInfo : list CountryInfo)
  (minCount : Z) (names : list string) :
  stripNodeSuffix (getCountryGroupNames countryInfo minCount)
  = map country
        (Array_sort by_weight
           (List.filter
              (fun item => (minCount <=? Z.of_nat (List.length (nodes item)))%Z)
              countryInfo))
  /\ (forallb (fun n => negb (ends_with n NODE_SUFFIX)) names = true ->
      stripNodeSuffix names = names).
Proof.
  split.
  - unfold getCountryGroupNames, stripNodeSuffix. cbv zeta.
    rewrite map_map. apply map_ext. intros item.
    apply strip_suffix_append. discriminate.
  - intros H. unfold stripNodeSuffix. rewrite <- (map_id names) at 2.
    apply map_ext_in. intros n Hn. rewrite forallb_forall in H.
    apply strip_suffix_without. apply negb_true_iff. now apply H.
Qed.

Lemma stripNodeSuffix_recovers_countries_witness :
  forallb (fun n => negb (ends_with n NODE_SUFFIX)) ["香港"; "节点 A"] = true
  /\ stripNodeSuffix ["香港"; "节点 A"] = ["香港"; "节点 A"]
  /\ stripNodeSuffix
       (getCountryGroupNames
          [mkInfo "美国" ["US 1"]; mkInfo "香港" ["HK 1"]] 1)
     = ["香港"; "美国"].
Proof.
  assert (H : forallb (fun n => negb (ends_with n NODE_SUFFIX))
                      ["香港"; "节点 A"] = true)
    by (vm_compute; reflexivity).
  split; [exact H|]. split.
  - exact (proj2 (stripNodeSuffix_recovers_countries [] 0 _) H).
  - rewrite (proj1 (stripNodeSuffix_recovers_countries _ 1 [])).
    vm_compute. reflexivity.
Defined.

Lemma filter_Boolean_In (l : list (option string)) (x : string) :
  In x (filter_Boolean l) <-> x <> "" /\ In (Some x) l.
Proof.
  induction l as [|[s|] l IH]; cbn [filter_Boolean In].
  - tauto.
  - destruct (String.eqb s "") eqn:E.
    + apply String.eqb_eq in E. subst s. rewrite IH. split.
      * intros [H1 H2]. auto.
      * intros [H1 [H2|H2]]; [congruence | auto].
    + apply String.eqb_neq in E. cbn [In]. rewrite IH. split.
      * intros [<-|[H1 H2]]; auto.
      * intros [H1 [H2|H2]]; [left; congruence | auto].
  - rewrite IH. split; [intros [H1 H2]; auto|].
    intros [H1 [H2|H2]]; [discriminate | auto].
Qed.


Lemma buildBaseLists_any (flags : FeatureFlags) (landing : bool)
  (lowCostNodes countryGroupNames : list string) :
  let names := filter_Boolean (map Some countryGroupNames) in
  let lowCost := (0 <? List.length lowCostNodes)%nat || regexFilter flags in
  let lists := buildBaseLists flags landing lowCostNodes countryGroupNames in
  defaultSelector lists
  = (PROXY_GROUPS.FALLBACK
       :: optional landing PROXY_GROUPS.LANDING ++ names
       ++ optional lowCost PROXY_GROUPS.LOW_COST
       ++ [PROXY_GROUPS.MANUAL; "DIRECT"])%list
  /\ defaultProxies lists
     = (PROXY_GROUPS.SELECT
          :: (names ++ optional lowCost PROXY_GROUPS.LOW_COST)
          ++ [PROXY_GROUPS.MANUAL; PROXY_GROUPS.DIRECT])%list
  /\ defaultProxiesDirect lists
     = (PROXY_GROUPS.DIRECT
          :: (names ++ optional lowCost PROXY_GROUPS.LOW_COST)
          ++ [PROXY_GROUPS.SELECT; PROXY_GROUPS.MANUAL])%list
  /\ defaultFallback lists
     = (optional landing PROXY_GROUPS.LANDING ++ names
        ++ optional lowCost PROXY_GROUPS.LOW_COST
        ++ [PROXY_GROUPS.MANUAL; "DIRECT"])%list.
Proof.
  cbv zeta. unfold buildBaseLists, buildList, flat.
  cbn [defaultSelector defaultProxies defaultProxiesDirect defaultFallback
       flat_map].
  repeat rewrite filter_Boolean_app. rewrite <- !app_assoc.
  destruct landing, ((0 <? List.length lowCostNodes)%nat || regexFilter flags);
    repeat split; reflexivity.
Qed.

(** X22. The four candidate lists of [buildBaseLists] are tied to each other for
    every input: the Selector list is the Fallback list with the Fallback
    group put in front, and the two service lists hold the same names, in
    another order.  The Fallback list names the Selector only if the
    caller's country group names do. *)
Theorem base_lists_are_related (flags : FeatureFlags) (landing : bool)
  (lowCostNodes countryGroupNames : list string) :
  let lists := buildBaseLists flags landing lowCostNodes countryGroupNames in
  defaultSelector lists = PROXY_GROUPS.FALLBACK :: defaultFallback lists
  /\ Permutation (defaultProxies lists) (defaultProxiesDirect lists)
  /\ (In PROXY_GROUPS.SELECT (defaultFallback lists)
      <-> In PROXY_GROUPS.SELECT countryGroupNames).
Proof.
  cbv zeta.
  destruct (buildBaseLists_any flags landing lowCostNodes countryGroupNames)
    as [HS [HP [HD HF]]].
  rewrite HS, HP, HD, HF. clear HS HP HD HF.
  set (lowCost := (0 <? List.length lowCostNodes)%nat || regexFilter flags).
  set (names := filter_Boolean (map Some countryGroupNames)).
  assert (Hnames : In PROXY_GROUPS.SELECT names
                   <-> In PROXY_GROUPS.SELECT countryGroupNames).
  { unfold names. rewrite filter_Boolean_In, in_map_iff. split.
    - intros [_ [y [Hy Hin]]]. congruence.
    - intros H. split; [discriminate|]. now exists PROXY_GROUPS.SELECT. }
  split; [reflexivity|]. split.
  - set (m := (names ++ optional lowCost PROXY_GROUPS.LOW_COST)%list).
    apply perm_trans with
      (m ++ [PROXY_GROUPS.SELECT; PROXY_GROUPS.MANUAL; PROXY_GROUPS.DIRECT])%list.
    + apply (Permutation_middle m).
    + symmetry.
      apply perm_trans with
        (m ++ [PROXY_GROUPS.DIRECT; PROXY_GROUPS.SELECT;
               PROXY_GROUPS.MANUAL])%list.
      * apply (Permutation_middle m).
      * apply Permutation_app_head.
        apply (Permutation_cons_append
                 [PROXY_GROUPS.SELECT; PROXY_GROUPS.MANUAL]
                 PROXY_GROUPS.DIRECT).
  - rewrite !in_app_iff, Hnames. split; [|tauto].
    intros [H|[H|[H|H]]]; [|exact H| |].
    + destruct landing; cbn in H; [destruct H as [H|[]]|destruct H];
        discriminate.
    + destruct lowCost; cbn in H; [destruct H as [H|[]]|destruct H];
        discriminate.
    + cbn in H. destruct H as [H|[H|[]]]; discriminate.
Qed.

(** ** What each part of the result depends on *)

Lemma buildBaseLists_flags (flags1 flags2 : FeatureFlags) (useLanding : bool)
  (lowCostNodes countryGroupNames : list string) :
  regexFilter flags1 = regexFilter flags2 ->
  buildBaseLists flags1 useLanding lowCostNodes countryGroupNames
  = buildBaseLists flags2 useLanding lowCostNodes countryGroupNames.
Proof.
  intros H. unfold buildBaseLists. rewrite H. reflexivity.
Qed.

Lemma buildProxyGroups_flags (flags1 flags2 : FeatureFlags)
  (useLanding : bool) (countries : list string)
  (countryProxyGroups : list Group.t)
  (lowCostNodes landingNodes dP dPD dS dF : list string) :
  regexFilter flags1 = regexFilter flags2 ->
  buildProxyGroups flags1 useLanding countries countryProxyGroups
                   lowCostNodes landingNodes dP dPD dS dF
  = buildProxyGroups flags2 useLanding countries countryProxyGroups
                     lowCostNodes landingNodes dP dPD dS dF.
Proof.
  intros H. unfold buildProxyGroups. rewrite H. reflexivity.
Qed.

Lemma main_settings (flags : FeatureFlags) (config : Config.t) :
  let result := fst (main flags config initial_realm) in
  result_proxies result = Config.proxies config
  /\ rules result = buildRules (quicEnabled flags)
  /\ dns result
     = (if fakeIPEnabled flags then dnsConfigFakeIp flags else dnsConfig flags)
  /\ full_block result
     = (if fullConfig flags
        then Some (mkFull (ipv6Enabled flags) (negb (keepAliveEnabled flags)))
        else None).
Proof.
  cbv zeta. unfold main, bind. rewrite parseCountries_run, parseLowCost_run.
  destruct (landing flags); [rewrite parseLandingNodes_run|];
    repeat split; reflexivity.
Qed.

(** X23. The groups depend on four of the nine flags only: two flag sets that
    agree on [landing], [loadBalance], [regexFilter] and [countryThreshold]
    give the same groups for every input, whatever [ipv6], [full], [keepalive],
    [fakeip] and [quic] are. *)
Theorem groups_depend_on_four_flags (flags1 flags2 : FeatureFlags)
  (config : Config.t) :
  landing flags1 = landing flags2 ->
  loadBalance flags1 = loadBalance flags2 ->
  regexFilter flags1 = regexFilter flags2 ->
  countryThreshold flags1 = countryThreshold flags2 ->
  proxy_groups (fst (main flags1 config initial_realm))
  = proxy_groups (fst (main flags2 config initial_realm)).
Proof.
  intros Hl Hb Hr Ht. rewrite !main_proxy_groups.
  assert (H : groups_before_GLOBAL flags1 (node_names config)
              = groups_before_GLOBAL flags2 (node_names config)).
  { unfold groups_before_GLOBAL, base_lists_of. cbv zeta.
    rewrite Hl, Hb, Hr, Ht.
    rewrite (buildBaseLists_flags flags1 flags2) by exact Hr.
    apply buildProxyGroups_flags. exact Hr. }
  now rewrite H.
Qed.

Lemma groups_depend_on_four_flags_witness :
  let flags1 := mkFlags false true false false false false false false 2 in
  let flags2 := mkFlags false true true true true true true false 2 in
  let config := config_of ["HK 1"; "HK 2"; "US 1"; "家宽 1"] in
  landing flags1 = landing flags2
  /\ loadBalance flags1 = loadBalance flags2
  /\ regexFilter flags1 = regexFilter flags2
  /\ countryThreshold flags1 = countryThreshold flags2
  /\ proxy_groups (fst (main flags1 config initial_realm))
     = proxy_groups (fst (main flags2 config initial_realm)).
Proof.
  cbv zeta. split; [reflexivity|]. split; [reflexivity|].
  split; [reflexivity|]. split; [reflexivity|].
  apply groups_depend_on_four_flags; reflexivity.
Defined.

(** X24. The other parts of the result do not look at the nodes: the rules, the
    DNS block and the general block are the same for every input, and the
    proxies are handed through as they came.  The DNS block carries the
    [ipv6] flag, and a fake-ip filter exactly when [fakeip] is on; the
    general block is there exactly when [full] is on. *)
Theorem settings_do_not_depend_on_nodes (flags : FeatureFlags)
  (config1 config2 : Config.t) :
  let result1 := fst (main flags config1 initial_realm) in
  let result2 := fst (main flags config2 initial_realm) in
  rules result1 = rules result2
  /\ dns result1 = dns result2
  /\ full_block result1 = full_block result2
  /\ result_proxies result1 = Config.proxies config1
  /\ dns_ipv6 (dns result1) = ipv6Enabled flags
  /\ (fake_ip_filter (dns result1) <> None <-> fakeIPEnabled flags = true)
  /\ (enhanced_mode (dns result1) = "fake-ip" <-> fakeIPEnabled flags = true)
  /\ (full_block result1 <> None <-> fullConfig flags = true).
Proof.
  cbv zeta.
  destruct (main_settings flags config1) as [Hp1 [Hr1 [Hd1 Hf1]]].
  destruct (main_settings flags config2) as [_ [Hr2 [Hd2 Hf2]]].
  rewrite Hr1, Hr2, Hd1, Hd2, Hf1, Hf2, Hp1.
  repeat (split; [reflexivity|]).
  split; [destruct (fakeIPEnabled flags); reflexivity|].
  split; [|split].
  - destruct (fakeIPEnabled flags); cbn; split; congruence.
  - destruct (fakeIPEnabled flags); cbn; split; congruence.
  - destruct (fullConfig flags); split; congruence.
Qed.

(** ** Where the groups take their members from *)

Lemma fixed_groups_sourced (flags : FeatureFlags) (useLanding : bool)
  (countries lowCostNodes landingNodes dP dPD dS dF : list string) :
  forallb (sourced (regexFilter flags))
          (buildProxyGroups flags useLanding countries [] lowCostNodes
                            landingNodes dP dPD dS dF)
  = true.
Proof.
  fixed_groups_cases flags useLanding lowCostNodes; reflexivity.
Qed.

Lemma country_loop_sourced (countries : list string) (useLanding loadBalance
  regexFilter : bool) (nodesByCountry : list (string * list string)) :
  forallb (sourced regexFilter)
          (buildCountryProxyGroups_loop countries useLanding loadBalance
                                        regexFilter nodesByCountry)
  = true.
Proof.
  induction countries as [|c countries IH];
    cbn [buildCountryProxyGroups_loop forallb]; [reflexivity|].
  destruct (assoc_get countriesMeta c) as [meta|]; [|exact IH].
  cbn [forallb]. rewrite IH, andb_true_r.
  destruct regexFilter, loadBalance, useLanding; reflexivity.
Qed.

Lemma sourced_true (regex : bool) (g : Group.t) :
  sourced regex g = true ->
  (Group.proxies g <> None \/ Group.include_all g = Some true)
  /\ (Group.filter g <> None \/ Group.exclude_filter g <> None ->
      Group.include_all g = Some true)
  /\ (regex = false -> Group.include_all g = Some true ->
      Group.name g = PROXY_GROUPS.MANUAL \/ Group.name g = "GLOBAL").
Proof.
  unfold sourced, pulls_all, has_key.
  destruct (Group.proxies g), (Group.include_all g) as [[|]|],
    (Group.filter g), (Group.exclude_filter g), regex;
    cbn [orb andb negb]; intros H; try discriminate H;
    (split; [first [ left; discriminate | right; reflexivity ]|]);
    (split; [first [ reflexivity | intros [E|E]; congruence ]|]);
    intros E1 E2; try discriminate E1; try discriminate E2;
    apply orb_true_iff in H; destruct H as [H|H]; apply String.eqb_eq in H;
    auto.
Qed.

Lemma service_groups_sourced (flags : FeatureFlags) (names : list string) :
  forallb (sourced (regexFilter flags)) (service_groups flags names) = true.
Proof.
  unfold service_groups. cbv zeta. apply fixed_groups_sourced.
Qed.

Lemma country_groups_sourced (flags : FeatureFlags) (names : list string) :
  forallb (sourced (regexFilter flags)) (country_groups flags names) = true.
Proof.
  unfold country_groups, buildCountryProxyGroups. apply country_loop_sourced.
Qed.

Lemma GLOBAL_sourced (regex : bool) (l : list string) :
  sourced regex (GLOBAL_group l) = true.
Proof. destruct regex; reflexivity. Qed.

(** X25. Every group of the output has a source of members: a candidate list or
    [include-all].  A [filter] or [exclude-filter] key is only on a group
    with [include-all].  With [regexFilter] off the groups enumerate: only
    the Manual group and GLOBAL have [include-all]. *)
Theorem every_group_has_a_source (flags : FeatureFlags) (config : Config.t)
  (g : Group.t) :
  In g (proxy_groups (fst (main flags config initial_realm))) ->
  (Group.proxies g <> None \/ Group.include_all g = Some true)
  /\ (Group.filter g <> None \/ Group.exclude_filter g <> None ->
      Group.include_all g = Some true)
  /\ (regexFilter flags = false -> Group.include_all g = Some true ->
      Group.name g = PROXY_GROUPS.MANUAL \/ Group.name g = "GLOBAL").
Proof.
  intros Hg. apply sourced_true.
  rewrite main_groups_parts in Hg. cbv zeta in Hg.
  rewrite !in_app_iff in Hg. destruct Hg as [Hg | [Hg | [<- | []]]].
  - pose proof (service_groups_sourced flags (node_names config)) as Hall.
    rewrite forallb_forall in Hall. exact (Hall g Hg).
  - pose proof (country_groups_sourced flags (node_names config)) as Hall.
    rewrite forallb_forall in Hall. exact (Hall g Hg).
  - apply GLOBAL_sourced.
Qed.

Lemma every_group_has_a_source_witness :
  let out :=
    proxy_groups (fst (main default_flags (config_of ["HK-1"]) initial_realm)) in
  let manual := nth 1 out (GLOBAL_group []) in
  In manual out
  /\ Group.name manual = PROXY_GROUPS.MANUAL
  /\ Group.proxies manual = None
  /\ (Group.proxies manual <> None \/ Group.include_all manual = Some true).
Proof.
  cbv zeta.
  match goal with
  | |- In ?g ?out /\ _ =>
      assert (Hin : In g out) by (apply nth_In; vm_compute; lia)
  end.
  split; [exact Hin|]. split; [vm_compute; reflexivity|].
  split; [vm_compute; reflexivity|].
  exact (proj1 (every_group_has_a_source _ _ _ Hin)).
Defined.
